(** * Tick monitoring: session oracle, feed connectors and inactivity alerts

    A shallow embedding of the monitoring core of the dashboard:
    - [MarketTimings]   : src/utils/market-timings.ts
    - [TickFeed]        : src/hooks/use-tick-data.ts
    - [UpstoxFeed]      : src/hooks/use-upstox-tick-data.ts
    - [Inactivity]      : the inactivity-alert hook (use-inactivity-alerts)

    Conventions of the embedding.
    - JavaScript numbers that hold prices are rationals ([Q]); timestamps,
      token numbers, counts and durations are integers ([Z]).  Rounding of
      binary floating point is not modelled.  A number that may be NaN (a
      parsed time of day, the timestamp and the delay of a tick) is an
      [option], with [None] for NaN.
    - A statement of a [try] block either completes or throws ([Outcome]);
      what was done before the exception stays done.
    - A [Map] keyed by a primitive is a [gmap]; a [Set] is a [gset]; a [Map]
      whose iteration order matters is an association list.
    - [setTimeout]/[clearTimeout] act on an explicit table of armed timers;
      handles are allocated from a counter and never reused.
    - The clock is read once per event (record [Clock]).  The session
      oracle makes its own [new Date()]; what it derives from it (time of
      day, date and day of the week) is computed from the instant and the
      time zone of the host ([MarketTimings.istTime]).
    - React state setters are applied in the order they are issued. *)

From Stdlib Require Import ZArith QArith Qabs List Bool Ascii String Lia.
From stdpp Require Import base gmap sets list strings.

Local Open Scope string_scope.
Local Open Scope Z_scope.

(** ** JavaScript string helpers *)

Module JsString.

(** [String.prototype.toUpperCase] on the ASCII range. *)
Definition upper_ascii (c : ascii) : ascii :=
  let n := nat_of_ascii c in
  if (97 <=? n)%nat && (n <=? 122)%nat then ascii_of_nat (n - 32) else c.

Fixpoint toUpperCase (s : string) : string :=
  match s with
  | EmptyString => EmptyString
  | String c r => String (upper_ascii c) (toUpperCase r)
  end.

(** [String.prototype.includes]. *)
Fixpoint includes (s sub : string) : bool :=
  String.prefix sub s ||
  match s with
  | EmptyString => false
  | String _ r => includes r sub
  end.

(** [String.prototype.split] on a one-character separator. *)
Fixpoint split_on (sep : ascii) (s : string) : list string :=
  match s with
  | EmptyString => [EmptyString]
  | String c r =>
      if Ascii.eqb c sep then EmptyString :: split_on sep r
      else match split_on sep r with
           | hd :: tl => String c hd :: tl
           | [] => [String c EmptyString]
           end
  end.

Definition digit_of (c : ascii) : option Z :=
  let n := nat_of_ascii c in
  if (48 <=? n)%nat && (n <=? 57)%nat then Some (Z.of_nat (n - 48)) else None.

Fixpoint digits_from (acc : Z) (s : string) : option Z :=
  match s with
  | EmptyString => Some acc
  | String c r =>
      match digit_of c with
      | Some d => digits_from (10 * acc + d) r
      | None => None
      end
  end.

(** [Number(s)] for a string of decimal digits, the only strings the
    callers below produce; the empty string is 0, and text with any other
    character is rendered as NaN ([None]). *)
Definition Number (s : string) : option Z := digits_from 0 s.

Definition digit_char (d : Z) : ascii := ascii_of_nat (48 + Z.to_nat d).

Fixpoint decimal_fuel (fuel : nat) (n : Z) (acc : string) : string :=
  match fuel with
  | O => acc
  | S k =>
      let acc' := String (digit_char (n mod 10)) acc in
      if n / 10 =? 0 then acc' else decimal_fuel k (n / 10) acc'
  end.

(** Template-literal rendering of an integer. *)
Definition of_Z (n : Z) : string :=
  if n <? 0 then String "-"%char (decimal_fuel (S (Z.to_nat (Z.log2 (- n)))) (- n) EmptyString)
  else decimal_fuel (S (Z.to_nat (Z.log2 n))) n EmptyString.

End JsString.

(** ** JavaScript arithmetic on numbers *)

Module JsMath.

(** [Math.min] and [Math.max] of two numbers. *)
Definition qmin (a b : Q) : Q := if Qle_bool a b then a else b.
Definition qmax (a b : Q) : Q := if Qle_bool a b then b else a.

(** The operand that [a || b] yields: [b] when [a] is missing or zero. *)
Definition orQ (a : option Q) (b : Q) : Q :=
  match a with
  | Some q => if Qeq_bool q 0 then b else q
  | None => b
  end.
Definition orZ (a : option Z) (b : Z) : Z :=
  match a with
  | Some z => if z =? 0 then b else z
  | None => b
  end.

(** A number used as a condition: present and not zero. *)
Definition truthyZ (a : option Z) : option Z :=
  match a with
  | Some z => if z =? 0 then None else Some z
  | None => None
  end.

(** The value of [map.get(key)] used as a condition, where the map holds
    numbers that may be NaN: present, not NaN and not zero. *)
Definition truthyNum (a : option (option Z)) : option Z :=
  match a with
  | Some n => truthyZ n
  | None => None
  end.

(** [a - b] and [Math.max(0, a)] where [a] may be NaN, and [a + b] where
    both may be. *)
Definition numSub (a : option Z) (b : Z) : option Z := option_map (fun x => x - b) a.
Definition max0 (a : option Z) : option Z := option_map (Z.max 0) a.
Definition numAdd (a b : option Z) : option Z :=
  match a, b with
  | Some x, Some y => Some (x + y)
  | _, _ => None
  end.

(** [a > b] where [a] may be NaN. *)
Definition numGt (a : option Z) (b : Z) : bool :=
  match a with Some x => x >? b | None => false end.

End JsMath.

(** ** Exceptions *)

Module JsControl.

(** How a statement ends: it completes, or it throws; either way with the
    state it has reached. *)
Inductive Outcome (A : Type) :=
| Normal (a : A)
| Thrown (a : A).
Arguments Normal {A} a.
Arguments Thrown {A} a.

(** [for (const x of l) body]: the loop ends at the first exception. *)
Fixpoint forOf {A B} (body : A -> B -> Outcome A) (l : list B) (a : A) : Outcome A :=
  match l with
  | [] => Normal a
  | x :: r =>
      match body a x with
      | Normal a' => forOf body r a'
      | Thrown a' => Thrown a'
      end
  end.

End JsControl.

(** ** The [Date] object *)

Module JsDate.
Import JsString.

(** [String.prototype.padStart(width, "0")] *)
Fixpoint zeros (n : nat) : string :=
  match n with
  | O => EmptyString
  | S k => String "0"%char (zeros k)
  end.
Definition padStart (width : nat) (s : string) : string :=
  zeros (width - String.length s) ++ s.

(** Year, month and day of the day that lies [days] days after 1 January
    1970, in the proleptic Gregorian calendar that [Date] uses. *)
Definition civilFromDays (days : Z) : Z * Z * Z :=
  let z := days + 719468 in
  let era := z / 146097 in
  let doe := z - era * 146097 in
  let yoe := (doe - doe / 1460 + doe / 36524 - doe / 146096) / 365 in
  let doy := doe - (365 * yoe + yoe / 4 - yoe / 100) in
  let mp := (5 * doy + 2) / 153 in
  let day := doy - (153 * mp + 2) / 5 + 1 in
  let month := if mp <? 10 then mp + 3 else mp - 9 in
  let year := yoe + era * 400 + (if month <=? 2 then 1 else 0) in
  (year, month, day).

(** The number of days from 1 January 1970 to a day of the calendar. *)
Definition daysFromCivil (year month day : Z) : Z :=
  let y := if month <=? 2 then year - 1 else year in
  let era := y / 400 in
  let yoe := y - era * 400 in
  let mp := if 2 <? month then month - 3 else month + 9 in
  let doy := (153 * mp + 2) / 5 + day - 1 in
  let doe := yoe * 365 + yoe / 4 - yoe / 100 + doy in
  era * 146097 + doe - 719468.

(** The year of an ISO date: four digits, or a sign and six digits outside
    the years 0 to 9999. *)
Definition isoYear (y : Z) : string :=
  if (0 <=? y) && (y <=? 9999) then padStart 4 (of_Z y)
  else (if y <? 0 then "-" else "+") ++ padStart 6 (of_Z (Z.abs y)).

(** [toISOString().split("T")[0]] of the day [days] days after the epoch. *)
Definition isoDate (days : Z) : string :=
  let '(y, m, d) := civilFromDays days in
  isoYear y ++ "-" ++ padStart 2 (of_Z m) ++ "-" ++ padStart 2 (of_Z d).

(** [toTimeString().slice(0, 5)] at [minutes] minutes after midnight. *)
Definition timeOfDay (minutes : Z) : string :=
  padStart 2 (of_Z (minutes / 60)) ++ ":" ++ padStart 2 (of_Z (minutes mod 60)).

End JsDate.

(** ** Session oracle: src/utils/market-timings.ts *)

Module MarketTimings.
Import JsString JsDate.

Record MarketSession := {
  name : string;
  start : string;           (* HH:MM *)
  end_ : string             (* HH:MM *)
}.

Record MarketTimings := {
  preMarket : option MarketSession;
  normal : MarketSession;
  postMarket : option MarketSession
}.

Inductive MarketType := equity | currency | commodity | gsec | bonds.

Definition MARKET_TIMINGS (m : MarketType) : MarketTimings :=
  match m with
  | equity =>
      {| preMarket := Some {| name := "Pre-market"; start := "09:00"; end_ := "09:15" |};
         normal := {| name := "Normal"; start := "09:15"; end_ := "15:30" |};
         postMarket := Some {| name := "Post-market"; start := "15:30"; end_ := "16:00" |} |}
  | currency =>
      {| preMarket := None;
         normal := {| name := "Normal"; start := "09:00"; end_ := "17:00" |};
         postMarket := None |}
  | commodity =>
      {| preMarket := None;
         normal := {| name := "Normal"; start := "09:00"; end_ := "23:30" |};
         postMarket := None |}
  | gsec =>
      {| preMarket := None;
         normal := {| name := "Normal"; start := "09:00"; end_ := "17:00" |};
         postMarket := None |}
  | bonds =>
      {| preMarket := None;
         normal := {| name := "Normal"; start := "09:00"; end_ := "17:00" |};
         postMarket := None |}
  end.

Definition MARKET_HOLIDAYS_2024 : list string :=
  [ "2024-01-26"; "2024-03-08"; "2024-03-29"; "2024-04-11"; "2024-04-17";
    "2024-05-01"; "2024-06-17"; "2024-08-15"; "2024-08-26"; "2024-10-02";
    "2024-10-31"; "2024-11-01"; "2024-11-15" ].

(** What [getCurrentMarketStatus] starts from: the instant of [new Date()]
    and the time zone of the host.  Seconds play no part. *)
Record HostDate := {
  epochMinutes : Z;         (* now.getTime(), in whole minutes *)
  hostOffset : Z;           (* minutes by which the host's local time is ahead of UTC
                               at the local time that [istTime] holds *)
  hostSkip : Z              (* minutes by which the parse moves a local time that the
                               host's zone skips at a change of offset; 0 otherwise *)
}.

(** The exchange zone, Asia/Kolkata, is at UTC+05:30 all year. *)
Definition IST_OFFSET : Z := 330.

(** The three values that [getCurrentMarketStatus] derives from [istTime]. *)
Record IstTime := {
  currentTime : string;     (* istTime.toTimeString().slice(0, 5) *)
  currentDate : string;     (* istTime.toISOString().split("T")[0] *)
  dayOfWeek : Z             (* istTime.getDay(): 0 = Sunday, 6 = Saturday *)
}.

(** [const istTime = new Date(now.toLocaleString("en-US", { timeZone:
    "Asia/Kolkata" }))] and its three readings.  The string shows the wall
    clock of the exchange and is parsed back as a local time of the host:
    [istTime] is the [Date] whose local fields show that wall clock.
    [toTimeString] and [getDay] read the local fields, [toISOString] reads
    the UTC fields, which lie [hostOffset] minutes behind the local ones:
    the date is the date of the exchange only where that shift does not
    cross midnight. *)
Definition istTime (d : HostDate) : IstTime :=
  let local := epochMinutes d + IST_OFFSET + hostSkip d in
  {| currentTime := timeOfDay (local mod 1440);
     currentDate := isoDate ((local - hostOffset d) / 1440);
     dayOfWeek := (local / 1440 + 4) mod 7 |}.

Record MarketStatus := {
  isOpen : bool;
  session : string;
  reason : string;
  nextOpenTime : option string;
  sessionEnd : option string
}.

(** [hours * 60 + minutes]; [None] stands for NaN. *)
Definition timeToMinutes (time : string) : option Z :=
  match split_on ":"%char time with
  | h :: m :: _ =>
      match Number h, Number m with
      | Some hours, Some minutes => Some (hours * 60 + minutes)
      | _, _ => None
      end
  | _ => None
  end.

(** Comparisons of numbers that may be NaN: false as soon as one side is. *)
Definition num_lt (a b : option Z) : bool :=
  match a, b with Some x, Some y => x <? y | _, _ => false end.
Definition num_le (a b : option Z) : bool :=
  match a, b with Some x, Some y => x <=? y | _, _ => false end.
Definition num_ge (a b : option Z) : bool := num_le b a.

Definition isTimeInRange (current_ startTime endTime : string) : bool :=
  let current := timeToMinutes current_ in
  let start := timeToMinutes startTime in
  let end_ := timeToMinutes endTime in
  if num_lt end_ start then num_ge current start || num_le current end_
  else num_ge current start && num_le current end_.

Definition getNextEquitySession (current_ : string) : string :=
  let current := timeToMinutes current_ in
  if num_lt current (timeToMinutes "09:00") then "09:00 (Pre-market)"
  else if num_lt current (timeToMinutes "09:15") then "09:15 (Normal trading)"
  else if num_lt current (timeToMinutes "15:30") then "15:30 (Post-market)"
  else "Next day 09:00 (Pre-market)".

Definition getNextOpenTime (m : MarketType) : string :=
  match m with
  | equity => "Next trading day 09:00"
  | currency | gsec | bonds => "Next trading day 09:00"
  | commodity => "Next trading day 09:00"
  end.

Definition in_session (t : string) (s : option MarketSession) : bool :=
  match s with
  | Some s => isTimeInRange t (start s) (end_ s)
  | None => false
  end.

Definition is_equity (m : MarketType) : bool :=
  match m with equity => true | _ => false end.

(** The body of [getCurrentMarketStatus] from the weekend test on. *)
Definition statusOfReading (marketType : MarketType) (ist : IstTime) : MarketStatus :=
  if (dayOfWeek ist =? 0) || (dayOfWeek ist =? 6) then
    {| isOpen := false; session := "Closed"; reason := "Weekend";
       nextOpenTime := Some (getNextOpenTime marketType); sessionEnd := None |}
  else if existsb (String.eqb (currentDate ist)) MARKET_HOLIDAYS_2024 then
    {| isOpen := false; session := "Closed"; reason := "Market Holiday";
       nextOpenTime := Some (getNextOpenTime marketType); sessionEnd := None |}
  else
    let timings := MARKET_TIMINGS marketType in
    if is_equity marketType then
      if in_session (currentTime ist) (preMarket timings) then
        {| isOpen := true; session := "Pre-market"; reason := "Pre-market session";
           nextOpenTime := None; sessionEnd := option_map end_ (preMarket timings) |}
      else if isTimeInRange (currentTime ist) (start (normal timings)) (end_ (normal timings)) then
        {| isOpen := true; session := "Open"; reason := "Normal trading session";
           nextOpenTime := None; sessionEnd := Some (end_ (normal timings)) |}
      else if in_session (currentTime ist) (postMarket timings) then
        {| isOpen := true; session := "Post-market"; reason := "Post-market session";
           nextOpenTime := None; sessionEnd := option_map end_ (postMarket timings) |}
      else
        {| isOpen := false; session := "Closed"; reason := "Outside trading hours";
           nextOpenTime := Some (getNextEquitySession (currentTime ist)); sessionEnd := None |}
    else if isTimeInRange (currentTime ist) (start (normal timings)) (end_ (normal timings)) then
      {| isOpen := true; session := "Open"; reason := "Normal trading session";
         nextOpenTime := None; sessionEnd := Some (end_ (normal timings)) |}
    else
      {| isOpen := false; session := "Closed"; reason := "Outside trading hours";
         nextOpenTime := Some (getNextOpenTime marketType); sessionEnd := None |}.

Definition getCurrentMarketStatus (marketType : MarketType) (d : HostDate) : MarketStatus :=
  statusOfReading marketType (istTime d).

Definition includes_any (s : string) (keys : list string) : bool :=
  existsb (includes s) keys.

Definition getMarketTypeForInstrument (instrumentName : string) : MarketType :=
  let name := toUpperCase instrumentName in
  if includes_any name ["USD"; "EUR"; "GBP"; "JPY"; "USDINR"; "EURINR"] then currency
  else if includes_any name
         ["CRUDE"; "GOLD"; "SILVER"; "COPPER"; "ZINC"; "ALUMINIUM"; "LEAD";
          "NICKEL"; "NATURALGAS"; "MENTHAOIL"; "CARDAMOM"; "PEPPER"] then commodity
  else if includes_any name ["GSEC"; "GOVT"; "BOND"] then gsec
  else if includes name "CORP" && includes name "BOND" then bonds
  else equity.

Definition shouldAlertsBeActive (instrumentName : string) (d : HostDate) : bool :=
  isOpen (getCurrentMarketStatus (getMarketTypeForInstrument instrumentName) d).

Definition marketTypeName (m : MarketType) : string :=
  match m with
  | equity => "equity" | currency => "currency" | commodity => "commodity"
  | gsec => "gsec" | bonds => "bonds"
  end.

(** [getDetailedMarketStatus]: the status together with the market type. *)
Definition getDetailedMarketStatus (instrumentName : string) (d : HostDate)
  : MarketStatus * MarketType :=
  let marketType := getMarketTypeForInstrument instrumentName in
  (getCurrentMarketStatus marketType d, marketType).

(** A reading is on a weekend when [getDay()] is Sunday or Saturday. *)
Definition isWeekend (ist : IstTime) : Prop := dayOfWeek ist = 0 \/ dayOfWeek ist = 6.

Definition isHoliday (ist : IstTime) : Prop := In (currentDate ist) MARKET_HOLIDAYS_2024.

End MarketTimings.


(** ** Ticks: the record of src/hooks/use-tick-data.ts and its display name *)

Module Tick.

(** [TickData].  The [id] (built from a random suffix) and the optional
    [raw_data] carry no behaviour and are left out. *)
Record TickData := {
  instrument_token : Z;
  last_price : Q;
  volume : Z;
  average_price : Q;
  last_quantity : Z;
  timestamp : option Z;     (* timestamp from the tick data itself; NaN if it did not parse *)
  delay : option Z;         (* difference from the previous tick of the instrument; may be NaN *)
  receivedAt : Z;           (* when the tick was received by the client *)
  tradingsymbol : option string
}.

Definition tokenMap (token : Z) : option string :=
  if token =? 256265 then Some "NIFTY"
  else if token =? 265 then Some "SENSEX"
  else if token =? 128083204 then Some "RELIANCE"
  else if token =? 281836549 then Some "BHEL"
  else if token =? 408065 then Some "USDINR"
  else if token =? 134657 then Some "CRUDEOIL"
  else None.

(** [getInstrumentName] of the market data grid. *)
Definition getInstrumentName (tick : TickData) : string :=
  match tradingsymbol tick with
  | Some (String c r) => String c r
  | _ =>
      match tokenMap (instrument_token tick) with
      | Some n => n
      | None => "TOKEN_" ++ JsString.of_Z (instrument_token tick)
      end
  end.

End Tick.

(** ** Inactivity engine: the inactivity-alert hook *)

Module Inactivity.
Import JsMath MarketTimings Tick.

Record InactivityAlertConfig := {
  enabled : bool;
  deviation : Q;
  duration : Z;                       (* in seconds *)
  respectMarketHours : bool
}.

(** [InactivityAlert]; the random [id] is left out.  A bound of the price
    range is [None] when [Math.min]/[Math.max] receive no argument (their
    value is then an infinity). *)
Record InactivityAlert := {
  instrumentToken : Z;
  instrumentName : string;
  alertTimestamp : Z;
  alertDuration : Z;
  alertDeviation : Q;
  baselinePrice : Q;                  (* the price that remained static *)
  currentPrice : Q;                   (* the price at the time of alert *)
  priceRange : option Q * option Q;   (* min, max *)
  marketSession : string;
  marketType : string
}.

(** [SymbolState] objects live in a store and are referred to by address:
    the map of monitors and the timer callbacks share them. *)
Record SymbolState := {
  stBaselinePrice : Q;
  timerId : option nat;
  priceHistory : list (Q * Z);        (* price, timestamp *)
  lastMarketStatusCheck : Z;
  wasMarketOpen : bool;
  oscillator : option nat;
  gainNode : option nat
}.

Definition set_baselinePrice (p : Q) (s : SymbolState) : SymbolState :=
  {| stBaselinePrice := p; timerId := timerId s; priceHistory := priceHistory s;
     lastMarketStatusCheck := lastMarketStatusCheck s; wasMarketOpen := wasMarketOpen s;
     oscillator := oscillator s; gainNode := gainNode s |}.
Definition set_timerId (t : option nat) (s : SymbolState) : SymbolState :=
  {| stBaselinePrice := stBaselinePrice s; timerId := t; priceHistory := priceHistory s;
     lastMarketStatusCheck := lastMarketStatusCheck s; wasMarketOpen := wasMarketOpen s;
     oscillator := oscillator s; gainNode := gainNode s |}.
Definition set_priceHistory (h : list (Q * Z)) (s : SymbolState) : SymbolState :=
  {| stBaselinePrice := stBaselinePrice s; timerId := timerId s; priceHistory := h;
     lastMarketStatusCheck := lastMarketStatusCheck s; wasMarketOpen := wasMarketOpen s;
     oscillator := oscillator s; gainNode := gainNode s |}.
Definition set_lastMarketStatusCheck (t : Z) (s : SymbolState) : SymbolState :=
  {| stBaselinePrice := stBaselinePrice s; timerId := timerId s; priceHistory := priceHistory s;
     lastMarketStatusCheck := t; wasMarketOpen := wasMarketOpen s;
     oscillator := oscillator s; gainNode := gainNode s |}.
Definition set_wasMarketOpen (b : bool) (s : SymbolState) : SymbolState :=
  {| stBaselinePrice := stBaselinePrice s; timerId := timerId s; priceHistory := priceHistory s;
     lastMarketStatusCheck := lastMarketStatusCheck s; wasMarketOpen := b;
     oscillator := oscillator s; gainNode := gainNode s |}.
Definition set_sound (o g : option nat) (s : SymbolState) : SymbolState :=
  {| stBaselinePrice := stBaselinePrice s; timerId := timerId s; priceHistory := priceHistory s;
     lastMarketStatusCheck := lastMarketStatusCheck s; wasMarketOpen := wasMarketOpen s;
     oscillator := o; gainNode := g |}.

(** What a pending [setTimeout] callback of [resetInactivityTimer] closes
    over, and when it is due. *)
Record Timer := {
  tmTick : TickData;
  tmConfig : InactivityAlertConfig;
  tmState : nat;                      (* address of the captured state object *)
  fireAt : Z
}.

Record Clock := {
  now : Z;                            (* Date.now() *)
  ist : HostDate                      (* the [new Date()] of the session oracle *)
}.

Record Engine := {
  configurations : gmap Z InactivityAlertConfig;
  alerts : list InactivityAlert;
  inactiveSymbols : gset Z;
  symbolStates : gmap Z nat;          (* token -> address of its state object *)
  heap : gmap nat SymbolState;
  next_loc : nat;
  timers : gmap nat Timer;            (* armed timeouts *)
  next_timer : nat;
  audioContext : bool;                (* audioContextRef.current is set *)
  playing : gset nat;                 (* oscillators started and not stopped *)
  next_node : nat
}.

Definition init : Engine :=
  {| configurations := ∅; alerts := []; inactiveSymbols := ∅; symbolStates := ∅;
     heap := ∅; next_loc := 0; timers := ∅; next_timer := 1;
     audioContext := false; playing := ∅; next_node := 0 |}.

Definition with_configurations c (e : Engine) : Engine :=
  {| configurations := c; alerts := alerts e; inactiveSymbols := inactiveSymbols e;
     symbolStates := symbolStates e; heap := heap e; next_loc := next_loc e;
     timers := timers e; next_timer := next_timer e; audioContext := audioContext e;
     playing := playing e; next_node := next_node e |}.
Definition with_alerts a (e : Engine) : Engine :=
  {| configurations := configurations e; alerts := a; inactiveSymbols := inactiveSymbols e;
     symbolStates := symbolStates e; heap := heap e; next_loc := next_loc e;
     timers := timers e; next_timer := next_timer e; audioContext := audioContext e;
     playing := playing e; next_node := next_node e |}.
Definition with_inactiveSymbols i (e : Engine) : Engine :=
  {| configurations := configurations e; alerts := alerts e; inactiveSymbols := i;
     symbolStates := symbolStates e; heap := heap e; next_loc := next_loc e;
     timers := timers e; next_timer := next_timer e; audioContext := audioContext e;
     playing := playing e; next_node := next_node e |}.
Definition with_symbolStates m (e : Engine) : Engine :=
  {| configurations := configurations e; alerts := alerts e; inactiveSymbols := inactiveSymbols e;
     symbolStates := m; heap := heap e; next_loc := next_loc e;
     timers := timers e; next_timer := next_timer e; audioContext := audioContext e;
     playing := playing e; next_node := next_node e |}.
Definition with_heap h (e : Engine) : Engine :=
  {| configurations := configurations e; alerts := alerts e; inactiveSymbols := inactiveSymbols e;
     symbolStates := symbolStates e; heap := h; next_loc := next_loc e;
     timers := timers e; next_timer := next_timer e; audioContext := audioContext e;
     playing := playing e; next_node := next_node e |}.
Definition with_next_loc n (e : Engine) : Engine :=
  {| configurations := configurations e; alerts := alerts e; inactiveSymbols := inactiveSymbols e;
     symbolStates := symbolStates e; heap := heap e; next_loc := n;
     timers := timers e; next_timer := next_timer e; audioContext := audioContext e;
     playing := playing e; next_node := next_node e |}.
Definition with_timers t n (e : Engine) : Engine :=
  {| configurations := configurations e; alerts := alerts e; inactiveSymbols := inactiveSymbols e;
     symbolStates := symbolStates e; heap := heap e; next_loc := next_loc e;
     timers := t; next_timer := n; audioContext := audioContext e;
     playing := playing e; next_node := next_node e |}.
Definition with_audio a p n (e : Engine) : Engine :=
  {| configurations := configurations e; alerts := alerts e; inactiveSymbols := inactiveSymbols e;
     symbolStates := symbolStates e; heap := heap e; next_loc := next_loc e;
     timers := timers e; next_timer := next_timer e; audioContext := a;
     playing := p; next_node := n |}.

(** Assignment to fields of the object at address [l]. *)
Definition update (l : nat) (f : SymbolState -> SymbolState) (e : Engine) : Engine :=
  with_heap (alter f l (heap e)) e.

(** [symbolStates.current.get(token)], dereferenced. *)
Definition getState (token : Z) (e : Engine) : option (nat * SymbolState) :=
  match symbolStates e !! token with
  | Some l => match heap e !! l with Some s => Some (l, s) | None => None end
  | None => None
  end.

Definition clearTimeout (id : nat) (e : Engine) : Engine :=
  with_timers (delete id (timers e)) (next_timer e) e.

(** [if (state.timerId) clearTimeout(state.timerId)]: handles are never 0
    ([init] starts the counter at 1), so a handle is truthy. *)
Definition clearTimerOf (s : SymbolState) (e : Engine) : Engine :=
  match timerId s with
  | Some id => clearTimeout id e
  | None => e
  end.

Definition setTimeout (t : Timer) (e : Engine) : nat * Engine :=
  (next_timer e, with_timers (<[next_timer e := t]> (timers e)) (S (next_timer e)) e).

Definition stopAlertSound (token : Z) (e : Engine) : Engine :=
  match getState token e with
  | Some (l, s) =>
      match oscillator s with
      | Some o =>
          update l (set_sound None None)
            (with_audio (audioContext e) (playing e ∖ {[o]}) (next_node e) e)
      | None => e
      end
  | None => e
  end.

Definition playAlertSound (token : Z) (e : Engine) : Engine :=
  if negb (audioContext e) then e
  else
    let e1 := stopAlertSound token e in
    let o := next_node e1 in
    let g := S (next_node e1) in
    let e2 := with_audio (audioContext e1) ({[o]} ∪ playing e1) (S (S (next_node e1))) e1 in
    match symbolStates e2 !! token with
    | Some l => update l (set_sound (Some o) (Some g)) e2
    | None => e2
    end.

(** [Math.min(...prices)] and [Math.max(...prices)]. *)
Fixpoint Math_min (l : list Q) : option Q :=
  match l with
  | [] => None
  | x :: r => match Math_min r with None => Some x | Some m => Some (qmin x m) end
  end.
Fixpoint Math_max (l : list Q) : option Q :=
  match l with
  | [] => None
  | x :: r => match Math_max r with None => Some x | Some m => Some (qmax x m) end
  end.

(** The [newAlert] object built by [triggerAlert]. *)
Definition newAlert (tick : TickData) (config : InactivityAlertConfig) (state : SymbolState)
    (clk : Clock) : InactivityAlert :=
  let name := getInstrumentName tick in
  let '(marketStatus, mtype) := getDetailedMarketStatus name (ist clk) in
  let prices := map fst (priceHistory state) in
  {| instrumentToken := instrument_token tick;
     instrumentName := name;
     alertTimestamp := now clk;
     alertDuration := duration config;
     alertDeviation := deviation config;
     baselinePrice := stBaselinePrice state;
     currentPrice := last_price tick;
     priceRange := (Math_min prices, Math_max prices);
     marketSession := session marketStatus;
     marketType := marketTypeName mtype |}.

(** [triggerAlert(tick, config, state)]: [l] is the address of [state]. *)
Definition triggerAlert (tick : TickData) (config : InactivityAlertConfig) (l : nat)
    (clk : Clock) (e : Engine) : Engine :=
  match heap e !! l with
  | None => e
  | Some state =>
      let e1 := with_alerts (take 100 (newAlert tick config state clk :: alerts e)) e in
      let e2 := with_inactiveSymbols ({[instrument_token tick]} ∪ inactiveSymbols e1) e1 in
      playAlertSound (instrument_token tick) e2
  end.

(** [resetInactivityTimer(tick, config, state)]: cancel, restart the price
    history, arm a new timeout of [config.duration * 1000] ms. *)
Definition resetInactivityTimer (tick : TickData) (config : InactivityAlertConfig) (l : nat)
    (clk : Clock) (e : Engine) : Engine :=
  match heap e !! l with
  | None => e
  | Some state =>
      let e1 := clearTimerOf state e in
      let e2 := update l (set_priceHistory [(last_price tick, now clk)]) e1 in
      let '(id, e3) :=
        setTimeout {| tmTick := tick; tmConfig := config; tmState := l;
                      fireAt := now clk + duration config * 1000 |} e2 in
      update l (set_timerId (Some id)) e3
  end.

Definition clearSymbolState (token : Z) (e : Engine) : Engine :=
  let e1 := match getState token e with
            | Some (_, state) => clearTimerOf state e
            | None => e
            end in
  let e2 := stopAlertSound token e1 in
  let e3 := with_symbolStates (delete token (symbolStates e2)) e2 in
  with_inactiveSymbols (inactiveSymbols e3 ∖ {[token]}) e3.

(** The callback armed by [resetInactivityTimer]. *)
Definition timerCallback (t : Timer) (clk : Clock) (e : Engine) : Engine :=
  let tick := tmTick t in
  let config := tmConfig t in
  let name := getInstrumentName tick in
  let shouldAlert :=
    if respectMarketHours config then shouldAlertsBeActive name (ist clk) else true in
  if shouldAlert then triggerAlert tick config (tmState t) clk e
  else clearSymbolState (instrument_token tick) (stopAlertSound (instrument_token tick) e).

(** Expiry of timeout [id]: nothing happens unless it is armed and due. *)
Definition fireTimer (id : nat) (clk : Clock) (e : Engine) : Engine :=
  match timers e !! id with
  | Some t =>
      if fireAt t <=? now clk then timerCallback t clk (clearTimeout id e) else e
  | None => e
  end.

(** [if (inactiveSymbols.has(token)) setInactiveSymbols(prev => prev minus token)]:
    the test reads the set as rendered ([snapshot]), the update applies to
    the pending value. *)
Definition removeInactive (snapshot : gset Z) (token : Z) (e : Engine) : Engine :=
  if decide (token ∈ snapshot)
  then with_inactiveSymbols (inactiveSymbols e ∖ {[token]}) e
  else e.

(** [if (state.timerId) { clearTimeout(state.timerId); state.timerId = null }] *)
Definition cancelTimer (l : nat) (e : Engine) : Engine :=
  match heap e !! l with
  | Some state =>
      match timerId state with
      | Some id => update l (set_timerId None) (clearTimeout id e)
      | None => e
      end
  | None => e
  end.

(** [array.slice(-n)] *)
Definition lastN {A} (n : nat) (l : list A) : list A := drop (length l - n) l.

Definition priceMoved (price baseline dev : Q) : bool :=
  negb (Qle_bool (Qabs (price - baseline)) dev).

(** The tail of the per-tick body, from the closed-market guard on. *)
Definition monitor (snapshot : gset Z) (tick : TickData) (config : InactivityAlertConfig)
    (l : nat) (shouldAlert : bool) (clk : Clock) (e : Engine) : Engine :=
  let token := instrument_token tick in
  if negb shouldAlert && respectMarketHours config then
    cancelTimer l (stopAlertSound token e)
  else
    let e1 := update l (fun s => set_priceHistory
                                   (priceHistory s ++ [(last_price tick, now clk)]) s) e in
    let fiveMinutesAgo := now clk - 5 * 60 * 1000 in
    let e2 := update l (fun s => set_priceHistory
                (lastN 100 (List.filter (fun h => fiveMinutesAgo <? snd h) (priceHistory s))) s)
                e1 in
    match heap e2 !! l with
    | None => e2
    | Some state =>
        if priceMoved (last_price tick) (stBaselinePrice state) (deviation config) then
          let e3 := update l (set_baselinePrice (last_price tick)) e2 in
          let e4 := resetInactivityTimer tick config l clk e3 in
          stopAlertSound token (removeInactive snapshot token e4)
        else e2
    end.

(** The body of [latestTicks.forEach]. *)
Definition processTick (snapshot : gset Z) (clk : Clock) (e : Engine) (tick : TickData)
  : Engine :=
  let token := instrument_token tick in
  match configurations e !! token with
  | None => clearSymbolState token e
  | Some config =>
      if negb (enabled config) then clearSymbolState token e
      else
        let name := getInstrumentName tick in
        let shouldAlert :=
          if respectMarketHours config then shouldAlertsBeActive name (ist clk) else true in
        match symbolStates e !! token with
        | None =>
            let l := next_loc e in
            let state :=
              {| stBaselinePrice := last_price tick;
                 timerId := None;
                 priceHistory := [(last_price tick, now clk)];
                 lastMarketStatusCheck := now clk;
                 wasMarketOpen := shouldAlert;
                 oscillator := None;
                 gainNode := None |} in
            let e1 := with_next_loc (S l) (with_heap (<[l := state]> (heap e)) e) in
            let e2 := with_symbolStates (<[token := l]> (symbolStates e1)) e1 in
            if shouldAlert then resetInactivityTimer tick config l clk e2 else e2
        | Some l =>
            match heap e !! l with
            | None => e
            | Some state =>
                if now clk - lastMarketStatusCheck state >? 60000 then
                  let e1 := update l (set_lastMarketStatusCheck (now clk)) e in
                  if negb (eqb (wasMarketOpen state) shouldAlert) then
                    let e2 := update l (set_wasMarketOpen shouldAlert) e1 in
                    if shouldAlert then
                      let e3 := update l (set_baselinePrice (last_price tick)) e2 in
                      let e4 := resetInactivityTimer tick config l clk e3 in
                      stopAlertSound token (removeInactive snapshot token e4)
                    else cancelTimer l (stopAlertSound token e2)
                  else monitor snapshot tick config l shouldAlert clk e1
                else monitor snapshot tick config l shouldAlert clk e
            end
        end
  end.

(** A [Map] in insertion order. *)
Fixpoint map_get (k : Z) (m : list (Z * TickData)) : option TickData :=
  match m with
  | [] => None
  | (k', v) :: r => if k =? k' then Some v else map_get k r
  end.
Fixpoint map_set (k : Z) (v : TickData) (m : list (Z * TickData)) : list (Z * TickData) :=
  match m with
  | [] => [(k, v)]
  | (k', v') :: r => if k =? k' then (k, v) :: r else (k', v') :: map_set k v r
  end.

Definition latestStep (m : list (Z * TickData)) (tick : TickData) : list (Z * TickData) :=
  match map_get (instrument_token tick) m with
  | None => map_set (instrument_token tick) tick m
  | Some t =>
      if receivedAt tick >? receivedAt t then map_set (instrument_token tick) tick m else m
  end.

(** The latest tick per instrument, by receipt time. *)
Definition latestTicks (ticks : list TickData) : list (Z * TickData) :=
  fold_left latestStep ticks [].

(** One run of the effect over the current [ticks]. *)
Definition effect (ticks : list TickData) (clk : Clock) (e : Engine) : Engine :=
  fold_left (processTick (inactiveSymbols e) clk) (map snd (latestTicks ticks)) e.

Definition updateConfiguration (token : Z) (config : InactivityAlertConfig) (e : Engine)
  : Engine :=
  clearSymbolState token (with_configurations (<[token := config]> (configurations e)) e).

Definition clearAllAlerts (e : Engine) : Engine :=
  let e1 := with_alerts [] e in
  let e2 := fold_left (fun acc kv => stopAlertSound (fst kv) acc)
                      (map_to_list (symbolStates e1)) e1 in
  with_inactiveSymbols ∅ e2.

(** First click: the audio context is created. *)
Definition initAudio (e : Engine) : Engine :=
  with_audio true (playing e) (next_node e) e.

(** What can happen to a mounted hook. *)
Inductive Event :=
| Render (ticks : list TickData) (clk : Clock)      (* the effect runs *)
| TimerFired (id : nat) (clk : Clock)
| UpdateConfiguration (token : Z) (config : InactivityAlertConfig)
| ClearAllAlerts
| InitAudio.

Definition step (e : Engine) (ev : Event) : Engine :=
  match ev with
  | Render ticks clk => effect ticks clk e
  | TimerFired id clk => fireTimer id clk e
  | UpdateConfiguration token config => updateConfiguration token config e
  | ClearAllAlerts => clearAllAlerts e
  | InitAudio => initAudio e
  end.

Definition run (evs : list Event) (e : Engine) : Engine := fold_left step evs e.

Definition reachable (e : Engine) : Prop := exists evs, e = run evs init.

(** The armed timers of one instrument. *)
Definition armedFor (token : Z) (e : Engine) : list nat :=
  map fst (List.filter (fun kv => instrument_token (tmTick (snd kv)) =? token)
                       (map_to_list (timers e))).

End Inactivity.

(** ** Primary feed connector: src/hooks/use-tick-data.ts *)

Module TickFeed.
Import JsString JsMath JsControl MarketTimings Tick.

Definition FREEZE_THRESHOLD : Z := 5000.
Definition DELAY_THRESHOLD : Z := 1000.
Definition MAX_TICKS_STORED : nat := 200.
Definition MAX_RAW_MESSAGES : nat := 20.
Definition MAX_DEBUG_INFO : nat := 50.
Definition MAX_ALERTS : nat := 20.

Inductive AlertType := freeze | delayAlert | connection | dataAlert | market.
Inductive Severity := low | medium | high.

(** The texts handed to [addAlert], by template. *)
Inductive AlertMessage :=
| MsgErrorProcessing                  (* "Error processing data: ${error}" *)
| MsgConnectionTimeout                (* "Connection timeout" *)
| MsgConnected                        (* "Successfully connected to tick stream" *)
| MsgHighDelay (n : nat)              (* "${n} ticks with high inter-tick delay detected" *)
| MsgNoData                           (* "No data received for 5 seconds" *)
| MsgReconnecting (seconds : Q).      (* "Connection lost. Reconnecting in ${delay / 1000}s..." *)

Record Alert := {
  type : AlertType;
  message : AlertMessage;
  alertTime : Z;
  severity : Severity
}.

(** The texts handed to [addDebugInfo], by template (the clock prefix is
    left out). *)
Inductive DebugMessage :=
| DbgProcessing (eventType : string) (len : nat)
| DbgParsed (count : option nat)      (* "Successfully parsed JSON array with ${length} ticks" *)
| DbgSpecificTick (token : Z)
| DbgSkippedInvalid                   (* "Skipped invalid tick: ..." *)
| DbgProcessed (count withPrice : nat)
| DbgErrorProcessing
| DbgAlert (s : Severity) (m : AlertMessage)
| DbgAttempt (n : Z)
| DbgCreated
| DbgTimeout
| DbgOpened
| DbgError
| DbgClosed.

(** The value of the field [tradingsymbol] of an element. *)
Inductive RawSymbol :=
| SymbolFalsy                         (* absent, null, 0, false *)
| SymbolString (s : string)           (* a string; the empty one is falsy *)
| SymbolOther.                        (* another truthy value: a number, true, an object *)

(** One element of the JSON array of a [tick] event.  The numeric fields
    are numbers where present.  The field [timestamp] is [None] when it is
    falsy; a truthy one is given as [new Date(timestamp).getTime()]
    converts it, [Some None] being the NaN of an Invalid Date. *)
Record RawTick := {
  raw_instrument_token : option Z;
  raw_last_price : option Q;
  raw_volume_traded : option Z;
  raw_average_traded_price : option Q;
  raw_last_traded_quantity : option Z;
  raw_timestamp : option (option Z);
  raw_tradingsymbol : RawSymbol
}.

Inductive Entry :=
| NotAnObject                         (* null, a number, a string, a boolean *)
| Object (r : RawTick).

(** The value of [JSON.parse(rawData)]. *)
Inductive Json :=
| SyntaxError                         (* JSON.parse throws *)
| JsonNull
| JsonNotIterable                     (* a number, a boolean, an object *)
| JsonString (chars : nat)
| JsonArray (entries : list Entry).

Record Message := {
  rawData : string;
  parsed : Json
}.

Inductive ReadyState := CONNECTING | OPEN | CLOSED.

Record Source := {
  readyState : ReadyState;
  connectionTimeout : nat             (* the timeout created with this source *)
}.

Inductive TimerKind :=
| ConnectionTimeout (es : nat)
| FreezeWatchdog
| Reconnect.

Record Timer := {
  kind : TimerKind;
  armedAt : Z;
  delayMs : Q
}.

Inductive ConnectionStatus := connecting | connected | disconnected.

Record Feed := {
  ticks : list TickData;
  isConnected : bool;
  isFrozen : bool;
  lastTickTime : option Z;
  totalTicks : Z;
  freezingIncidents : Z;
  alerts : list Alert;
  connectionStatus : ConnectionStatus;
  rawMessages : list (string * string);   (* event type, first 100 characters *)
  debugInfo : list DebugMessage;
  eventSourceRef : option nat;
  freezeTimeoutRef : option nat;
  reconnectTimeoutRef : option nat;
  connectionAttempts : Z;
  lastTickTimestamps : gmap Z (option Z); (* module-level table; a value may be NaN *)
  sources : gmap nat Source;
  next_source : nat;
  timers : gmap nat Timer;
  next_timer : nat
}.

Definition init : Feed :=
  {| ticks := []; isConnected := false; isFrozen := false; lastTickTime := None;
     totalTicks := 0; freezingIncidents := 0; alerts := [];
     connectionStatus := disconnected; rawMessages := []; debugInfo := [];
     eventSourceRef := None; freezeTimeoutRef := None; reconnectTimeoutRef := None;
     connectionAttempts := 0; lastTickTimestamps := ∅; sources := ∅; next_source := 0;
     timers := ∅; next_timer := 1 |}.

(** The part of the hook that the tick listener touches besides logging. *)
Definition with_data tk fr lt tot (f : Feed) : Feed :=
  {| ticks := tk; isConnected := isConnected f; isFrozen := fr; lastTickTime := lt;
     totalTicks := tot; freezingIncidents := freezingIncidents f; alerts := alerts f;
     connectionStatus := connectionStatus f; rawMessages := rawMessages f;
     debugInfo := debugInfo f; eventSourceRef := eventSourceRef f;
     freezeTimeoutRef := freezeTimeoutRef f; reconnectTimeoutRef := reconnectTimeoutRef f;
     connectionAttempts := connectionAttempts f; lastTickTimestamps := lastTickTimestamps f;
     sources := sources f; next_source := next_source f; timers := timers f;
     next_timer := next_timer f |}.
Definition with_frozen fr inc (f : Feed) : Feed :=
  {| ticks := ticks f; isConnected := isConnected f; isFrozen := fr;
     lastTickTime := lastTickTime f;
     totalTicks := totalTicks f; freezingIncidents := inc; alerts := alerts f;
     connectionStatus := connectionStatus f; rawMessages := rawMessages f;
     debugInfo := debugInfo f; eventSourceRef := eventSourceRef f;
     freezeTimeoutRef := freezeTimeoutRef f; reconnectTimeoutRef := reconnectTimeoutRef f;
     connectionAttempts := connectionAttempts f; lastTickTimestamps := lastTickTimestamps f;
     sources := sources f; next_source := next_source f; timers := timers f;
     next_timer := next_timer f |}.
Definition with_logs al raw dbg (f : Feed) : Feed :=
  {| ticks := ticks f; isConnected := isConnected f; isFrozen := isFrozen f;
     lastTickTime := lastTickTime f;
     totalTicks := totalTicks f; freezingIncidents := freezingIncidents f; alerts := al;
     connectionStatus := connectionStatus f; rawMessages := raw;
     debugInfo := dbg; eventSourceRef := eventSourceRef f;
     freezeTimeoutRef := freezeTimeoutRef f; reconnectTimeoutRef := reconnectTimeoutRef f;
     connectionAttempts := connectionAttempts f; lastTickTimestamps := lastTickTimestamps f;
     sources := sources f; next_source := next_source f; timers := timers f;
     next_timer := next_timer f |}.
Definition with_connection c st att (f : Feed) : Feed :=
  {| ticks := ticks f; isConnected := c; isFrozen := isFrozen f;
     lastTickTime := lastTickTime f;
     totalTicks := totalTicks f; freezingIncidents := freezingIncidents f;
     alerts := alerts f;
     connectionStatus := st; rawMessages := rawMessages f;
     debugInfo := debugInfo f; eventSourceRef := eventSourceRef f;
     freezeTimeoutRef := freezeTimeoutRef f; reconnectTimeoutRef := reconnectTimeoutRef f;
     connectionAttempts := att; lastTickTimestamps := lastTickTimestamps f;
     sources := sources f; next_source := next_source f; timers := timers f;
     next_timer := next_timer f |}.
Definition with_refs es fz rc (f : Feed) : Feed :=
  {| ticks := ticks f; isConnected := isConnected f; isFrozen := isFrozen f;
     lastTickTime := lastTickTime f;
     totalTicks := totalTicks f; freezingIncidents := freezingIncidents f;
     alerts := alerts f;
     connectionStatus := connectionStatus f; rawMessages := rawMessages f;
     debugInfo := debugInfo f; eventSourceRef := es;
     freezeTimeoutRef := fz; reconnectTimeoutRef := rc;
     connectionAttempts := connectionAttempts f; lastTickTimestamps := lastTickTimestamps f;
     sources := sources f; next_source := next_source f; timers := timers f;
     next_timer := next_timer f |}.
Definition with_lastTickTimestamps m (f : Feed) : Feed :=
  {| ticks := ticks f; isConnected := isConnected f; isFrozen := isFrozen f;
     lastTickTime := lastTickTime f;
     totalTicks := totalTicks f; freezingIncidents := freezingIncidents f;
     alerts := alerts f;
     connectionStatus := connectionStatus f; rawMessages := rawMessages f;
     debugInfo := debugInfo f; eventSourceRef := eventSourceRef f;
     freezeTimeoutRef := freezeTimeoutRef f; reconnectTimeoutRef := reconnectTimeoutRef f;
     connectionAttempts := connectionAttempts f; lastTickTimestamps := m;
     sources := sources f; next_source := next_source f; timers := timers f;
     next_timer := next_timer f |}.
Definition with_sources s n (f : Feed) : Feed :=
  {| ticks := ticks f; isConnected := isConnected f; isFrozen := isFrozen f;
     lastTickTime := lastTickTime f;
     totalTicks := totalTicks f; freezingIncidents := freezingIncidents f;
     alerts := alerts f;
     connectionStatus := connectionStatus f; rawMessages := rawMessages f;
     debugInfo := debugInfo f; eventSourceRef := eventSourceRef f;
     freezeTimeoutRef := freezeTimeoutRef f; reconnectTimeoutRef := reconnectTimeoutRef f;
     connectionAttempts := connectionAttempts f; lastTickTimestamps := lastTickTimestamps f;
     sources := s; next_source := n; timers := timers f;
     next_timer := next_timer f |}.
Definition with_timers t n (f : Feed) : Feed :=
  {| ticks := ticks f; isConnected := isConnected f; isFrozen := isFrozen f;
     lastTickTime := lastTickTime f;
     totalTicks := totalTicks f; freezingIncidents := freezingIncidents f;
     alerts := alerts f;
     connectionStatus := connectionStatus f; rawMessages := rawMessages f;
     debugInfo := debugInfo f; eventSourceRef := eventSourceRef f;
     freezeTimeoutRef := freezeTimeoutRef f; reconnectTimeoutRef := reconnectTimeoutRef f;
     connectionAttempts := connectionAttempts f; lastTickTimestamps := lastTickTimestamps f;
     sources := sources f; next_source := next_source f; timers := t;
     next_timer := n |}.

Definition addDebugInfo (m : DebugMessage) (f : Feed) : Feed :=
  with_logs (alerts f) (rawMessages f) (m :: take (MAX_DEBUG_INFO - 1) (debugInfo f)) f.

Definition addAlert (t : AlertType) (m : AlertMessage) (s : Severity) (now : Z) (f : Feed)
  : Feed :=
  let alert := {| type := t; message := m; alertTime := now; severity := s |} in
  let f1 := with_logs (take (MAX_ALERTS - 1) (alert :: alerts f)) (rawMessages f)
                      (debugInfo f) f in
  addDebugInfo (DbgAlert s m) f1.

Definition clearTimeout (id : nat) (f : Feed) : Feed :=
  with_timers (delete id (timers f)) (next_timer f) f.

Definition clearRef (r : option nat) (f : Feed) : Feed :=
  match r with Some id => clearTimeout id f | None => f end.

Definition setTimeout (k : TimerKind) (delay : Q) (now : Z) (f : Feed) : nat * Feed :=
  (next_timer f,
   with_timers (<[next_timer f := {| kind := k; armedAt := now; delayMs := delay |}]> (timers f))
               (S (next_timer f)) f).

(** [tickData.tradingsymbol || undefined], for a value that is a string or
    falsy. *)
Definition nonEmpty (s : RawSymbol) : option string :=
  match s with
  | SymbolString (String c r) => Some (String c r)
  | _ => None
  end.

(** The table of the hook's own [getInstrumentName]. *)
Definition tokenMap (token : Z) : option string :=
  if token =? 256265 then Some "NIFTY"
  else if token =? 265 then Some "SENSEX"
  else if token =? 128083204 then Some "RELIANCE"
  else if token =? 281836549 then Some "BHEL"
  else if token =? 408065 then Some "USDINR"
  else if token =? 134657 then Some "CRUDEOIL"
  else None.

(** [getInstrumentName] of the hook.  A truthy [tradingsymbol] is returned
    as it is: [None] stands for a value that is not a string. *)
Definition getInstrumentName (instrumentToken : Z) (tradingsymbol : RawSymbol)
  : option string :=
  match tradingsymbol with
  | SymbolString (String c r) => Some (String c r)
  | SymbolOther => None
  | _ =>
      match tokenMap instrumentToken with
      | Some n => Some n
      | None => Some ("TOKEN_" ++ of_Z instrumentToken)
      end
  end.

(** [isMarketOpen]; [None] is the TypeError that [getMarketTypeForInstrument]
    throws at [instrumentName.toUpperCase()] when the name is not a string. *)
Definition isMarketOpen (instrumentToken : Z) (tradingsymbol : RawSymbol) (d : HostDate)
  : option bool :=
  match getInstrumentName instrumentToken tradingsymbol with
  | Some instrumentName =>
      let marketType := getMarketTypeForInstrument instrumentName in
      let marketStatus := getCurrentMarketStatus marketType d in
      Some (isOpen marketStatus)
  | None => None
  end.

(** [const marketOpen = isMarketOpen(...)] in [processTickData]: the result
    is not used, and whether the call returns does not depend on the clock
    that it reads (lemma [isMarketOpen_call_spec]). *)
Definition isMarketOpen_call (instrumentToken : Z) (tradingsymbol : RawSymbol)
  : Outcome unit :=
  match getInstrumentName instrumentToken tradingsymbol with
  | Some _ => Normal tt
  | None => Thrown tt
  end.

(** The body of the loop over the parsed array. *)
Definition processEntry (receivedAt : Z) (acc : list TickData * Feed) (entry : Entry)
  : Outcome (list TickData * Feed) :=
  let '(processedTicks, f) := acc in
  match entry with
  | NotAnObject => Normal acc
  | Object tickData =>
      match truthyZ (raw_instrument_token tickData) with
      | None => Normal acc
      | Some token =>
          match isMarketOpen_call token (raw_tradingsymbol tickData) with
          | Thrown _ => Thrown acc
          | Normal _ =>
              let tickTimestamp :=
                match raw_timestamp tickData with
                | Some t => t
                | None => Some receivedAt
                end in
              let lastTickTimeForInstrument := lastTickTimestamps f !! token in
              let interTickDelay :=
                match truthyNum lastTickTimeForInstrument with
                | Some l => numSub tickTimestamp l
                | None => Some 0
                end in
              let f1 :=
                with_lastTickTimestamps (<[token := tickTimestamp]> (lastTickTimestamps f)) f in
              let newTick :=
                {| instrument_token := token;
                   last_price := orQ (raw_last_price tickData) 0;
                   volume := orZ (raw_volume_traded tickData) 0;
                   average_price :=
                     orQ (raw_average_traded_price tickData) (orQ (raw_last_price tickData) 0);
                   last_quantity := orZ (raw_last_traded_quantity tickData) 0;
                   timestamp := tickTimestamp;
                   delay := max0 interTickDelay;
                   receivedAt := receivedAt;
                   tradingsymbol := nonEmpty (raw_tradingsymbol tickData) |} in
              if negb (instrument_token newTick =? 0) then
                Normal ((processedTicks ++ [newTick])%list,
                        if (token =? 265) || (token =? 408065)
                        then addDebugInfo (DbgSpecificTick token) f1 else f1)
              else Normal (processedTicks, addDebugInfo DbgSkippedInvalid f1)
          end
      end
  end.

(** The [catch] block of [processTickData]. *)
Definition dataError (now : Z) (f : Feed) : Feed :=
  addAlert dataAlert MsgErrorProcessing medium now (addDebugInfo DbgErrorProcessing f).

Definition withPrice (l : list TickData) : nat :=
  length (List.filter (fun t => negb (Qle_bool (last_price t) 0)) l).

Definition reportProcessed (processedTicks : list TickData) (f : Feed) : Feed :=
  match processedTicks with
  | [] => f
  | _ => addDebugInfo (DbgProcessed (length processedTicks) (withPrice processedTicks)) f
  end.

Definition processTickData (msg : Message) (eventType : string) (now : Z) (f : Feed)
  : list TickData * Feed :=
  let receivedAt := now in
  let f0 := addDebugInfo (DbgProcessing eventType (String.length (rawData msg))) f in
  let f1 := with_logs (alerts f0)
              ((eventType, substring 0 100 (rawData msg))
                 :: take (MAX_RAW_MESSAGES - 1) (rawMessages f0))
              (debugInfo f0) f0 in
  match parsed msg with
  | SyntaxError => ([], dataError now f1)
  | JsonNull => ([], dataError now f1)
  | JsonNotIterable => ([], dataError now (addDebugInfo (DbgParsed None) f1))
  | JsonString n => ([], addDebugInfo (DbgParsed (Some n)) f1)
  | JsonArray ticksArray =>
      let f2 := addDebugInfo (DbgParsed (Some (length ticksArray))) f1 in
      match forOf (processEntry receivedAt) ticksArray ([], f2) with
      | Normal (processedTicks, f3) => (processedTicks, reportProcessed processedTicks f3)
      | Thrown (processedTicks, f3) => (processedTicks, dataError now f3)
      end
  end.

Definition setReadyState (es : nat) (r : ReadyState) (f : Feed) : Feed :=
  with_sources (alter (fun s => {| readyState := r; connectionTimeout := connectionTimeout s |})
                      es (sources f)) (next_source f) f.

Definition closeSource (es : nat) (f : Feed) : Feed := setReadyState es CLOSED f.

(** The constructor of [EventSource] does not throw on the constant
    endpoint, so the [catch] of [connectToSSE] is not reachable. *)
Definition connectToSSE (now : Z) (f : Feed) : Feed :=
  let f1 := match eventSourceRef f with Some es => closeSource es f | None => f end in
  let f2 := with_connection (isConnected f1) connecting (connectionAttempts f1 + 1) f1 in
  let f3 := addDebugInfo (DbgAttempt (connectionAttempts f2)) f2 in
  let es := next_source f3 in
  let f4 := with_refs (Some es) (freezeTimeoutRef f3) (reconnectTimeoutRef f3) f3 in
  let f5 := addDebugInfo DbgCreated f4 in
  let '(tid, f6) := setTimeout (ConnectionTimeout es) 15000 now f5 in
  with_sources (<[es := {| readyState := CONNECTING; connectionTimeout := tid |}]> (sources f6))
               (S es) f6.

(** [eventSource.onopen] *)
Definition onopen (es : nat) (now : Z) (f : Feed) : Feed :=
  match sources f !! es with
  | None => f
  | Some src =>
      let f1 := clearTimeout (connectionTimeout src) f in
      let f2 := addDebugInfo DbgOpened f1 in
      let f3 := with_connection true connected 0 f2 in
      addAlert connection MsgConnected low now f3
  end.

Definition highDelay (l : list TickData) : nat :=
  length (List.filter (fun t => numGt (delay t) DELAY_THRESHOLD) l).

(** The listener of [tick] events. *)
Definition onTick (msg : Message) (now : Z) (f : Feed) : Feed :=
  let '(processedTicks, f1) := processTickData msg "tick" now f in
  match processedTicks with
  | [] => f1
  | _ =>
      let f2 := with_data (take MAX_TICKS_STORED (processedTicks ++ ticks f1)) false
                          (Some now) (totalTicks f1 + Z.of_nat (length processedTicks)) f1 in
      let f3 := if (0 <? highDelay processedTicks)%nat
                then addAlert delayAlert (MsgHighDelay (highDelay processedTicks)) medium now f2
                else f2 in
      let f4 := clearRef (freezeTimeoutRef f3) f3 in
      let '(tid, f5) := setTimeout FreezeWatchdog (inject_Z FREEZE_THRESHOLD) now f4 in
      with_refs (eventSourceRef f5) (Some tid) (reconnectTimeoutRef f5) f5
  end.

Definition reconnectDelay (attempts : Z) : Q :=
  qmin (5000 * Qpower 2 (attempts - 1)) 30000.

(** [eventSource.onerror] *)
Definition onerror (es : nat) (now : Z) (f : Feed) : Feed :=
  match sources f !! es with
  | None => f
  | Some src =>
      let f1 := clearTimeout (connectionTimeout src) f in
      let f2 := addDebugInfo DbgError f1 in
      match readyState src with
      | CLOSED =>
          let f3 := addDebugInfo DbgClosed f2 in
          let f4 := with_connection false disconnected (connectionAttempts f3) f3 in
          let delay := reconnectDelay (connectionAttempts f4) in
          let f5 := addAlert connection (MsgReconnecting (delay / 1000)) high now f4 in
          let f6 := clearRef (reconnectTimeoutRef f5) f5 in
          let '(tid, f7) := setTimeout Reconnect delay now f6 in
          with_refs (eventSourceRef f7) (freezeTimeoutRef f7) (Some tid) f7
      | _ => f2
      end
  end.

(** The callbacks of the three kinds of timeout. *)
Definition timerCallback (k : TimerKind) (now : Z) (f : Feed) : Feed :=
  match k with
  | ConnectionTimeout es =>
      match sources f !! es with
      | Some {| readyState := CONNECTING |} =>
          addAlert connection MsgConnectionTimeout high now
                   (closeSource es (addDebugInfo DbgTimeout f))
      | _ => f
      end
  | FreezeWatchdog =>
      addAlert freeze MsgNoData high now (with_frozen true (freezingIncidents f + 1) f)
  | Reconnect => connectToSSE now f
  end.

Definition due (t : Timer) (now : Z) : bool :=
  Qle_bool (inject_Z (armedAt t) + delayMs t) (inject_Z now).

(** What the browser delivers to a mounted hook. *)
Inductive Event :=
| Mount (now : Z)                                   (* the effect calls connectToSSE *)
| Opened (es : nat) (now : Z)
| TickEvent (es : nat) (msg : Message) (now : Z)
| Failed (es : nat) (closed : bool) (now : Z)       (* error, source closed or retrying *)
| TimerFired (id : nat) (now : Z).

Definition sourceState (es : nat) (f : Feed) : option ReadyState :=
  readyState <$> sources f !! es.

Definition step (f : Feed) (ev : Event) : Feed :=
  match ev with
  | Mount now => connectToSSE now f
  | Opened es now =>
      match sourceState es f with
      | Some CONNECTING => onopen es now (setReadyState es OPEN f)
      | _ => f
      end
  | TickEvent es msg now =>
      match sourceState es f with
      | Some OPEN => onTick msg now f
      | _ => f
      end
  | Failed es closed now =>
      match sourceState es f with
      | Some CONNECTING | Some OPEN =>
          onerror es now (setReadyState es (if closed then CLOSED else CONNECTING) f)
      | _ => f
      end
  | TimerFired id now =>
      match timers f !! id with
      | Some t => if due t now then timerCallback (kind t) now (clearTimeout id f) else f
      | None => f
      end
  end.

Definition run (evs : list Event) (f : Feed) : Feed := fold_left step evs f.

End TickFeed.

(** ** Upstox feed connector: src/hooks/use-upstox-tick-data.ts *)

Module UpstoxFeed.
Import JsMath JsControl.

Definition FREEZE_TIMEOUT : Z := 30000.
Definition MAX_TICKS : nat := 1000.
Definition MAX_ALERTS : nat := 50.

(** [UpstoxTickData]; the [id] repeats the key and the timestamp. *)
Record UpstoxTickData := {
  instrument_token : string;
  last_price : Q;
  last_quantity : Z;
  average_price : Q;
  volume : Z;
  timestamp : option Z;               (* Number(ltt); NaN if it is not numeric *)
  receivedAt : Z;
  delay : option Z
}.

Inductive AlertType := connection | dataAlert | freeze.
Inductive Severity := low | medium | high.
Inductive AlertMessage :=
| MsgNoData                           (* "No Upstox data for 30 s" *)
| MsgConnected                        (* "Upstox connected" *)
| MsgParseError                       (* "Parse error: ${err}" *)
| MsgReconnecting.                    (* "Upstox error – reconnecting" *)

Record UpstoxAlert := {
  type : AlertType;
  message : AlertMessage;
  severity : Severity;
  alertTime : Z
}.

(** [item.ff.marketFF.ltpc].  The fields are numbers where present, but
    for [ltt], the time of the last trade, which the feed sends as text:
    [None] is null or undefined, otherwise the field is given as
    [Number(ltt)] converts it, [Some None] being NaN. *)
Record Ltpc := {
  ltp : option Q;
  ltq : option Z;
  cp : option Q;
  ltt : option (option Z)
}.

(** [item?.ff?.marketFF?.marketOHLC?.ohlc] *)
Inductive Ohlc :=
| OhlcAbsent                          (* a link of the chain is null or undefined *)
| OhlcList (lastVolume : option Z)    (* an array (or a string): [at(-1)?.volume] *)
| OhlcNoAt.                           (* a value without [at]: a number, true, an object *)

Record Item := {
  ltpc : option Ltpc;                 (* item?.ff?.marketFF?.ltpc *)
  ohlc : Ohlc;
  itemVolume : option Z               (* item.volume *)
}.

(** The value of [JSON.parse(e.data)]. *)
Inductive Payload :=
| SyntaxError                         (* JSON.parse throws *)
| NotLiveFeed                         (* type is not "live_feed", or no feeds *)
| LiveFeed (feeds : list (string * Item)).   (* Object.entries(payload.feeds) *)

Inductive ConnectionStatus := disconnected | connecting | connected | error.

Inductive TimerKind := FreezeWatchdog | Reconnect.

Record Timer := {
  kind : TimerKind;
  armedAt : Z;
  delayMs : Z
}.

Record Feed := {
  ticks : list UpstoxTickData;
  alerts : list UpstoxAlert;
  connectionStatus : ConnectionStatus;
  isFrozen : bool;
  listening : bool;                   (* the source that carries the handlers is not closed *)
  freezeTimer : option nat;
  lastTickForInstrument : gmap string (option Z);
  timers : gmap nat Timer;
  next_timer : nat
}.

Definition init : Feed :=
  {| ticks := []; alerts := []; connectionStatus := disconnected; isFrozen := false;
     listening := false; freezeTimer := None; lastTickForInstrument := ∅;
     timers := ∅; next_timer := 1 |}.

Definition with_ui tk al st fr (f : Feed) : Feed :=
  {| ticks := tk; alerts := al; connectionStatus := st; isFrozen := fr;
     listening := listening f; freezeTimer := freezeTimer f;
     lastTickForInstrument := lastTickForInstrument f;
     timers := timers f; next_timer := next_timer f |}.
Definition with_refs li fz last (f : Feed) : Feed :=
  {| ticks := ticks f; alerts := alerts f; connectionStatus := connectionStatus f;
     isFrozen := isFrozen f; listening := li; freezeTimer := fz;
     lastTickForInstrument := last;
     timers := timers f; next_timer := next_timer f |}.
Definition with_timers t n (f : Feed) : Feed :=
  {| ticks := ticks f; alerts := alerts f; connectionStatus := connectionStatus f;
     isFrozen := isFrozen f; listening := listening f; freezeTimer := freezeTimer f;
     lastTickForInstrument := lastTickForInstrument f;
     timers := t; next_timer := n |}.

Definition addAlert (t : AlertType) (m : AlertMessage) (s : Severity) (now : Z) (f : Feed)
  : Feed :=
  with_ui (ticks f)
          ({| type := t; message := m; severity := s; alertTime := now |}
             :: take (MAX_ALERTS - 1) (alerts f))
          (connectionStatus f) (isFrozen f) f.

Definition clearTimeout (id : nat) (f : Feed) : Feed :=
  with_timers (delete id (timers f)) (next_timer f) f.

Definition setTimeout (k : TimerKind) (delay : Z) (now : Z) (f : Feed) : nat * Feed :=
  (next_timer f,
   with_timers (<[next_timer f := {| kind := k; armedAt := now; delayMs := delay |}]> (timers f))
               (S (next_timer f)) f).

Definition scheduleFreeze (now : Z) (f : Feed) : Feed :=
  let f1 := match freezeTimer f with Some id => clearTimeout id f | None => f end in
  let '(tid, f2) := setTimeout FreezeWatchdog FREEZE_TIMEOUT now f1 in
  with_refs (listening f2) (Some tid) (lastTickForInstrument f2) f2.

Definition truthyQ (a : option Q) : option Q :=
  match a with
  | Some q => if Qeq_bool q 0 then None else Some q
  | None => None
  end.

(** The body of the loop over [Object.entries(payload.feeds)].  The object
    pushed is built field by field: reading [volume] throws a TypeError when
    [ohlc] has no method [at], after the table has been written. *)
Definition processFeed (now : Z) (acc : list UpstoxTickData * Feed) (entry : string * Item)
  : Outcome (list UpstoxTickData * Feed) :=
  let '(newTicks, f) := acc in
  let '(key, item) := entry in
  match ltpc item with
  | None => Normal acc
  | Some l =>
      match truthyQ (ltp l) with
      | None => Normal acc
      | Some price =>
          let ts := match ltt l with Some t => t | None => Some now end in
          let prev := lastTickForInstrument f !! key in
          let delay := match truthyNum prev with Some p => numSub ts p | None => Some 0 end in
          let f1 := with_refs (listening f) (freezeTimer f)
                              (<[key := ts]> (lastTickForInstrument f)) f in
          match ohlc item with
          | OhlcNoAt => Thrown (newTicks, f1)
          | _ =>
              Normal
                ((newTicks ++ [{| instrument_token := key;
                                  last_price := price;
                                  last_quantity := match ltq l with Some q => q | None => 0 end;
                                  average_price := match cp l with Some c => c | None => price end;
                                  volume := match ohlc item with
                                            | OhlcList (Some v) => v
                                            | _ => match itemVolume item with
                                                   | Some v => v
                                                   | None => 0
                                                   end
                                            end;
                                  timestamp := ts;
                                  receivedAt := now;
                                  delay := delay |}])%list, f1)
          end
      end
  end.

(** [es.onmessage] *)
Definition onmessage (payload : Payload) (now : Z) (f : Feed) : Feed :=
  let f1 := scheduleFreeze now f in
  match payload with
  | SyntaxError => addAlert dataAlert MsgParseError medium now f1
  | NotLiveFeed => f1
  | LiveFeed feeds =>
      match forOf (processFeed now) feeds ([], f1) with
      | Normal (newTicks, f2) =>
          match newTicks with
          | [] => f2
          | _ => with_ui (take MAX_TICKS (newTicks ++ ticks f2)) (alerts f2)
                         (connectionStatus f2) false f2
          end
      | Thrown (_, f2) => addAlert dataAlert MsgParseError medium now f2
      end
  end.

(** [es.onopen] *)
Definition onopen (now : Z) (f : Feed) : Feed :=
  let f1 := with_ui (ticks f) (alerts f) connected (isFrozen f) f in
  scheduleFreeze now (addAlert connection MsgConnected low now f1).

(** [es.onerror]: the source is closed; the one created five seconds later
    carries no handler. *)
Definition onerror (now : Z) (f : Feed) : Feed :=
  let f1 := with_ui (ticks f) (alerts f) error (isFrozen f) f in
  let f2 := addAlert connection MsgReconnecting medium now f1 in
  let f3 := with_refs false (freezeTimer f2) (lastTickForInstrument f2) f2 in
  snd (setTimeout Reconnect 5000 now f3).

Definition timerCallback (k : TimerKind) (now : Z) (f : Feed) : Feed :=
  match k with
  | FreezeWatchdog =>
      addAlert freeze MsgNoData high now
               (with_ui (ticks f) (alerts f) (connectionStatus f) true f)
  | Reconnect => with_ui (ticks f) (alerts f) connecting (isFrozen f) f
  end.

Inductive Event :=
| Mount
| Opened (now : Z)
| MessageEvent (payload : Payload) (now : Z)
| Failed (now : Z)
| TimerFired (id : nat) (now : Z).

Definition step (f : Feed) (ev : Event) : Feed :=
  match ev with
  | Mount =>
      with_refs true (freezeTimer f) (lastTickForInstrument f)
                (with_ui (ticks f) (alerts f) connecting (isFrozen f) f)
  | Opened now => if listening f then onopen now f else f
  | MessageEvent payload now => if listening f then onmessage payload now f else f
  | Failed now => if listening f then onerror now f else f
  | TimerFired id now =>
      match timers f !! id with
      | Some t =>
          if armedAt t + delayMs t <=? now
          then timerCallback (kind t) now (clearTimeout id f) else f
      | None => f
      end
  end.

Definition run (evs : list Event) (f : Feed) : Feed := fold_left step evs f.

End UpstoxFeed.

(** * The claims as worded, and sample inputs *)

Module OracleScenarios.
Import JsDate MarketTimings.

(** The calendar of the exchange: the day on which an instant falls there,
    whether that day is a Saturday or a Sunday, and its date. *)
Definition istWall (d : HostDate) : Z := epochMinutes d + IST_OFFSET.
Definition istDay (d : HostDate) : Z := istWall d / 1440.
Definition fallsOnWeekend (d : HostDate) : Prop :=
  (istDay d + 4) mod 7 = 0 \/ (istDay d + 4) mod 7 = 6.
Definition dateOf (d : HostDate) : string := isoDate (istDay d).
Definition fallsOnHoliday (d : HostDate) : Prop := In (dateOf d) MARKET_HOLIDAYS_2024.



(** The host's shift to UTC stays within the day of the exchange, and the
    host's zone does not skip the time read. *)
Definition sameDay (d : HostDate) : Prop :=
  hostSkip d = 0 /\ (istWall d - hostOffset d) / 1440 = istDay d.

(** The instant at which the wall clock of the exchange shows the given day
    and time, read on a host whose zone is [offset] minutes ahead of UTC. *)
Definition atIst (year month day hour minute offset : Z) : HostDate :=
  {| epochMinutes := daysFromCivil year month day * 1440 + hour * 60 + minute - IST_OFFSET;
     hostOffset := offset;
     hostSkip := 0 |}.



End OracleScenarios.

Module FeedScenarios.
Import JsMath JsControl Tick TickFeed.


(** The delay as the primary connector computes it from the entry of the
    table and the timestamp of the tick. *)
Definition clampedDelay (lastSeen : option (option Z)) (current : option Z) : option Z :=
  match truthyNum lastSeen with
  | None => Some 0
  | Some l => max0 (numSub current l)
  end.

(** The delay as the Upstox connector computes it. *)
Definition signedDelay (lastSeen : option (option Z)) (current : option Z) : option Z :=
  match truthyNum lastSeen with
  | None => Some 0
  | Some l => numSub current l
  end.


(** A well-formed element of a tick batch; [ts] is its timestamp, if it has
    one. *)
Definition rawTick (token : Z) (price : Q) (ts : option Z) : RawTick :=
  {| raw_instrument_token := Some token;
     raw_last_price := Some price;
     raw_volume_traded := Some 10;
     raw_average_traded_price := Some price;
     raw_last_traded_quantity := Some 1;
     raw_timestamp := option_map Some ts;
     raw_tradingsymbol := SymbolFalsy |}.



(** An object without [instrument_token]. *)
Definition tokenless : RawTick :=
  {| raw_instrument_token := None;
     raw_last_price := Some 5%Q;
     raw_volume_traded := None;
     raw_average_traded_price := None;
     raw_last_traded_quantity := None;
     raw_timestamp := None;
     raw_tradingsymbol := SymbolFalsy |}.

Definition batch (text : string) (entries : list Entry) : Message :=
  {| rawData := text; parsed := JsonArray entries |}.

(** A tick stamped 1000, then one of the same instrument stamped 400, or
    one whose timestamp is not a date. *)
Definition firstTick : Message := batch "[first]" [Object (rawTick 7 100 (Some 1000))].

(** No element of the array makes [isMarketOpen] throw. *)
Definition wellTyped (entries : list Entry) : Prop :=
  forall r token, In (Object r) entries -> truthyZ (raw_instrument_token r) = Some token ->
                  raw_tradingsymbol r <> SymbolOther.

(** The message parses: [processTickData] does not reach its [catch]. *)
Definition parses (msg : Message) : bool :=
  match parsed msg with
  | SyntaxError | JsonNull | JsonNotIterable => false
  | JsonString _ | JsonArray _ => true
  end.



(** Three entries, the second of which is not a tick. *)
Definition mixedBatch : Message :=
  batch "[tick, junk, tick]"
        [Object (rawTick 11 100 None); Object tokenless; Object (rawTick 12 200 None)].

(** Debug lines that report a problem with the data. *)
Definition isDiagnostic (m : DebugMessage) : bool :=
  match m with
  | DbgSkippedInvalid | DbgErrorProcessing | DbgAlert _ _ => true
  | _ => false
  end.

(** What a message handler must leave alone unless it says otherwise:
    timers, handles, sources and the frozen flag. *)
Definition control (f : Feed) :=
  (isFrozen f, freezeTimeoutRef f, reconnectTimeoutRef f, eventSourceRef f,
   timers f, next_timer f, sources f, next_source f, connectionAttempts f).



End FeedScenarios.

Module UpstoxScenarios.
Import JsMath JsControl UpstoxFeed.

Definition quote (price : Q) (ts : Z) : Item :=
  {| ltpc := Some {| ltp := Some price; ltq := None; cp := None; ltt := Some (Some ts) |};
     ohlc := OhlcAbsent; itemVolume := None |}.

(** A quote whose candles are an object, not an array. *)
Definition quoteWithoutCandles (price : Q) (ts : Z) : Item :=
  {| ltpc := Some {| ltp := Some price; ltq := None; cp := None; ltt := Some (Some ts) |};
     ohlc := OhlcNoAt; itemVolume := None |}.

(** A live feed stamped 1000, then one of the same key stamped 400. *)
Definition afterFirstQuote : Feed :=
  onmessage (LiveFeed [("NSE_EQ|X", quote 100 1000)]) 1000 (step init Mount).
Definition staleQuote : Payload := LiveFeed [("NSE_EQ|X", quote 100 400)].

(** The ticks that a message yields: those of its feeds, unless reading one
    of them throws. *)
Definition newTicks (payload : Payload) (now : Z) (f : Feed) : list UpstoxTickData :=
  match payload with
  | LiveFeed feeds =>
      match forOf (processFeed now) feeds ([], scheduleFreeze now f) with
      | Normal (l, _) => l
      | Thrown _ => []
      end
  | _ => []
  end.

Definition control (f : Feed) :=
  (isFrozen f, freezeTimer f, timers f, next_timer f, listening f, connectionStatus f).

End UpstoxScenarios.

(** * The invariant of the inactivity engine *)

Module EngineInvariant.
Import Tick Inactivity.

Record Inv (e : Engine) : Prop := {
  (** an armed timer belongs to the monitor of its instrument, which holds
      its handle *)
  inv_timer : forall id t, timers e !! id = Some t ->
    symbolStates e !! instrument_token (tmTick t) = Some (tmState t) /\
    exists s, heap e !! tmState t = Some s /\ timerId s = Some id;
  (** handles and addresses not yet allocated are unused *)
  inv_fresh_timer : forall id, (next_timer e <= id)%nat -> timers e !! id = None;
  inv_fresh_loc : forall l, (next_loc e <= l)%nat -> heap e !! l = None;
  (** every monitor of the map is an object of the store, and no object is
      shared between two instruments *)
  inv_state : forall k l, symbolStates e !! k = Some l -> is_Some (heap e !! l);
  inv_inj : forall k1 k2 l,
    symbolStates e !! k1 = Some l -> symbolStates e !! k2 = Some l -> k1 = k2;
  (** a sounding oscillator is held by a monitor of the map *)
  inv_sound : forall o, o ∈ playing e ->
    exists k l s, symbolStates e !! k = Some l /\ heap e !! l = Some s /\
                  oscillator s = Some o;
  (** a monitor whose timer is armed has a price history *)
  inv_history : forall id t s, timers e !! id = Some t ->
    heap e !! tmState t = Some s -> priceHistory s <> []
}.

(** The handle [id] is armed for [token]. *)
Definition armed (token : Z) (id : nat) (e : Engine) : Prop :=
  exists t, timers e !! id = Some t /\ instrument_token (tmTick t) = token.

(** Two states agree on everything but the sound nodes. *)
Definition sameMonitor (s s' : SymbolState) : Prop :=
  stBaselinePrice s' = stBaselinePrice s /\
  timerId s' = timerId s /\
  priceHistory s' = priceHistory s /\
  lastMarketStatusCheck s' = lastMarketStatusCheck s /\
  wasMarketOpen s' = wasMarketOpen s.

(** The timer that [resetInactivityTimer] arms. *)
Definition armedTimer (tick : TickData) (config : InactivityAlertConfig) (l : nat) (clk : Clock)
  : Timer :=
  {| tmTick := tick; tmConfig := config; tmState := l;
     fireAt := now clk + duration config * 1000 |}.

(** [shouldAlert] as the per-tick body and the timer callback compute it. *)
Definition shouldAlertFor (tick : TickData) (config : InactivityAlertConfig) (clk : Clock)
  : bool :=
  if respectMarketHours config
  then MarketTimings.shouldAlertsBeActive (getInstrumentName tick) (ist clk)
  else true.

(** The history after one tick of the monitoring path. *)
Definition retained (h : list (Q * Z)) (tick : TickData) (clk : Clock) : list (Q * Z) :=
  lastN 100 (List.filter (fun x => now clk - 5 * 60 * 1000 <? snd x)
                         (h ++ [(last_price tick, now clk)])).

(** [e'] differs from [e] at most in the object at [l], the timers, the
    inactive set and the sound. *)
Definition onlyAt (l : nat) (e e' : Engine) : Prop :=
  symbolStates e' = symbolStates e /\
  configurations e' = configurations e /\
  alerts e' = alerts e /\
  next_loc e' = next_loc e /\
  forall l', l' <> l -> heap e' !! l' = heap e !! l'.

(** Every object of the store is still there and agrees with what it was,
    sound nodes apart. *)
Definition monitorsKept (e e' : Engine) : Prop :=
  forall l, match heap e !! l with
            | Some s => exists s', heap e' !! l = Some s' /\ sameMonitor s s'
            | None => heap e' !! l = None
            end.

(** A handle that a state object holds has been issued, and if it is armed
    its callback has captured that object. *)
Definition Owned (e : Engine) : Prop :=
  forall l s id, heap e !! l = Some s -> timerId s = Some id ->
    (id < next_timer e)%nat /\ forall t, timers e !! id = Some t -> tmState t = l.

End EngineInvariant.

Module EngineScenarios.
Import Tick Inactivity EngineInvariant.

(** Deviation 0.1, duration 30 s. *)
Definition alwaysOn : InactivityAlertConfig :=
  {| enabled := true; deviation := 1 # 10; duration := 30; respectMarketHours := false |}.
Definition duringMarketHours : InactivityAlertConfig :=
  {| enabled := true; deviation := 1 # 10; duration := 30; respectMarketHours := true |}.
Definition switchedOff : InactivityAlertConfig :=
  {| enabled := false; deviation := 1 # 10; duration := 30; respectMarketHours := false |}.

Definition priceTick (token : Z) (price : Q) (at_ : Z) : TickData :=
  {| instrument_token := token; last_price := price; volume := 0; average_price := price;
     last_quantity := 0; timestamp := Some at_; delay := Some 0; receivedAt := at_;
     tradingsymbol := None |}.

(** Thursday 25 January 2024, ten o'clock at the exchange, and the Sunday
    after, on a host in UTC. *)
Definition thursday (t : Z) : Clock :=
  {| now := t; ist := OracleScenarios.atIst 2024 1 25 10 0 0 |}.
Definition sunday (t : Z) : Clock :=
  {| now := t; ist := OracleScenarios.atIst 2024 1 28 10 0 0 |}.

(** Instrument 265 is configured and its first tick, at price 100, has
    armed timer 1. *)
Definition monitored : Engine :=
  run [UpdateConfiguration 265 alwaysOn; Render [priceTick 265 100 0] (thursday 0)] init.

(** Ten seconds later a tick at 100.05, within the deviation; the list of
    ticks is newest first. *)
Definition secondTicks : list TickData :=
  [priceTick 265 (10005 # 100) 10000; priceTick 265 100 0].

(** The timer expires after thirty seconds. *)
Definition afterExpiry : Engine :=
  run [Render secondTicks (thursday 10000); TimerFired 1%nat (thursday 30000)] monitored.

(** A tick at 100.20, beyond the deviation. *)
Definition movedTick : TickData := priceTick 265 (1002 # 10) 10000.

(** The outcome of a tick beyond the deviation as the specification words
    it: no alert is raised, the baseline is the price of the tick, and a
    timer is armed that is due a full duration after the tick. *)
Definition restartedAt (tick : TickData) (clk : Clock) (before after : Engine) : Prop :=
  alerts after = alerts before /\
  exists l s id t,
    getState (instrument_token tick) after = Some (l, s) /\
    stBaselinePrice s = last_price tick /\
    timerId s = Some id /\
    timers after !! id = Some t /\
    fireAt t = now clk + duration (tmConfig t) * 1000.

(** The two clocks read at the same instant: [seconds] after the minute of
    [d]. *)
Definition clockAt (d : MarketTimings.HostDate) (seconds : Z) : Clock :=
  {| now := MarketTimings.epochMinutes d * 60000 + seconds * 1000; ist := d |}.

(** Thursday 25 January 2024 on a host in UTC: forty seconds past 16:00 at
    the exchange, the last minute of the post-market session of equities,
    and five seconds past 16:01. *)
Definition beforeClose : Clock := clockAt (OracleScenarios.atIst 2024 1 25 16 0 0) 40.
Definition afterClose : Clock := clockAt (OracleScenarios.atIst 2024 1 25 16 1 0) 5.

(** Instrument 265 under a configuration that respects market hours; its
    first tick, at price 100, arms timer 1 just before the close. *)
Definition armedBeforeClose : Engine :=
  run [UpdateConfiguration 265 duringMarketHours;
       Render [priceTick 265 100 (now beforeClose)] beforeClose] init.

(** Twenty-five seconds later, after the close, a tick at 100.20: the list
    of ticks is newest first. *)
Definition ticksAfterClose : list TickData :=
  [priceTick 265 (1002 # 10) (now afterClose); priceTick 265 100 (now beforeClose)].

(** One message brings two ticks of instrument 265, received at the same
    time: the first at 100.05, the second at 100.20. *)
Definition tiedTicks : list TickData :=
  [priceTick 265 (10005 # 100) 10000; movedTick; priceTick 265 100 0].

(** The effect runs on them, and thirty seconds after the first tick timer 1
    expires. *)
Definition afterTie : Engine :=
  run [Render tiedTicks (thursday 10000); TimerFired 1%nat (thursday 30000)] monitored.

(** The same instrument under a configuration that respects market hours. *)
Definition monitoredInHours : Engine :=
  run [UpdateConfiguration 265 duringMarketHours; Render [priceTick 265 100 0] (thursday 0)]
      init.

(** The outcome of a configuration update as the specification words it:
    a monitor exists again and its baseline is the latest observed price. *)
Definition recreatedFromLatest (token : Z) (ticks : list TickData) (e' : Engine) : Prop :=
  exists l s tick,
    getState token e' = Some (l, s) /\
    map_get token (latestTicks ticks) = Some tick /\
    stBaselinePrice s = last_price tick.

End EngineScenarios.


(** * Further functions of the same source files *)

(** ** src/utils/market-timings.ts *)

Module MarketHours.
Import JsString JsDate MarketTimings OracleScenarios.

(** [isWithinTradingHours] *)
Definition isWithinTradingHours (marketType : MarketType) (d : HostDate) : bool :=
  isOpen (getCurrentMarketStatus marketType d).

(** What [getTimeUntilMarketClose] reads besides the status: the hour and
    the minute of the exchange wall clock. *)
Record WallClock := {
  getHours : Z;
  getMinutes : Z
}.

(** [getTimeUntilMarketClose]: [None] is [null]; the number is [None] when
    it is NaN.  An empty [sessionEnd] counts as absent. *)
Definition getTimeUntilMarketClose (marketType : MarketType) (d : HostDate) (w : WallClock)
  : option (option Z) :=
  let status := getCurrentMarketStatus marketType d in
  if negb (isOpen status) then None
  else
    match sessionEnd status with
    | None | Some EmptyString => None
    | Some e =>
        let currentMinutes := getHours w * 60 + getMinutes w in
        match timeToMinutes e with
        | Some closeMinutes => Some (Some (Z.max 0 (closeMinutes - currentMinutes)))
        | None => Some None
        end
    end.

(** The last and the first session of a market in [MARKET_TIMINGS]. *)
Definition lastSession (marketType : MarketType) : MarketSession :=
  match postMarket (MARKET_TIMINGS marketType) with
  | Some s => s
  | None => normal (MARKET_TIMINGS marketType)
  end.

Definition firstSession (marketType : MarketType) : MarketSession :=
  match preMarket (MARKET_TIMINGS marketType) with
  | Some s => s
  | None => normal (MARKET_TIMINGS marketType)
  end.

(** Capital letters of the ASCII range. *)
Definition isUpper (c : ascii) : bool :=
  let n := nat_of_ascii c in (65 <=? n)%nat && (n <=? 90)%nat.

Fixpoint allUpper (s : string) : bool :=
  match s with
  | EmptyString => true
  | String c r => isUpper c && allUpper r
  end.

Fixpoint noUpper (s : string) : bool :=
  match s with
  | EmptyString => true
  | String c r => negb (isUpper c) && noUpper r
  end.

(** The minute of the day that [currentTime] shows. *)
Definition minuteOfDay (d : HostDate) : Z :=
  (epochMinutes d + IST_OFFSET + hostSkip d) mod 1440.

(** The wall clock that [getTimeUntilMarketClose] reads from a [Date] of
    its own, made as [istTime] is. *)
Definition wallClock (d : HostDate) : WallClock :=
  {| getHours := minuteOfDay d / 60; getMinutes := minuteOfDay d mod 60 |}.

(** Instants used below: Thursday 25 January 2024 in the morning, on a host
    in UTC; Thursday 18 April 2024 at 09:30 on a host in Sydney, ten hours
    ahead of UTC; Republic Day 2024 at 20:00 on a host in New York, five
    hours behind UTC. *)
Definition preOpen (hour minute : Z) : HostDate := atIst 2024 1 25 hour minute 0.
Definition inSydney : HostDate := atIst 2024 4 18 9 30 600.
Definition inNewYork : HostDate := atIst 2024 1 26 20 0 (-300).

End MarketHours.

(** ** src/hooks/use-tick-data.ts *)

Module FeedLifecycle.
Import JsString JsMath JsControl MarketTimings Tick TickFeed.

(** [calculateAverageDelay].  Delays are whole milliseconds or NaN; the
    quotient is the exact rational, where JavaScript rounds it to a double,
    and NaN as soon as one of the delays is. *)
Definition calculateAverageDelay (ticksArray : list TickData) : option Q :=
  match ticksArray with
  | [] => Some 0%Q
  | _ =>
      let recentTicks := Inactivity.lastN 50 ticksArray in
      let totalDelay := fold_left (fun sum tick => numAdd sum (delay tick)) recentTicks (Some 0) in
      option_map (fun total => (inject_Z total / inject_Z (Z.of_nat (length recentTicks)))%Q)
                 totalDelay
  end.


(** The trading symbol of a tick, as a field of the element it came from. *)
Definition symbolOf (tradingsymbol : option string) : RawSymbol :=
  match tradingsymbol with
  | Some s => SymbolString s
  | None => SymbolFalsy
  end.

(** The cleanup that the effect returns, run when the hook unmounts. *)
Definition cleanup (f : Feed) : Feed :=
  let f1 := match eventSourceRef f with Some es => closeSource es f | None => f end in
  let f2 := clearRef (freezeTimeoutRef f1) f1 in
  clearRef (reconnectTimeoutRef f2) f2.

(** The React state of the hook, as opposed to its refs and to the timers
    and sources of the browser. *)
Definition hookState (f : Feed) :=
  (ticks f, isConnected f, isFrozen f, lastTickTime f, totalTicks f, freezingIncidents f,
   alerts f, connectionStatus f, rawMessages f, debugInfo f).

Definition isMount (ev : Event) : bool :=
  match ev with Mount _ => true | _ => false end.



(** Two feeds hold the same refs, timers and sources. *)
Definition sameWiring (f f' : Feed) : Prop :=
  freezeTimeoutRef f' = freezeTimeoutRef f /\
  reconnectTimeoutRef f' = reconnectTimeoutRef f /\
  eventSourceRef f' = eventSourceRef f /\
  timers f' = timers f /\
  sources f' = sources f.

(** The timers and sources are accounted for by the refs: a pending freeze
    watchdog or reconnect is the one its ref holds, and a source that is not
    closed is the current one. *)
Record Tidy (f : Feed) : Prop := {
  td_freeze : forall id t, timers f !! id = Some t -> kind t = FreezeWatchdog ->
                           freezeTimeoutRef f = Some id;
  td_reconnect : forall id t, timers f !! id = Some t -> kind t = Reconnect ->
                              reconnectTimeoutRef f = Some id;
  td_live : forall es s, sources f !! es = Some s -> readyState s <> CLOSED ->
                         eventSourceRef f = Some es
}.

(** Nothing is left that could call back into the hook. *)
Record Quiet (f : Feed) : Prop := {
  qt_sources : forall es s, sources f !! es = Some s -> readyState s = CLOSED;
  qt_timers : forall id t, timers f !! id = Some t -> exists es, kind t = ConnectionTimeout es
}.

(** The timers of a kind that are pending. *)
Definition pending (k : TimerKind -> bool) (f : Feed) : list nat :=
  map fst (List.filter (fun p => k (kind (snd p))) (map_to_list (timers f))).

Definition isFreeze (k : TimerKind) : bool :=
  match k with FreezeWatchdog => true | _ => false end.
Definition isReconnect (k : TimerKind) : bool :=
  match k with Reconnect => true | _ => false end.

(** The token of an entry that yields a tick. *)
Definition entryToken (e : Entry) : option Z :=
  match e with
  | NotAnObject => None
  | Object r => truthyZ (raw_instrument_token r)
  end.

(** The entry makes [isMarketOpen] throw: it carries a token and, as its
    trading symbol, a truthy value that is not a string. *)
Definition entryThrows (e : Entry) : bool :=
  match e with
  | NotAnObject => false
  | Object r =>
      match truthyZ (raw_instrument_token r), raw_tradingsymbol r with
      | Some _, SymbolOther => true
      | _, _ => false
      end
  end.

(** The entries that come before the first one that throws. *)
Fixpoint beforeThrow (entries : list Entry) : list Entry :=
  match entries with
  | [] => []
  | e :: r => if entryThrows e then [] else e :: beforeThrow r
  end.


(** Connected, one tick received. *)
Definition streaming : Feed :=
  run [Mount 0; Opened 0%nat 10; TickEvent 0%nat FeedScenarios.firstTick 20] init.

(** Fifty ticks without delay, and a newer one that came five seconds late. *)
Definition lateTick : TickData :=
  {| instrument_token := 7; last_price := 100; volume := 0; average_price := 100;
     last_quantity := 0; timestamp := Some 6000; delay := Some 5000; receivedAt := 6000;
     tradingsymbol := None |}.
Definition fiftyTicks : list TickData := repeat (EngineScenarios.priceTick 7 100 0) 50.


(** The first connection attempt is under way. *)
Definition mounted : Feed := run [Mount 0] init.

(** A message that is not JSON. *)
Definition garbled : Message := {| rawData := "oops"; parsed := SyntaxError |}.

End FeedLifecycle.

(** ** src/hooks/use-upstox-tick-data.ts *)

Module UpstoxLifecycle.
Import JsMath JsControl UpstoxFeed.

Definition isMount (ev : Event) : bool :=
  match ev with Mount => true | _ => false end.

(** The key of an entry of [payload.feeds] that yields a tick. *)
Definition entryKey (e : string * Item) : option string :=
  match ltpc (snd e) with
  | Some l => match truthyQ (ltp l) with Some _ => Some (fst e) | None => None end
  | None => None
  end.

(** Reading the entry throws: it has a price, and candles without [at]. *)
Definition entryThrows (e : string * Item) : bool :=
  match entryKey e, ohlc (snd e) with
  | Some _, OhlcNoAt => true
  | _, _ => false
  end.

(** A live feed whose second entry has an object for candles. *)
Definition brokenFeed : Payload :=
  LiveFeed [("NSE_EQ|X", UpstoxScenarios.quote 100 1000);
            ("NSE_EQ|Y", UpstoxScenarios.quoteWithoutCandles 200 1000)].

Definition isFreeze (k : TimerKind) : bool :=
  match k with FreezeWatchdog => true | Reconnect => false end.

(** The freeze watchdogs that are pending. *)
Definition pendingFreeze (f : Feed) : list nat :=
  map fst (List.filter (fun p => isFreeze (kind (snd p))) (map_to_list (timers f))).

(** A pending freeze watchdog is the one the ref holds. *)
Definition Watched (f : Feed) : Prop :=
  forall id t, timers f !! id = Some t -> kind t = FreezeWatchdog -> freezeTimer f = Some id.

(** A feed that received a quote, and the same feed after an error. *)
Definition quoted : Feed :=
  run [Mount; Opened 0; MessageEvent (LiveFeed [("NSE_EQ|X", UpstoxScenarios.quote 100 1000)]) 1000]
      init.
Definition failedFeed : Feed := onerror 2000 quoted.

(** What arrives afterwards: the reconnect expires, and the source made then
    opens and delivers a quote. *)
Definition afterFailure : list Event :=
  [TimerFired 3%nat 7000; Opened 7100;
   MessageEvent (LiveFeed [("NSE_EQ|X", UpstoxScenarios.quote 101 7200)]) 7200].

End UpstoxLifecycle.

(** ** The inactivity-alert hook *)

Module EngineFurther.
Import Tick Inactivity EngineInvariant EngineScenarios.

(** The monitor of the instrument is kept as it is, timer handle apart. *)
Definition suspended (st s' : SymbolState) : Prop :=
  timerId s' = None /\ stBaselinePrice s' = stBaselinePrice st /\
  priceHistory s' = priceHistory st.

(** The monitor that the first tick of [monitored] created. *)
Definition firstMonitor : SymbolState :=
  {| stBaselinePrice := 100; timerId := Some 1%nat; priceHistory := [(100%Q, 0)];
     lastMarketStatusCheck := 0; wasMarketOpen := true; oscillator := None;
     gainNode := None |}.

(** Every object of the store has a price history of one to a hundred
    entries. *)
Definition HistoryBounded (e : Engine) : Prop :=
  forall l s, heap e !! l = Some s -> (1 <= length (priceHistory s) <= 100)%nat.

(** An instrument that is flagged inactive has a monitor and no timer. *)
Definition Flagged (e : Engine) : Prop :=
  forall k, k ∈ inactiveSymbols e ->
    is_Some (symbolStates e !! k) /\
    forall id t, timers e !! id = Some t -> instrument_token (tmTick t) <> k.

(** What the per-tick body does to the inactive set and the timers: it
    flags nothing; and it arms no timer, or clears the flag of the
    instrument if that was rendered as inactive, or creates the monitor. *)
Definition tickOutcome (snapshot : gset Z) (k : Z) (e e' : Engine) : Prop :=
  (forall k', k' ∈ inactiveSymbols e' -> k' ∈ inactiveSymbols e) /\
  ((forall id t, timers e' !! id = Some t -> timers e !! id = Some t) \/
   (k ∈ snapshot -> k ∉ inactiveSymbols e') \/
   symbolStates e !! k = None).

(** Instrument 265 is configured, no tick has arrived. *)
Definition configured : Engine := run [UpdateConfiguration 265 alwaysOn] init.

End EngineFurther.

(** * Properties *)

(** ** Session oracle *)

Section MarketTimingsFacts.
Import JsDate MarketTimings OracleScenarios.

Lemma weekend_test (ist : IstTime) :
  isWeekend ist <-> (dayOfWeek ist =? 0) || (dayOfWeek ist =? 6) = true.
Proof.
  unfold isWeekend. rewrite orb_true_iff, !Z.eqb_eq. reflexivity.
Qed.

Lemma holiday_test (ist : IstTime) :
  isHoliday ist <-> existsb (String.eqb (currentDate ist)) MARKET_HOLIDAYS_2024 = true.
Proof.
  unfold isHoliday. rewrite existsb_exists. split.
  - intros H. exists (currentDate ist). split; [exact H | apply String.eqb_refl].
  - intros (d & Hd & Heq). apply String.eqb_eq in Heq. subst d. exact Hd.
Qed.

(** The two early exits of [getCurrentMarketStatus], in source order. *)
Lemma status_on_weekend (m : MarketType) (ist : IstTime) :
  isWeekend ist ->
  statusOfReading m ist =
    {| isOpen := false; session := "Closed"; reason := "Weekend";
       nextOpenTime := Some (getNextOpenTime m); sessionEnd := None |}.
Proof.
  intros H. apply weekend_test in H. unfold statusOfReading. rewrite H. reflexivity.
Qed.

Lemma status_on_weekday_holiday (m : MarketType) (ist : IstTime) :
  ~ isWeekend ist -> isHoliday ist ->
  statusOfReading m ist =
    {| isOpen := false; session := "Closed"; reason := "Market Holiday";
       nextOpenTime := Some (getNextOpenTime m); sessionEnd := None |}.
Proof.
  intros Hw Hh. apply holiday_test in Hh. rewrite weekend_test in Hw.
  apply not_true_is_false in Hw.
  unfold statusOfReading. rewrite Hw, Hh. reflexivity.
Qed.

(** What the reading is, for an instant and a host. *)
Lemma reading_weekend (d : HostDate) :
  hostSkip d = 0 -> (isWeekend (istTime d) <-> fallsOnWeekend d).
Proof.
  intros Hs. unfold isWeekend, fallsOnWeekend, istDay, istWall. cbn [istTime dayOfWeek].
  rewrite Hs, Z.add_0_r. reflexivity.
Qed.

Lemma reading_date (d : HostDate) :
  sameDay d -> currentDate (istTime d) = dateOf d.
Proof.
  intros [Hs Hd]. unfold dateOf. cbn [istTime currentDate].
  rewrite Hs, Z.add_0_r. fold (istWall d). rewrite Hd. reflexivity.
Qed.

Lemma sameDay_utc (d : HostDate) : hostSkip d = 0 -> hostOffset d = 0 -> sameDay d.
Proof.
  intros Hs Ho. split; [exact Hs |]. rewrite Ho, Z.sub_0_r. reflexivity.
Qed.




End MarketTimingsFacts.


(** ** Primary feed connector *)

Section TickFeedFacts.
Import JsMath JsControl Tick TickFeed FeedScenarios FeedLifecycle.

Lemma truthyZ_Some (a : option Z) (z : Z) :
  truthyZ a = Some z -> a = Some z /\ z <> 0.
Proof.
  unfold truthyZ. destruct a as [x |]; [| discriminate].
  destruct (x =? 0) eqn:E; [discriminate |].
  intros [= ->]. apply Z.eqb_neq in E. auto.
Qed.

Lemma truthyZ_None (a : option Z) :
  truthyZ a = None -> a = None \/ a = Some 0.
Proof.
  unfold truthyZ. destruct a as [x |]; [| auto].
  destruct (x =? 0) eqn:E; [| discriminate].
  apply Z.eqb_eq in E. subst x. auto.
Qed.

Lemma In_take {A} (x : A) (n : nat) (l : list A) : In x (take n l) -> In x l.
Proof.
  revert l. induction n as [| n IH]; intros [| y l]; simpl; try tauto.
  intros [-> | H]; [left; reflexivity | right; apply IH, H].
Qed.

(** An invariant of the accumulator of a left fold. *)
Lemma fold_left_preserves {A B} (P : A -> Prop) (step : A -> B -> A) (l : list B) :
  (forall a b, P a -> P (step a b)) -> forall a, P a -> P (fold_left step l a).
Proof.
  intros Hstep. induction l as [| b l IH]; intros a Ha; simpl; [exact Ha |].
  apply IH, Hstep, Ha.
Qed.

(** A debug line that reports no problem adds no report. *)
Lemma addDebugInfo_diagnostic (m0 m : DebugMessage) (f : Feed) :
  isDiagnostic m0 = false ->
  In m (debugInfo (addDebugInfo m0 f)) -> isDiagnostic m = true -> In m (debugInfo f).
Proof.
  intros H0 [<- | Hin] Hd; [congruence |]. eapply In_take, Hin.
Qed.

(** [for ... of]: what every step keeps, the loop keeps, however it ends. *)
Lemma forOf_preserves {A B} (P : A -> Prop) (body : A -> B -> Outcome A) (l : list B) :
  (forall a b, P a -> match body a b with Normal a' => P a' | Thrown a' => P a' end) ->
  forall a, P a -> match forOf body l a with Normal a' => P a' | Thrown a' => P a' end.
Proof.
  intros Hstep. induction l as [| b l IH]; intros a Ha; cbn [forOf]; [exact Ha |].
  specialize (Hstep a b Ha). destruct (body a b) as [a' | a']; [apply IH, Hstep | exact Hstep].
Qed.

(** Whether the call of [isMarketOpen] returns does not depend on the
    clock: it throws exactly when the trading symbol is a truthy value that
    is not a string. *)
Lemma isMarketOpen_call_spec (token : Z) (sym : RawSymbol) (d : MarketTimings.HostDate) :
  match isMarketOpen_call token sym with
  | Normal _ => exists b, isMarketOpen token sym d = Some b
  | Thrown _ => isMarketOpen token sym d = None /\ sym = SymbolOther
  end.
Proof.
  unfold isMarketOpen_call, isMarketOpen.
  destruct (getInstrumentName token sym) as [name |] eqn:E; [eexists; reflexivity |].
  split; [reflexivity |]. unfold getInstrumentName in E.
  destruct sym as [| [| c r] |]; try discriminate E; try reflexivity;
    destruct (tokenMap token); discriminate E.
Qed.

Lemma isMarketOpen_call_other (token : Z) : isMarketOpen_call token SymbolOther = Thrown tt.
Proof. reflexivity. Qed.

Lemma isMarketOpen_call_string (token : Z) (sym : RawSymbol) :
  sym <> SymbolOther -> isMarketOpen_call token sym = Normal tt.
Proof.
  intros H. unfold isMarketOpen_call, getInstrumentName.
  destruct sym as [| [| c r] |]; try reflexivity; try (destruct (tokenMap token); reflexivity).
  congruence.
Qed.

(** What one entry of the array does: it throws and leaves everything as it
    is; or it is passed over; or one tick is appended, whose timestamp is
    that of the element or the time of receipt, whose delay is measured
    against the table and clamped at zero, and the table records the
    timestamp. *)
Lemma processEntry_spec (now : Z) (acc : list TickData) (f : Feed) (entry : Entry) :
  (entryThrows entry = true /\ processEntry now (acc, f) entry = Thrown (acc, f)) \/
  (entryThrows entry = false /\ entryToken entry = None /\
   processEntry now (acc, f) entry = Normal (acc, f)) \/
  (entryThrows entry = false /\
   exists r t f', entry = Object r /\
    processEntry now (acc, f) entry = Normal ((acc ++ [t])%list, f') /\
    entryToken entry = Some (instrument_token t) /\
    instrument_token t <> 0 /\
    receivedAt t = now /\
    timestamp t = match raw_timestamp r with Some c => c | None => Some now end /\
    delay t = clampedDelay (lastTickTimestamps f !! instrument_token t) (timestamp t) /\
    lastTickTimestamps f' = <[instrument_token t := timestamp t]> (lastTickTimestamps f) /\
    control f' = control f /\
    alerts f' = alerts f /\
    ticks f' = ticks f /\
    (forall m, In m (debugInfo f') -> isDiagnostic m = true -> In m (debugInfo f))).
Proof.
  unfold processEntry, entryThrows, entryToken. destruct entry as [| r].
  - right. left. auto.
  - destruct (truthyZ (raw_instrument_token r)) as [token |] eqn:Htok; [| right; left; auto].
    apply truthyZ_Some in Htok as [_ Hne].
    destruct (raw_tradingsymbol r) as [| s |] eqn:Hsym.
    2: assert (Hcall : isMarketOpen_call token (SymbolString s) = Normal tt)
         by (apply isMarketOpen_call_string; discriminate).
    1: assert (Hcall : isMarketOpen_call token SymbolFalsy = Normal tt)
         by (apply isMarketOpen_call_string; discriminate).
    3: { left. split; [reflexivity |]. rewrite isMarketOpen_call_other. reflexivity. }
    all: right; right; split; [reflexivity |]; rewrite Hcall;
      cbn [instrument_token]; apply Z.eqb_neq in Hne; rewrite Hne; cbn [negb];
      apply Z.eqb_neq in Hne;
      exists r; eexists; eexists; split; [reflexivity |];
      cbn [instrument_token receivedAt delay timestamp];
      split; [reflexivity |]; split; [reflexivity |];
      split; [exact Hne |]; split; [reflexivity |]; split; [reflexivity |];
      (split; [cbn [instrument_token timestamp delay]; unfold clampedDelay;
               destruct (truthyNum (lastTickTimestamps f !! token)); reflexivity |]);
      destruct ((token =? 265) || (token =? 408065));
      (split; [reflexivity |]); (split; [reflexivity |]); (split; [reflexivity |]);
      (split; [reflexivity |]);
      first [ intros m; apply addDebugInfo_diagnostic; reflexivity | cbn; auto ].
Qed.

(** A delay computed by the primary connector is NaN or not negative. *)
Lemma clampedDelay_nonneg (last : option (option Z)) (current : option Z) (n : Z) :
  clampedDelay last current = Some n -> 0 <= n.
Proof.
  unfold clampedDelay, max0, numSub.
  destruct (truthyNum last) as [l |]; [| intros [= <-]; lia].
  destruct current as [c |]; [| discriminate]. cbn. intros [= <-]. lia.
Qed.


(** The loop over the array, however it ends: the ticks gathered have a
    delay that is NaN or not negative, and nothing but the table of last
    timestamps and the debug lines changes. *)
Lemma processEntries_spec (now : Z) (entries : list Entry) (f : Feed) :
  match forOf (processEntry now) entries ([], f) with
  | Normal r | Thrown r =>
      (forall t, In t (fst r) ->
                 (forall n, delay t = Some n -> 0 <= n) /\ instrument_token t <> 0 /\
                 receivedAt t = now) /\
      control (snd r) = control f /\
      alerts (snd r) = alerts f /\
      ticks (snd r) = ticks f /\
      (forall m, In m (debugInfo (snd r)) -> isDiagnostic m = true -> In m (debugInfo f))
  end.
Proof.
  pose (P := fun a : list TickData * Feed =>
      (forall t, In t (fst a) ->
                 (forall n, delay t = Some n -> 0 <= n) /\ instrument_token t <> 0 /\
                 receivedAt t = now) /\
      control (snd a) = control f /\
      alerts (snd a) = alerts f /\
      ticks (snd a) = ticks f /\
      (forall m, In m (debugInfo (snd a)) -> isDiagnostic m = true -> In m (debugInfo f))).
  assert (H : match forOf (processEntry now) entries ([], f) with
              | Normal r => P r | Thrown r => P r end).
  { apply forOf_preserves.
    - intros [acc g] entry (Hd & Hc & Ha & Ht & Hm).
      destruct (processEntry_spec now acc g entry)
        as [[_ ->] | [(_ & _ & ->) | (_ & r & t & g' & _ & -> & _ & Hne & Hrec & _ & Hdel & _
                                      & Hc' & Ha' & Ht' & Hm')]].
      + unfold P. auto.
      + unfold P. auto.
      + unfold P. cbn [fst snd] in *. split; [| split; [| split; [| split]]].
        * intros t' Hin. apply in_app_or in Hin as [Hin | [<- | []]]; [auto |].
          split; [| split; [exact Hne | exact Hrec]].
          intros n Hn. rewrite Hdel in Hn. eapply clampedDelay_nonneg, Hn.
        * congruence.
        * congruence.
        * congruence.
        * auto.
    - unfold P. cbn. repeat split; tauto. }
  destruct (forOf (processEntry now) entries ([], f)); exact H.
Qed.

(** The tokens of the ticks gathered are those of the entries that come
    before the first one that throws; the loop ends normally when none
    does. *)
Lemma processEntries_tokens (now : Z) (entries : list Entry) (acc : list TickData) (f : Feed) :
  match forOf (processEntry now) entries (acc, f) with
  | Normal r =>
      existsb entryThrows entries = false /\
      map instrument_token (fst r) =
        (map instrument_token acc ++ omap entryToken (beforeThrow entries))%list
  | Thrown r =>
      existsb entryThrows entries = true /\
      map instrument_token (fst r) =
        (map instrument_token acc ++ omap entryToken (beforeThrow entries))%list
  end.
Proof.
  revert acc f. induction entries as [| e entries IH]; intros acc f.
  - cbn. rewrite app_nil_r. auto.
  - cbn [forOf existsb beforeThrow].
    destruct (processEntry_spec now acc f e)
      as [[Hth ->] | [(Hth & Htok & ->) | (Hth & r & t & f' & _ & -> & Htok & _)]];
      rewrite Hth; cbn [orb].
    + cbn. rewrite app_nil_r. auto.
    + specialize (IH acc f).
      change (omap entryToken (e :: beforeThrow entries))
        with (match entryToken e with
              | Some y => y :: omap entryToken (beforeThrow entries)
              | None => omap entryToken (beforeThrow entries)
              end).
      rewrite Htok. exact IH.
    + specialize (IH (acc ++ [t])%list f').
      change (omap entryToken (e :: beforeThrow entries))
        with (match entryToken e with
              | Some y => y :: omap entryToken (beforeThrow entries)
              | None => omap entryToken (beforeThrow entries)
              end).
      rewrite Htok. rewrite map_app, <- app_assoc in IH. exact IH.
Qed.




Lemma control_addDebugInfo (m : DebugMessage) (f : Feed) :
  control (addDebugInfo m f) = control f.
Proof. reflexivity. Qed.

Lemma control_addAlert t m s now (f : Feed) :
  control (addAlert t m s now f) = control f.
Proof. reflexivity. Qed.

(** [processTickData] leaves timers, handles and the frozen flag alone. *)
Lemma processTickData_control (msg : Message) (ev : string) (now : Z) (f : Feed) :
  control (snd (processTickData msg ev now f)) = control f.
Proof.
  unfold processTickData. destruct (parsed msg) as [| | | n | entries]; try reflexivity.
  set (f2 := addDebugInfo _ _).
  pose proof (processEntries_spec now entries f2) as H.
  destruct (forOf (processEntry now) entries ([], f2)) as [[pt f3] | [pt f3]];
    destruct H as (_ & Hc & _); cbn [snd] in *.
  - unfold reportProcessed. destruct pt; rewrite ?control_addDebugInfo, Hc; reflexivity.
  - unfold dataError. rewrite control_addAlert, control_addDebugInfo, Hc. reflexivity.
Qed.


(** [processTickData] does not touch the list of ticks. *)
Lemma processTickData_ticks (msg : Message) (ev : string) (now : Z) (f : Feed) :
  ticks (snd (processTickData msg ev now f)) = ticks f.
Proof.
  unfold processTickData. destruct (parsed msg) as [| | | n | entries]; try reflexivity.
  set (f2 := addDebugInfo _ _).
  pose proof (processEntries_spec now entries f2) as H.
  destruct (forOf (processEntry now) entries ([], f2)) as [[pt f3] | [pt f3]];
    destruct H as (_ & _ & _ & Ht & _); cbn [snd] in *.
  - unfold reportProcessed. destruct pt; cbn; rewrite Ht; reflexivity.
  - cbn. rewrite Ht. reflexivity.
Qed.

(** An array none of whose elements throws is never reported: no alert is
    raised and no debug line that reports a problem is written; the line of
    the [else] branch "Skipped invalid tick" cannot be produced. *)
Lemma processTickData_array_silent (msg : Message) (ev : string) (now : Z) (f : Feed)
    (entries : list Entry) :
  parsed msg = JsonArray entries -> existsb entryThrows entries = false ->
  alerts (snd (processTickData msg ev now f)) = alerts f /\
  (forall m, In m (debugInfo (snd (processTickData msg ev now f))) ->
             isDiagnostic m = true -> In m (debugInfo f)).
Proof.
  intros Hp Hnt. unfold processTickData. rewrite Hp.
  set (f2 := addDebugInfo (DbgParsed _) _).
  pose proof (processEntries_spec now entries f2) as H.
  pose proof (processEntries_tokens now entries [] f2) as Htk.
  destruct (forOf (processEntry now) entries ([], f2)) as [[pt f3] | [pt f3]].
  2: { destruct Htk as [Htk _]. congruence. }
  destruct H as (_ & _ & Ha & _ & Hm). cbn [snd] in *.
  assert (Hbase : forall m, In m (debugInfo f2) -> isDiagnostic m = true -> In m (debugInfo f)).
  { subst f2. intros m Hin Hd.
    apply addDebugInfo_diagnostic in Hin; [| reflexivity | exact Hd].
    change (In m (debugInfo (addDebugInfo (DbgProcessing ev (String.length (rawData msg))) f)))
      in Hin.
    apply addDebugInfo_diagnostic in Hin; [exact Hin | reflexivity | exact Hd]. }
  unfold reportProcessed. destruct pt as [| t pt].
  - split; [rewrite Ha; reflexivity | intros m Hin Hd; apply Hbase; auto].
  - split; [cbn; rewrite Ha; reflexivity |].
    intros m Hin Hd. apply addDebugInfo_diagnostic in Hin; [| reflexivity | exact Hd].
    apply Hbase; auto.
Qed.

(** C9, at the failing input: of the three entries of [mixedBatch] the two
    ticks are emitted (tokens 11 and 12) and the entry without token is
    dropped, but no alert is raised and the debug log records only that two
    ticks were processed: nothing is recorded for the offending entry. *)
Theorem C9_offending_entry_not_reported :
  map instrument_token (fst (processTickData mixedBatch "tick" 50 init)) = [11; 12] /\
  alerts (snd (processTickData mixedBatch "tick" 50 init)) = [] /\
  debugInfo (snd (processTickData mixedBatch "tick" 50 init)) =
    [DbgProcessed 2 2; DbgParsed (Some 3%nat); DbgProcessing "tick" 18].
Proof. vm_compute. repeat split; reflexivity. Qed.

(** What the reconnect delay is after [n] attempts. *)
Lemma reconnectDelay_three : reconnectDelay 3 = 20000%Q.
Proof. reflexivity. Qed.



Lemma next_timer_connect (now : Z) (f : Feed) :
  next_timer (connectToSSE now f) = S (next_timer f).
Proof.
  unfold connectToSSE. destruct (eventSourceRef f) as [es |]; reflexivity.
Qed.






End TickFeedFacts.


(** ** Upstox feed connector *)

Section UpstoxFeedFacts.
Import JsMath JsControl UpstoxFeed UpstoxScenarios UpstoxLifecycle.

(** What one entry of the feed does: it is passed over; or the table is
    written and reading the candles throws; or the table is written and one
    tick is appended, whose delay is the signed difference to the table
    entry. *)
Lemma processFeed_spec (now : Z) (acc : list UpstoxTickData) (f : Feed)
    (entry : string * Item) :
  (entryKey entry = None /\ processFeed now (acc, f) entry = Normal (acc, f)) \/
  exists l ts f',
    ltpc (snd entry) = Some l /\
    entryKey entry = Some (fst entry) /\
    ts = match ltt l with Some t => t | None => Some now end /\
    lastTickForInstrument f' = <[fst entry := ts]> (lastTickForInstrument f) /\
    control f' = control f /\ alerts f' = alerts f /\ ticks f' = ticks f /\
    ((entryThrows entry = true /\ processFeed now (acc, f) entry = Thrown (acc, f')) \/
     (entryThrows entry = false /\
      exists t, processFeed now (acc, f) entry = Normal ((acc ++ [t])%list, f') /\
        instrument_token t = fst entry /\
        timestamp t = ts /\
        receivedAt t = now /\
        delay t = FeedScenarios.signedDelay (lastTickForInstrument f !! fst entry) ts)).
Proof.
  unfold processFeed, entryThrows, entryKey. destruct entry as [key item]. cbn [fst snd].
  destruct (ltpc item) as [l |]; [| left; auto].
  destruct (truthyQ (ltp l)) as [price |]; [| left; auto].
  right. exists l, (match ltt l with Some t => t | None => Some now end),
    (with_refs (listening f) (freezeTimer f)
       (<[key := match ltt l with Some t => t | None => Some now end]>
          (lastTickForInstrument f)) f).
  split; [reflexivity |]. split; [reflexivity |]. split; [reflexivity |].
  destruct (ohlc item) as [| v |].
  - split; [reflexivity |]. split; [reflexivity |]. split; [reflexivity |].
    split; [reflexivity |]. right. split; [reflexivity |].
    eexists. split; [reflexivity |]. cbn [instrument_token timestamp receivedAt delay].
    repeat split.
  - split; [reflexivity |]. split; [reflexivity |]. split; [reflexivity |].
    split; [reflexivity |]. right. split; [reflexivity |].
    eexists. split; [reflexivity |]. cbn [instrument_token timestamp receivedAt delay].
    repeat split.
  - split; [reflexivity |]. split; [reflexivity |]. split; [reflexivity |].
    split; [reflexivity |]. left. split; reflexivity.
Qed.

Lemma processFeeds_control (now : Z) (feeds : list (string * Item)) (f : Feed) :
  match forOf (processFeed now) feeds ([], f) with
  | Normal r | Thrown r =>
      control (snd r) = control f /\ alerts (snd r) = alerts f /\ ticks (snd r) = ticks f
  end.
Proof.
  pose (P := fun a : list UpstoxTickData * Feed =>
               control (snd a) = control f /\ alerts (snd a) = alerts f /\
               ticks (snd a) = ticks f).
  assert (H : match forOf (processFeed now) feeds ([], f) with
              | Normal r => P r | Thrown r => P r end).
  { apply forOf_preserves; [| unfold P; auto].
    intros [acc g] entry (Hc & Ha & Ht).
    destruct (processFeed_spec now acc g entry)
      as [[_ ->] | (l & ts & g' & _ & _ & _ & _ & Hc' & Ha' & Ht'
                    & [[_ ->] | (_ & t & -> & _)])];
      unfold P; cbn [snd] in *; repeat split; congruence. }
  destruct (forOf (processFeed now) feeds ([], f)); exact H.
Qed.



End UpstoxFeedFacts.

(** ** Both connectors *)

Section ConnectorFacts.
Import JsMath.




(** The Upstox connector emits the signed difference: the stale quote gets
    a negative delay. *)
Lemma upstox_delay_can_be_negative :
  map UpstoxFeed.delay
      (UpstoxScenarios.newTicks UpstoxScenarios.staleQuote 2000 UpstoxScenarios.afterFirstQuote)
  = [Some (-600)].
Proof. vm_compute. reflexivity. Qed.




End ConnectorFacts.


(** ** Inactivity engine: the invariant and its preservation *)

Section EngineFacts.
Import JsMath MarketTimings Tick Inactivity EngineInvariant.

Ltac proj :=
  cbn [configurations alerts inactiveSymbols symbolStates heap next_loc timers next_timer
       audioContext playing next_node with_configurations with_alerts with_inactiveSymbols
       with_symbolStates with_heap with_next_loc with_timers with_audio update clearTimeout
       stBaselinePrice timerId priceHistory lastMarketStatusCheck wasMarketOpen oscillator
       gainNode set_baselinePrice set_timerId set_priceHistory set_lastMarketStatusCheck
       set_wasMarketOpen set_sound tmTick tmConfig tmState fireAt fst snd] in *.

Lemma Inv_init : Inv init.
Proof.
  constructor; cbn; intros; try rewrite lookup_empty in *; try discriminate; try reflexivity;
    set_solver.
Qed.

(** The invariant only reads the monitors, the store, the timers and the
    sounding oscillators. *)
Lemma Inv_ext (e e' : Engine) :
  symbolStates e' = symbolStates e -> heap e' = heap e -> next_loc e' = next_loc e ->
  timers e' = timers e -> next_timer e' = next_timer e -> playing e' = playing e ->
  Inv e -> Inv e'.
Proof.
  intros Hm Hh Hl Ht Hn Hp [I1 I2 I3 I4 I5 I6 I7].
  constructor; rewrite ?Hm, ?Hh, ?Hl, ?Ht, ?Hn, ?Hp; assumption.
Qed.

Lemma Inv_with_alerts a e : Inv e -> Inv (with_alerts a e).
Proof. apply Inv_ext; reflexivity. Qed.

Lemma Inv_with_inactiveSymbols i e : Inv e -> Inv (with_inactiveSymbols i e).
Proof. apply Inv_ext; reflexivity. Qed.

Lemma Inv_with_configurations c e : Inv e -> Inv (with_configurations c e).
Proof. apply Inv_ext; reflexivity. Qed.

Lemma Inv_removeInactive snap k e : Inv e -> Inv (removeInactive snap k e).
Proof. unfold removeInactive. destruct (decide _); [apply Inv_with_inactiveSymbols | auto]. Qed.

Lemma Inv_initAudio e : Inv e -> Inv (initAudio e).
Proof. apply Inv_ext; reflexivity. Qed.

(** Removing a timer keeps the invariant. *)
Lemma Inv_clearTimeout id e : Inv e -> Inv (clearTimeout id e).
Proof.
  intros [I1 I2 I3 I4 I5 I6 I7]. constructor; proj; auto.
  - intros id' t H. apply lookup_delete_Some in H as [_ H]. auto.
  - intros id' H. apply lookup_delete_None. right. auto.
  - intros id' t s H. apply lookup_delete_Some in H as [_ H]. eauto.
Qed.

Lemma Inv_clearTimerOf s e : Inv e -> Inv (clearTimerOf s e).
Proof. unfold clearTimerOf. destruct (timerId s); [apply Inv_clearTimeout | auto]. Qed.

(** Assignments that touch neither the handle, nor the oscillator, nor empty
    the history keep the invariant. *)
Lemma Inv_update l f e :
  (forall s, timerId (f s) = timerId s) ->
  (forall s, oscillator (f s) = oscillator s) ->
  (forall s, priceHistory s <> [] -> priceHistory (f s) <> []) ->
  Inv e -> Inv (update l f e).
Proof.
  intros Ht Ho Hh [I1 I2 I3 I4 I5 I6 I7]. constructor; proj; auto.
  - intros id t H. destruct (I1 id t H) as (Hm & s & Hs & Hid). split; [exact Hm |].
    destruct (decide (l = tmState t)) as [-> | Hne].
    + exists (f s). rewrite lookup_alter_eq, Hs. cbn. rewrite Ht. auto.
    + exists s. rewrite lookup_alter_ne by auto. auto.
  - intros l' H. rewrite lookup_alter. case_decide; [subst; rewrite I3 by auto |]; auto.
  - intros k l' H. apply I4 in H. rewrite lookup_alter.
    case_decide; [| exact H]. subst. destruct H as [s ->]. eexists. reflexivity.
  - intros o H. destruct (I6 o H) as (k & l' & s & Hk & Hs & Hos).
    destruct (decide (l' = l)) as [-> | Hne].
    + exists k, l, (f s). rewrite lookup_alter_eq, Hs. cbn. rewrite Ho. auto.
    + exists k, l', s. rewrite lookup_alter_ne by auto. auto.
  - intros id t s H. destruct (decide (l = tmState t)) as [-> | Hne].
    + rewrite lookup_alter_eq.
      destruct (heap e !! tmState t) as [s0 |] eqn:Hs0; cbn; [| discriminate].
      intros [= <-]. apply Hh. eapply I7; eauto.
    + rewrite lookup_alter_ne by auto. eauto.
Qed.

Lemma getState_Some k e l s :
  getState k e = Some (l, s) <-> symbolStates e !! k = Some l /\ heap e !! l = Some s.
Proof.
  unfold getState. destruct (symbolStates e !! k) as [l' |]; [| split; [discriminate | intros [[=] _]]].
  destruct (heap e !! l') as [s' |] eqn:Hs; split.
  - intros [= <- <-]. auto.
  - intros [[= ->] H]. congruence.
  - discriminate.
  - intros [[= ->] H]. congruence.
Qed.

Lemma stopAlertSound_cases k e :
  stopAlertSound k e = e \/
  exists l s o, symbolStates e !! k = Some l /\ heap e !! l = Some s /\ oscillator s = Some o /\
    stopAlertSound k e =
      update l (set_sound None None)
             (with_audio (audioContext e) (playing e ∖ {[o]}) (next_node e) e).
Proof.
  unfold stopAlertSound. destruct (getState k e) as [[l s] |] eqn:Hg; [| auto].
  apply getState_Some in Hg as [Hk Hs].
  destruct (oscillator s) as [o |] eqn:Ho; [| auto].
  right. exists l, s, o. auto.
Qed.

Lemma Inv_stopAlertSound k e : Inv e -> Inv (stopAlertSound k e).
Proof.
  intros HI. destruct (stopAlertSound_cases k e) as [-> | (l & s & o & Hk & Hs & Ho & ->)]; [auto |].
  destruct HI as [I1 I2 I3 I4 I5 I6 I7]. constructor; proj; auto.
  - intros id t H. destruct (I1 id t H) as (Hm & s' & Hs' & Hid). split; [exact Hm |].
    destruct (decide (l = tmState t)) as [-> | Hne].
    + eexists. rewrite lookup_alter_eq, Hs'. cbn. split; [reflexivity | exact Hid].
    + exists s'. rewrite lookup_alter_ne by auto. auto.
  - intros l' H. rewrite lookup_alter. case_decide; [subst; rewrite I3 by auto |]; auto.
  - intros k' l' H. apply I4 in H. rewrite lookup_alter.
    case_decide; [| exact H]. subst. destruct H as [s' ->]. eexists. reflexivity.
  - intros o' H. apply elem_of_difference in H as [H Hno].
    destruct (I6 o' H) as (k' & l' & s' & Hk' & Hs' & Hos).
    destruct (decide (l = l')) as [-> | Hne].
    + exfalso. apply Hno. rewrite Hs in Hs'. injection Hs' as <-.
      rewrite Ho in Hos. injection Hos as <-. set_solver.
    + exists k', l', s'. rewrite lookup_alter_ne by auto. auto.
  - intros id t s' H. destruct (decide (l = tmState t)) as [-> | Hne].
    + rewrite lookup_alter_eq.
      destruct (heap e !! tmState t) as [s0 |] eqn:Hs0; cbn; [| discriminate].
      intros [= <-]. cbn. eapply I7; eauto.
    + rewrite lookup_alter_ne by auto. eauto.
Qed.

(** What [stopAlertSound] leaves alone. *)
Lemma stopAlertSound_frame k e :
  configurations (stopAlertSound k e) = configurations e /\
  alerts (stopAlertSound k e) = alerts e /\
  inactiveSymbols (stopAlertSound k e) = inactiveSymbols e /\
  symbolStates (stopAlertSound k e) = symbolStates e /\
  timers (stopAlertSound k e) = timers e /\
  next_timer (stopAlertSound k e) = next_timer e /\
  next_loc (stopAlertSound k e) = next_loc e /\
  audioContext (stopAlertSound k e) = audioContext e /\
  next_node (stopAlertSound k e) = next_node e.
Proof.
  destruct (stopAlertSound_cases k e) as [-> | (l & s & o & _ & _ & _ & ->)];
    repeat split; reflexivity.
Qed.

(** On the store, [stopAlertSound] only touches the sound nodes of the
    monitor of [k]. *)
Lemma stopAlertSound_heap_other k e l :
  symbolStates e !! k <> Some l -> heap (stopAlertSound k e) !! l = heap e !! l.
Proof.
  intros Hne. destruct (stopAlertSound_cases k e) as [-> | (l' & s & o & Hk & _ & _ & ->)];
    [reflexivity |].
  proj. apply lookup_alter_ne. congruence.
Qed.

Lemma sameMonitor_refl s : sameMonitor s s.
Proof. repeat split. Qed.

Lemma sameMonitor_trans s1 s2 s3 : sameMonitor s1 s2 -> sameMonitor s2 s3 -> sameMonitor s1 s3.
Proof. unfold sameMonitor. intuition congruence. Qed.

Lemma monitorsKept_refl e : monitorsKept e e.
Proof. intros l. destruct (heap e !! l); [eauto using sameMonitor_refl | reflexivity]. Qed.

Lemma monitorsKept_trans e1 e2 e3 : monitorsKept e1 e2 -> monitorsKept e2 e3 -> monitorsKept e1 e3.
Proof.
  intros H12 H23 l. specialize (H12 l). specialize (H23 l).
  destruct (heap e1 !! l) as [s1 |].
  - destruct H12 as (s2 & Hs2 & H12). rewrite Hs2 in H23.
    destruct H23 as (s3 & Hs3 & H23). eauto using sameMonitor_trans.
  - rewrite H12 in H23. exact H23.
Qed.

Lemma stopAlertSound_monitorsKept k e : monitorsKept e (stopAlertSound k e).
Proof.
  destruct (stopAlertSound_cases k e) as [-> | (l' & s & o & Hk & Hs & _ & ->)];
    [apply monitorsKept_refl |].
  intros l. proj. rewrite lookup_alter. case_decide as Hl.
  - subst l'. rewrite Hs. cbn. eexists. split; [reflexivity |]. repeat split.
  - destruct (heap e !! l); [eauto using sameMonitor_refl | reflexivity].
Qed.

(** After [stopAlertSound] the monitor of [k] holds no oscillator, and the
    one it held no longer sounds. *)
Lemma stopAlertSound_silent k e l s' :
  symbolStates e !! k = Some l -> heap (stopAlertSound k e) !! l = Some s' ->
  oscillator s' = None.
Proof.
  intros Hk. unfold stopAlertSound, getState. rewrite Hk.
  destruct (heap e !! l) as [s |] eqn:Hs; [| congruence].
  destruct (oscillator s) as [o |] eqn:Ho.
  - proj. rewrite lookup_alter_eq, Hs. cbn. intros [= <-]. reflexivity.
  - rewrite Hs. intros [= <-]. exact Ho.
Qed.

Lemma stopAlertSound_playing k e :
  playing (stopAlertSound k e) =
    match getState k e with
    | Some (_, s) => match oscillator s with Some o => playing e ∖ {[o]} | None => playing e end
    | None => playing e
    end.
Proof.
  unfold stopAlertSound. destruct (getState k e) as [[l s] |]; [| reflexivity].
  destruct (oscillator s); reflexivity.
Qed.

Lemma Inv_playAlertSound k e l :
  symbolStates e !! k = Some l -> Inv e -> Inv (playAlertSound k e).
Proof.
  intros Hk HI. unfold playAlertSound. destruct (audioContext e); cbn [negb]; [| exact HI].
  pose proof (Inv_stopAlertSound k e HI) as HI1.
  pose proof (stopAlertSound_frame k e) as (_ & _ & _ & Hm & _).
  pose proof (stopAlertSound_silent k e l) as Hsil. specialize (Hsil).
  set (e1 := stopAlertSound k e) in *. proj. rewrite Hm, Hk.
  destruct HI1 as [I1 I2 I3 I4 I5 I6 I7]. rewrite Hm in *.
  constructor; proj; rewrite ?Hm; auto.
  - intros id t H. destruct (I1 id t H) as (Hmt & s' & Hs' & Hid). split; [exact Hmt |].
    destruct (decide (l = tmState t)) as [-> | Hne].
    + eexists. rewrite lookup_alter_eq, Hs'. cbn. split; [reflexivity | exact Hid].
    + exists s'. rewrite lookup_alter_ne by auto. auto.
  - intros l' H. rewrite lookup_alter. case_decide; [subst; rewrite I3 by auto |]; auto.
  - intros k' l' H. apply I4 in H. rewrite lookup_alter.
    case_decide; [| exact H]. subst. destruct H as [s' ->]. eexists. reflexivity.
  - intros o' H. apply elem_of_union in H as [H | H].
    + apply elem_of_singleton in H. subst o'.
      destruct (I4 k l Hk) as [s1 Hs1].
      exists k, l, (set_sound (Some (next_node e1)) (Some (S (next_node e1))) s1).
      rewrite lookup_alter_eq, Hs1. auto.
    + destruct (I6 o' H) as (k' & l' & s' & Hk' & Hs' & Hos).
      destruct (decide (l = l')) as [-> | Hne].
      * rewrite (Hsil s' Hk Hs') in Hos. discriminate Hos.
      * exists k', l', s'. rewrite lookup_alter_ne by auto. auto.
  - intros id t s' H. destruct (decide (l = tmState t)) as [-> | Hne].
    + rewrite lookup_alter_eq.
      destruct (heap e1 !! tmState t) as [s0 |] eqn:Hs0; cbn; [| discriminate].
      intros [= <-]. cbn. eapply I7; eauto.
    + rewrite lookup_alter_ne by auto. eauto.
Qed.

(** Cancelling the timer of the object at [l] and forgetting its handle. *)
Lemma Inv_cancelTimer l e : Inv e -> Inv (cancelTimer l e).
Proof.
  intros HI. unfold cancelTimer. destruct (heap e !! l) as [st |] eqn:Hst; [| exact HI].
  destruct (timerId st) as [old |] eqn:Hold; [| exact HI].
  destruct HI as [I1 I2 I3 I4 I5 I6 I7]. constructor; proj; auto.
  - intros id t H. apply lookup_delete_Some in H as [Hid H].
    destruct (I1 id t H) as (Hm & s & Hs & Hsid). split; [exact Hm |].
    destruct (decide (l = tmState t)) as [-> | Hne].
    + exfalso. rewrite Hst in Hs. injection Hs as <-. congruence.
    + exists s. rewrite lookup_alter_ne by auto. auto.
  - intros id H. apply lookup_delete_None. auto.
  - intros l' H. rewrite lookup_alter. case_decide; [subst; rewrite I3 by auto |]; auto.
  - intros k l' H. apply I4 in H. rewrite lookup_alter.
    case_decide; [| exact H]. subst. destruct H as [s' ->]. eexists. reflexivity.
  - intros o H. destruct (I6 o H) as (k & l' & s & Hk & Hs & Hos).
    destruct (decide (l = l')) as [-> | Hne].
    + exists k, l', (set_timerId None s). rewrite lookup_alter_eq, Hs. auto.
    + exists k, l', s. rewrite lookup_alter_ne by auto. auto.
  - intros id t s H. apply lookup_delete_Some in H as [Hid H].
    destruct (I1 id t H) as (Hm & s0 & Hs0 & Hsid).
    destruct (decide (l = tmState t)) as [-> | Hne].
    + exfalso. rewrite Hst in Hs0. injection Hs0 as <-. congruence.
    + rewrite lookup_alter_ne by auto. eauto.
Qed.

Lemma lookup_alter2 (f g : SymbolState -> SymbolState) (l k : nat) (h : gmap nat SymbolState) :
  alter f l (alter g l h) !! k = alter (fun s => f (g s)) l h !! k.
Proof.
  destruct (decide (l = k)) as [-> | Hne].
  - rewrite !lookup_alter_eq. destruct (h !! k); reflexivity.
  - rewrite !lookup_alter_ne by exact Hne. reflexivity.
Qed.

(** Arming the timer of the monitor at [l]: the pending one is cancelled
    first, so the new handle is the only one of the instrument. *)
Lemma Inv_resetInactivityTimer tick config l clk e :
  symbolStates e !! instrument_token tick = Some l ->
  Inv e -> Inv (resetInactivityTimer tick config l clk e).
Proof.
  intros Hk HI. unfold resetInactivityTimer.
  destruct (heap e !! l) as [st |] eqn:Hst; [| exact HI].
  destruct HI as [I1 I2 I3 I4 I5 I6 I7].
  assert (Hold : forall id t, timers (clearTimerOf st e) !! id = Some t ->
                 timers e !! id = Some t /\ tmState t <> l).
  { intros id t H. unfold clearTimerOf in H. destruct (timerId st) as [old |] eqn:Hold.
    - proj. apply lookup_delete_Some in H as [Hne H]. split; [exact H |].
      intros Heq. destruct (I1 id t H) as (_ & s & Hs & Hid). rewrite Heq in Hs. congruence.
    - split; [exact H |].
      intros Heq. destruct (I1 id t H) as (_ & s & Hs & Hid). rewrite Heq in Hs. congruence. }
  assert (Hnext : next_timer (clearTimerOf st e) = next_timer e).
  { unfold clearTimerOf. destruct (timerId st); reflexivity. }
  assert (Hrest : symbolStates (clearTimerOf st e) = symbolStates e /\
                  heap (clearTimerOf st e) = heap e /\
                  next_loc (clearTimerOf st e) = next_loc e /\
                  playing (clearTimerOf st e) = playing e).
  { unfold clearTimerOf. destruct (timerId st); repeat split. }
  destruct Hrest as (Hm & Hh & Hl & Hp).
  set (e1 := clearTimerOf st e) in *.
  unfold setTimeout. proj. rewrite ?Hm, ?Hh, ?Hl, ?Hp, ?Hnext.
  constructor; proj; rewrite ?Hm, ?Hh, ?Hl, ?Hp, ?Hnext; auto.
  - intros id t H. apply lookup_insert_Some in H as [[<- <-] | [Hne H]]; proj.
    + split; [exact Hk |]. eexists. rewrite lookup_alter2, lookup_alter_eq, Hst. cbn.
      split; reflexivity.
    + apply Hold in H as [H Hl']. destruct (I1 id t H) as (Hmt & s & Hs & Hid).
      split; [exact Hmt |]. exists s. rewrite lookup_alter2, lookup_alter_ne by congruence. auto.
  - intros id H. rewrite lookup_insert_ne by lia.
    destruct (timers e1 !! id) as [t |] eqn:Ht; [| reflexivity].
    apply Hold in Ht as [Ht _]. rewrite I2 in Ht by lia. discriminate Ht.
  - intros l' H. rewrite lookup_alter2, lookup_alter.
    case_decide; [subst; rewrite I3 by auto |]; auto.
  - intros k l' H. apply I4 in H. rewrite lookup_alter2, lookup_alter.
    case_decide; [| exact H]. subst. destruct H as [s' ->]. eexists. reflexivity.
  - intros o H. destruct (I6 o H) as (k & l' & s & Hk' & Hs & Hos).
    destruct (decide (l = l')) as [-> | Hne].
    + eexists k, l', _. rewrite !lookup_alter_eq, Hs. cbn. auto.
    + exists k, l', s. rewrite !lookup_alter_ne by congruence. auto.
  - intros id t s H. apply lookup_insert_Some in H as [[<- <-] | [Hne H]]; proj.
    + rewrite !lookup_alter_eq, Hst. cbn. intros [= <-]. cbn. discriminate.
    + apply Hold in H as [H Hl']. rewrite !lookup_alter_ne by congruence. eauto.
Qed.

(** Dropping the monitor of an instrument that has no armed timer and no
    sounding oscillator. *)
Lemma Inv_forget k e :
  (forall id t, timers e !! id = Some t -> instrument_token (tmTick t) <> k) ->
  (forall l s, symbolStates e !! k = Some l -> heap e !! l = Some s -> oscillator s = None) ->
  Inv e -> Inv (with_symbolStates (delete k (symbolStates e)) e).
Proof.
  intros Hnt Hno [I1 I2 I3 I4 I5 I6 I7]. constructor; proj; auto.
  - intros id t H. destruct (I1 id t H) as (Hm & Hs). split; [| exact Hs].
    rewrite lookup_delete_ne by (apply not_eq_sym; eauto). exact Hm.
  - intros k' l H. apply lookup_delete_Some in H as [_ H]. eauto.
  - intros k1 k2 l H1 H2. apply lookup_delete_Some in H1 as [_ H1].
    apply lookup_delete_Some in H2 as [_ H2]. eauto.
  - intros o H. destruct (I6 o H) as (k' & l & s & Hk' & Hs & Hos).
    exists k', l, s. split; [| auto].
    rewrite lookup_delete_ne; [exact Hk' |]. intros <-.
    rewrite (Hno l s Hk' Hs) in Hos. discriminate Hos.
Qed.

Lemma clearSymbolState_no_timer k e :
  Inv e ->
  forall id t,
    timers (match getState k e with
            | Some (_, state) => clearTimerOf state e
            | None => e
            end) !! id = Some t ->
    instrument_token (tmTick t) <> k.
Proof.
  intros [I1 I2 I3 I4 I5 I6 I7] id t H Hk.
  destruct (getState k e) as [[l s] |] eqn:Hg.
  - apply getState_Some in Hg as [Hm Hs].
    assert (Ht : timers e !! id = Some t /\ timerId s <> Some id).
    { unfold clearTimerOf in H. destruct (timerId s) as [old |] eqn:Hold.
      - proj. apply lookup_delete_Some in H as [Hne H]. split; [exact H | congruence].
      - split; [exact H | discriminate]. }
    destruct Ht as [Ht Hne]. destruct (I1 id t Ht) as (Hm' & s' & Hs' & Hid).
    rewrite Hk, Hm in Hm'. injection Hm' as Heq. rewrite <- Heq in Hs'. congruence.
  - destruct (I1 id t H) as (Hm' & s' & Hs' & Hid). rewrite Hk in Hm'.
    unfold getState in Hg. rewrite Hm', Hs' in Hg. discriminate Hg.
Qed.

Lemma Inv_clearSymbolState k e : Inv e -> Inv (clearSymbolState k e).
Proof.
  intros HI. unfold clearSymbolState.
  pose proof (clearSymbolState_no_timer k e HI) as Hnt.
  set (e1 := match getState k e with Some (_, state) => clearTimerOf state e | None => e end) in *.
  assert (HI1 : Inv e1).
  { subst e1. destruct (getState k e) as [[l s] |]; [apply Inv_clearTimerOf |]; exact HI. }
  pose proof (stopAlertSound_frame k e1) as (_ & _ & _ & Hm & Ht & _).
  apply Inv_with_inactiveSymbols. apply Inv_forget.
  - rewrite Ht. exact Hnt.
  - rewrite Hm. intros l s. apply stopAlertSound_silent.
  - apply Inv_stopAlertSound, HI1.
Qed.

(** A new monitor at a fresh address. *)
Lemma Inv_create k st e :
  symbolStates e !! k = None ->
  Inv e ->
  Inv (with_symbolStates (<[k := next_loc e]> (symbolStates e))
         (with_next_loc (S (next_loc e)) (with_heap (<[next_loc e := st]> (heap e)) e))).
Proof.
  intros Hk [I1 I2 I3 I4 I5 I6 I7].
  assert (Hfresh : forall l, is_Some (heap e !! l) -> l <> next_loc e).
  { intros l [s Hs] ->. rewrite I3 in Hs by lia. discriminate Hs. }
  constructor; proj; auto.
  - intros id t H. destruct (I1 id t H) as (Hm & s & Hs & Hid).
    assert (Hne : instrument_token (tmTick t) <> k) by congruence.
    split; [rewrite lookup_insert_ne by auto; exact Hm |].
    exists s. rewrite lookup_insert_ne; [auto |]. apply not_eq_sym, Hfresh. eauto.
  - intros l H. rewrite lookup_insert_ne by lia. apply I3. lia.
  - intros k' l H. apply lookup_insert_Some in H as [[<- <-] | [Hne H]].
    + rewrite lookup_insert_eq. eauto.
    + rewrite lookup_insert_ne; [eauto |]. apply not_eq_sym, Hfresh. eauto.
  - intros k1 k2 l H1 H2.
    apply lookup_insert_Some in H1 as [[<- <-] | [Hne1 H1]];
      apply lookup_insert_Some in H2 as [[<- Hl] | [Hne2 H2]]; auto.
    + exfalso. eapply Hfresh; [eapply I4, H2 | reflexivity].
    + exfalso. eapply Hfresh; [eapply I4, H1 | auto].
    + eauto.
  - intros o H. destruct (I6 o H) as (k' & l & s & Hk' & Hs & Hos).
    exists k', l, s. rewrite !lookup_insert_ne; [auto | |].
    + apply not_eq_sym, Hfresh. eauto.
    + congruence.
  - intros id t s H. destruct (I1 id t H) as (Hm & s' & Hs' & Hid).
    rewrite lookup_insert_ne; [eauto |]. apply not_eq_sym, Hfresh. eauto.
Qed.

Lemma Inv_triggerAlert tick config l clk e l' :
  symbolStates e !! instrument_token tick = Some l' ->
  Inv e -> Inv (triggerAlert tick config l clk e).
Proof.
  intros Hk HI. unfold triggerAlert. destruct (heap e !! l) as [st |]; [| exact HI].
  eapply Inv_playAlertSound; [exact Hk |].
  apply Inv_with_inactiveSymbols, Inv_with_alerts, HI.
Qed.

Lemma update_update l f g e :
  update l f (update l g e) = update l (fun s => f (g s)) e.
Proof.
  unfold update, with_heap. cbn. f_equal. apply map_eq. intros k. apply lookup_alter2.
Qed.

Lemma lastN_nonempty {A} (n : nat) (l : list A) : (0 < n)%nat -> l <> [] -> lastN n l <> [].
Proof.
  intros Hn Hl Hd. unfold lastN in Hd.
  apply (f_equal (@length A)) in Hd. rewrite length_drop in Hd. cbn in Hd.
  destruct l; [congruence | cbn in *; lia].
Qed.

Lemma filter_app_last {A} (p : A -> bool) (l : list A) (x : A) :
  p x = true -> List.filter p (l ++ [x]) <> [].
Proof.
  intros Hp. rewrite List.filter_app. cbn. rewrite Hp.
  destruct (List.filter p l); discriminate.
Qed.

(** The history kept by the monitoring path is never empty: the entry just
    pushed is within the retention window. *)
Lemma retained_history_nonempty (h : list (Q * Z)) (price : Q) (now : Z) :
  lastN 100 (List.filter (fun x => now - 5 * 60 * 1000 <? snd x) (h ++ [(price, now)])) <> [].
Proof.
  apply lastN_nonempty; [lia |]. apply filter_app_last. cbn. apply Z.ltb_lt. lia.
Qed.

Lemma symbolStates_update l f e : symbolStates (update l f e) = symbolStates e.
Proof. reflexivity. Qed.

Lemma symbolStates_resetInactivityTimer tick config l clk e :
  symbolStates (resetInactivityTimer tick config l clk e) = symbolStates e.
Proof.
  unfold resetInactivityTimer. destruct (heap e !! l) as [st |]; [| reflexivity].
  unfold clearTimerOf. destruct (timerId st); reflexivity.
Qed.

Lemma symbolStates_cancelTimer l e : symbolStates (cancelTimer l e) = symbolStates e.
Proof.
  unfold cancelTimer. destruct (heap e !! l) as [st |]; [| reflexivity].
  destruct (timerId st); reflexivity.
Qed.

Lemma symbolStates_stopAlertSound k e : symbolStates (stopAlertSound k e) = symbolStates e.
Proof. apply stopAlertSound_frame. Qed.

Lemma symbolStates_removeInactive snap k e :
  symbolStates (removeInactive snap k e) = symbolStates e.
Proof. unfold removeInactive. destruct (decide _); reflexivity. Qed.

(** The branch taken on movement and on reopening: new baseline, timer
    restarted, flag and sound cleared. *)
Lemma Inv_restart snapshot tick config l clk e :
  symbolStates e !! instrument_token tick = Some l ->
  Inv e ->
  Inv (stopAlertSound (instrument_token tick)
         (removeInactive snapshot (instrument_token tick)
            (resetInactivityTimer tick config l clk
               (update l (set_baselinePrice (last_price tick)) e)))).
Proof.
  intros Hk HI. apply Inv_stopAlertSound, Inv_removeInactive, Inv_resetInactivityTimer.
  - exact Hk.
  - apply Inv_update; auto.
Qed.

Lemma Inv_monitor snapshot tick config l shouldAlert clk e :
  symbolStates e !! instrument_token tick = Some l ->
  Inv e -> Inv (monitor snapshot tick config l shouldAlert clk e).
Proof.
  intros Hk HI. unfold monitor.
  destruct (negb shouldAlert && respectMarketHours config).
  - apply Inv_cancelTimer, Inv_stopAlertSound, HI.
  - rewrite update_update.
    set (e2 := update l _ e).
    assert (HI2 : Inv e2).
    { subst e2. apply Inv_update; auto. intros s _. cbn. apply retained_history_nonempty. }
    destruct (heap e2 !! l) as [state |]; [| exact HI2].
    destruct (priceMoved _ _ _); [| exact HI2].
    apply Inv_restart; [exact Hk | exact HI2].
Qed.

Lemma Inv_processTick snapshot clk e tick : Inv e -> Inv (processTick snapshot clk e tick).
Proof.
  intros HI. unfold processTick.
  destruct (configurations e !! instrument_token tick) as [config |];
    [| apply Inv_clearSymbolState, HI].
  destruct (enabled config); cbn [negb]; [| apply Inv_clearSymbolState, HI].
  set (shouldAlert := if respectMarketHours config then _ else true).
  destruct (symbolStates e !! instrument_token tick) as [l |] eqn:Hk.
  - destruct (heap e !! l) as [state |]; [| exact HI].
    destruct (now clk - lastMarketStatusCheck state >? 60000).
    + destruct (negb (eqb (wasMarketOpen state) shouldAlert)).
      * destruct shouldAlert.
        -- apply Inv_restart; [exact Hk |]. apply Inv_update; auto. apply Inv_update; auto.
        -- apply Inv_cancelTimer, Inv_stopAlertSound.
           apply Inv_update; auto. apply Inv_update; auto.
      * apply Inv_monitor; [exact Hk |]. apply Inv_update; auto.
    + apply Inv_monitor; [exact Hk | exact HI].
  - pose proof (Inv_create (instrument_token tick)
                  {| stBaselinePrice := last_price tick; timerId := None;
                     priceHistory := [(last_price tick, now clk)];
                     lastMarketStatusCheck := now clk; wasMarketOpen := shouldAlert;
                     oscillator := None; gainNode := None |} e Hk HI) as HI2.
    destruct shouldAlert; [| exact HI2].
    apply Inv_resetInactivityTimer; [| exact HI2].
    proj. apply lookup_insert_eq.
Qed.

Lemma Inv_effect ticks clk e : Inv e -> Inv (effect ticks clk e).
Proof.
  unfold effect. apply fold_left_preserves. intros a b. apply Inv_processTick.
Qed.

Lemma Inv_fireTimer id clk e : Inv e -> Inv (fireTimer id clk e).
Proof.
  intros HI. unfold fireTimer. destruct (timers e !! id) as [t |] eqn:Ht; [| exact HI].
  destruct (fireAt t <=? now clk); [| exact HI].
  destruct (inv_timer e HI id t Ht) as (Hm & _).
  unfold timerCallback.
  destruct (if respectMarketHours (tmConfig t) then _ else true).
  - eapply Inv_triggerAlert; [exact Hm |]. apply Inv_clearTimeout, HI.
  - apply Inv_clearSymbolState, Inv_stopAlertSound, Inv_clearTimeout, HI.
Qed.

Lemma Inv_updateConfiguration k config e : Inv e -> Inv (updateConfiguration k config e).
Proof.
  intros HI. apply Inv_clearSymbolState, Inv_with_configurations, HI.
Qed.

Lemma Inv_clearAllAlerts e : Inv e -> Inv (clearAllAlerts e).
Proof.
  intros HI. unfold clearAllAlerts. apply Inv_with_inactiveSymbols.
  apply fold_left_preserves; [| apply Inv_with_alerts, HI].
  intros a b. apply Inv_stopAlertSound.
Qed.

Lemma Inv_step e ev : Inv e -> Inv (step e ev).
Proof.
  destruct ev; cbn [step].
  - apply Inv_effect.
  - apply Inv_fireTimer.
  - apply Inv_updateConfiguration.
  - apply Inv_clearAllAlerts.
  - apply Inv_initAudio.
Qed.

Lemma Inv_run evs e : Inv e -> Inv (run evs e).
Proof. unfold run. apply fold_left_preserves. intros a b. apply Inv_step. Qed.

Lemma Inv_reachable e : reachable e -> Inv e.
Proof. intros [evs ->]. apply Inv_run, Inv_init. Qed.

End EngineFacts.


(** ** Inactivity engine: what each transition does *)

Section EngineTransitions.
Import JsMath MarketTimings Tick Inactivity EngineInvariant.

Ltac proj :=
  cbn [configurations alerts inactiveSymbols symbolStates heap next_loc timers next_timer
       audioContext playing next_node with_configurations with_alerts with_inactiveSymbols
       with_symbolStates with_heap with_next_loc with_timers with_audio update clearTimeout
       stBaselinePrice timerId priceHistory lastMarketStatusCheck wasMarketOpen oscillator
       gainNode set_baselinePrice set_timerId set_priceHistory set_lastMarketStatusCheck
       set_wasMarketOpen set_sound tmTick tmConfig tmState fireAt fst snd] in *.

(** *** Armed timers of an instrument *)

Lemma NoDup_fst_filter {A B} (p : A * B -> bool) (l : list (A * B)) :
  NoDup (map fst l) -> NoDup (map fst (List.filter p l)).
Proof.
  induction l as [| x l IH]; cbn; [auto |].
  intros H. apply NoDup_cons in H as [Hx Hl]. destruct (p x); cbn; [| auto].
  apply NoDup_cons. split; [| auto].
  intros Hin. apply Hx. apply list_elem_of_In in Hin. apply list_elem_of_In.
  apply in_map_iff in Hin as (y & Hy & Hin). apply filter_In in Hin as [Hin _].
  apply in_map_iff. eauto.
Qed.

Lemma armedFor_NoDup k e : NoDup (armedFor k e).
Proof. apply NoDup_fst_filter, NoDup_fst_map_to_list. Qed.

Lemma armedFor_armed k e id : In id (armedFor k e) <-> armed k id e.
Proof.
  unfold armedFor, armed. rewrite in_map_iff. split.
  - intros ([id' t] & <- & Hin). apply filter_In in Hin as [Hin Hk].
    apply list_elem_of_In, elem_of_map_to_list in Hin. apply Z.eqb_eq in Hk. eauto.
  - intros (t & Ht & Hk). exists (id, t). split; [reflexivity |].
    apply filter_In. split; [| apply Z.eqb_eq, Hk].
    apply list_elem_of_In, elem_of_map_to_list, Ht.
Qed.

(** Under the invariant, an armed timer of [k] is the one whose handle the
    monitor of [k] holds. *)
Lemma armed_is_held k id e :
  Inv e -> armed k id e ->
  exists l s, getState k e = Some (l, s) /\ timerId s = Some id.
Proof.
  intros HI (t & Ht & <-). destruct (inv_timer e HI id t Ht) as (Hm & s & Hs & Hid).
  exists (tmState t), s. split; [apply getState_Some; auto | exact Hid].
Qed.

Lemma armed_unique k id1 id2 e : Inv e -> armed k id1 e -> armed k id2 e -> id1 = id2.
Proof.
  intros HI H1 H2.
  destruct (armed_is_held k id1 e HI H1) as (l1 & s1 & Hg1 & Hid1).
  destruct (armed_is_held k id2 e HI H2) as (l2 & s2 & Hg2 & Hid2).
  congruence.
Qed.

Lemma at_most_one_armed k e : Inv e -> (length (armedFor k e) <= 1)%nat.
Proof.
  intros HI. pose proof (armedFor_NoDup k e) as Hnd.
  assert (Hall : forall a b, In a (armedFor k e) -> In b (armedFor k e) -> a = b).
  { intros a b Ha Hb. apply armedFor_armed in Ha, Hb. eapply armed_unique; eauto. }
  destruct (armedFor k e) as [| a [| b r]]; cbn; [lia | lia |].
  exfalso. assert (a = b) by (apply Hall; cbn; auto). subst b.
  apply NoDup_cons in Hnd as [Hnin _]. apply Hnin. left.
Qed.

Lemma armedFor_nil k e : (forall id, ~ armed k id e) -> armedFor k e = [].
Proof.
  intros H. destruct (armedFor k e) as [| a r] eqn:E; [reflexivity |].
  exfalso. apply (H a). apply armedFor_armed. rewrite E. left. reflexivity.
Qed.

Lemma armedFor_singleton k e id : Inv e -> armed k id e -> armedFor k e = [id].
Proof.
  intros HI Ha. pose proof (at_most_one_armed k e HI) as Hlen.
  pose proof (proj2 (armedFor_armed k e id) Ha) as Hin.
  destruct (armedFor k e) as [| a [| b r]]; cbn in *; [tauto | | lia].
  destruct Hin as [-> | []]. reflexivity.
Qed.

(** No monitor, or a monitor without handle: no armed timer. *)
Lemma no_monitor_no_timer k e :
  Inv e -> symbolStates e !! k = None -> armedFor k e = [].
Proof.
  intros HI Hk. apply armedFor_nil. intros id Ha.
  destruct (armed_is_held k id e HI Ha) as (l & s & Hg & _).
  apply getState_Some in Hg as [Hm _]. congruence.
Qed.

Lemma no_handle_no_timer k e l s :
  Inv e -> getState k e = Some (l, s) -> timerId s = None -> armedFor k e = [].
Proof.
  intros HI Hg Hid. apply armedFor_nil. intros id Ha.
  destruct (armed_is_held k id e HI Ha) as (l' & s' & Hg' & Hid'). congruence.
Qed.

(** *** The building blocks *)

Lemma clearTimerOf_frame st e :
  configurations (clearTimerOf st e) = configurations e /\
  alerts (clearTimerOf st e) = alerts e /\
  inactiveSymbols (clearTimerOf st e) = inactiveSymbols e /\
  symbolStates (clearTimerOf st e) = symbolStates e /\
  heap (clearTimerOf st e) = heap e /\
  next_timer (clearTimerOf st e) = next_timer e.
Proof. unfold clearTimerOf. destruct (timerId st); repeat split. Qed.

Lemma clearTimerOf_timers st e id t :
  timers (clearTimerOf st e) !! id = Some t <->
  timers e !! id = Some t /\ timerId st <> Some id.
Proof.
  unfold clearTimerOf. destruct (timerId st) as [old |]; proj.
  - rewrite lookup_delete_Some. split; intros [H1 H2]; split; congruence.
  - split; [intros H; split; [exact H | discriminate] | tauto].
Qed.

Lemma resetInactivityTimer_result tick config l clk e st :
  heap e !! l = Some st ->
  heap (resetInactivityTimer tick config l clk e) !! l =
    Some (set_timerId (Some (next_timer e))
            (set_priceHistory [(last_price tick, now clk)] st)) /\
  (forall l', l' <> l ->
     heap (resetInactivityTimer tick config l clk e) !! l' = heap e !! l') /\
  timers (resetInactivityTimer tick config l clk e) =
    <[next_timer e := {| tmTick := tick; tmConfig := config; tmState := l;
                         fireAt := now clk + duration config * 1000 |}]>
      (timers (clearTimerOf st e)) /\
  next_timer (resetInactivityTimer tick config l clk e) = S (next_timer e) /\
  configurations (resetInactivityTimer tick config l clk e) = configurations e /\
  alerts (resetInactivityTimer tick config l clk e) = alerts e /\
  inactiveSymbols (resetInactivityTimer tick config l clk e) = inactiveSymbols e /\
  symbolStates (resetInactivityTimer tick config l clk e) = symbolStates e.
Proof.
  intros Hst. unfold resetInactivityTimer, setTimeout. rewrite Hst.
  pose proof (clearTimerOf_frame st e) as (Hc & Ha & Hi & Hm & Hh & Hn).
  proj. rewrite Hc, Ha, Hi, Hm, Hh, Hn. repeat split.
  - rewrite lookup_alter2, lookup_alter_eq, Hst. reflexivity.
  - intros l' Hne. rewrite lookup_alter2, lookup_alter_ne by auto. reflexivity.
Qed.

(** The restart performed on movement and on reopening. *)
Lemma restart_result snapshot tick config l clk e st :
  symbolStates e !! instrument_token tick = Some l ->
  heap e !! l = Some st ->
  exists s',
    getState (instrument_token tick)
      (stopAlertSound (instrument_token tick)
         (removeInactive snapshot (instrument_token tick)
            (resetInactivityTimer tick config l clk
               (update l (set_baselinePrice (last_price tick)) e)))) = Some (l, s') /\
    stBaselinePrice s' = last_price tick /\
    timerId s' = Some (next_timer e) /\
    priceHistory s' = [(last_price tick, now clk)] /\
    timers (stopAlertSound (instrument_token tick)
         (removeInactive snapshot (instrument_token tick)
            (resetInactivityTimer tick config l clk
               (update l (set_baselinePrice (last_price tick)) e))))
      = <[next_timer e := armedTimer tick config l clk]> (timers (clearTimerOf st e)) /\
    next_timer (stopAlertSound (instrument_token tick)
         (removeInactive snapshot (instrument_token tick)
            (resetInactivityTimer tick config l clk
               (update l (set_baselinePrice (last_price tick)) e)))) = S (next_timer e).
Proof.
  intros Hk Hst.
  set (e0 := update l (set_baselinePrice (last_price tick)) e).
  assert (Hst0 : heap e0 !! l = Some (set_baselinePrice (last_price tick) st)).
  { subst e0. proj. rewrite lookup_alter_eq, Hst. reflexivity. }
  destruct (resetInactivityTimer_result tick config l clk e0 _ Hst0)
    as (Hh & _ & Ht & Hn & _ & _ & _ & Hm).
  set (e1 := resetInactivityTimer tick config l clk e0) in *.
  set (e2 := removeInactive snapshot (instrument_token tick) e1).
  assert (H2 : heap e2 = heap e1 /\ timers e2 = timers e1 /\ next_timer e2 = next_timer e1 /\
               symbolStates e2 = symbolStates e1).
  { subst e2. unfold removeInactive. destruct (decide _); repeat split. }
  destruct H2 as (Hh2 & Ht2 & Hn2 & Hm2).
  pose proof (stopAlertSound_frame (instrument_token tick) e2) as (_ & _ & _ & Hm3 & Ht3 & Hn3 & _).
  pose proof (stopAlertSound_monitorsKept (instrument_token tick) e2 l) as Hk3.
  rewrite Hh2, Hh in Hk3. destruct Hk3 as (s' & Hs' & Hb & Hid & Hh' & _).
  exists s'. split; [| split; [| split; [| split; [| split]]]].
  - apply getState_Some. split; [| exact Hs']. rewrite Hm3, Hm2, Hm. exact Hk.
  - rewrite Hb. reflexivity.
  - rewrite Hid. reflexivity.
  - rewrite Hh'. reflexivity.
  - rewrite Ht3, Ht2, Ht. unfold armedTimer. f_equal.
    apply map_eq. intros id. apply option_eq. intros t.
    rewrite !clearTimerOf_timers. reflexivity.
  - rewrite Hn3, Hn2, Hn. reflexivity.
Qed.

(** The cancellation performed while the market is closed. *)
Lemma cancel_result k l e st :
  symbolStates e !! k = Some l ->
  heap e !! l = Some st ->
  exists s',
    getState k (cancelTimer l (stopAlertSound k e)) = Some (l, s') /\
    timerId s' = None /\
    stBaselinePrice s' = stBaselinePrice st /\
    priceHistory s' = priceHistory st /\
    timers (cancelTimer l (stopAlertSound k e)) = timers (clearTimerOf st e) /\
    next_timer (cancelTimer l (stopAlertSound k e)) = next_timer e.
Proof.
  intros Hk Hst.
  pose proof (stopAlertSound_frame k e) as (_ & _ & _ & Hm & Ht & Hn & _).
  pose proof (stopAlertSound_monitorsKept k e l) as Hkept. rewrite Hst in Hkept.
  destruct Hkept as (s1 & Hs1 & Hb & Hid & Hh & _).
  set (e1 := stopAlertSound k e) in *.
  unfold cancelTimer. rewrite Hs1. destruct (timerId s1) as [old |] eqn:Hold.
  - exists (set_timerId None s1). split; [| split; [| split; [| split; [| split]]]]; proj.
    + apply getState_Some. proj. rewrite Hm. split; [exact Hk |].
      rewrite lookup_alter_eq, Hs1. reflexivity.
    + reflexivity.
    + exact Hb.
    + exact Hh.
    + rewrite Ht. unfold clearTimerOf. rewrite <- Hid. reflexivity.
    + exact Hn.
  - exists s1. split; [| split; [| split; [| split; [| split]]]].
    + apply getState_Some. rewrite Hm. auto.
    + exact Hold.
    + exact Hb.
    + exact Hh.
    + rewrite Ht. unfold clearTimerOf. rewrite <- Hid. reflexivity.
    + exact Hn.
Qed.

(** *** One tick on an existing monitor *)

(** The three outcomes of a tick for an instrument that is configured,
    enabled and already monitored: the timer is restarted (reopening or
    movement), cancelled (market closed), or left running. *)
Lemma processTick_existing snapshot clk e tick config l st :
  configurations e !! instrument_token tick = Some config ->
  enabled config = true ->
  getState (instrument_token tick) e = Some (l, st) ->
  exists s',
    getState (instrument_token tick) (processTick snapshot clk e tick) = Some (l, s') /\
    ((shouldAlertFor tick config clk = true /\
      (priceMoved (last_price tick) (stBaselinePrice st) (deviation config) = true \/
       (now clk - lastMarketStatusCheck st > 60000 /\ wasMarketOpen st = false)) /\
      stBaselinePrice s' = last_price tick /\
      timerId s' = Some (next_timer e) /\
      priceHistory s' = [(last_price tick, now clk)] /\
      timers (processTick snapshot clk e tick)
        = <[next_timer e := armedTimer tick config l clk]> (timers (clearTimerOf st e)) /\
      next_timer (processTick snapshot clk e tick) = S (next_timer e))
     \/
     (shouldAlertFor tick config clk = false /\
      timerId s' = None /\
      stBaselinePrice s' = stBaselinePrice st /\
      priceHistory s' = priceHistory st /\
      timers (processTick snapshot clk e tick) = timers (clearTimerOf st e) /\
      next_timer (processTick snapshot clk e tick) = next_timer e)
     \/
     (shouldAlertFor tick config clk = true /\
      priceMoved (last_price tick) (stBaselinePrice st) (deviation config) = false /\
      timerId s' = timerId st /\
      stBaselinePrice s' = stBaselinePrice st /\
      priceHistory s' = retained (priceHistory st) tick clk /\
      timers (processTick snapshot clk e tick) = timers e /\
      next_timer (processTick snapshot clk e tick) = next_timer e)).
Proof.
  intros Hc Hen Hg. apply getState_Some in Hg as [Hk Hst].
  unfold processTick. rewrite Hc, Hen. cbn [negb]. rewrite Hk, Hst.
  fold (shouldAlertFor tick config clk).
  (* the tail of the body, on a store where only the market-check fields moved *)
  assert (Hmon : forall e0 st0,
    symbolStates e0 = symbolStates e -> heap e0 !! l = Some st0 ->
    timers e0 = timers e -> next_timer e0 = next_timer e ->
    timerId st0 = timerId st -> stBaselinePrice st0 = stBaselinePrice st ->
    priceHistory st0 = priceHistory st ->
    (now clk - lastMarketStatusCheck st > 60000 -> wasMarketOpen st = false ->
     shouldAlertFor tick config clk = false) ->
    exists s',
      getState (instrument_token tick)
        (monitor snapshot tick config l (shouldAlertFor tick config clk) clk e0) = Some (l, s') /\
      ((shouldAlertFor tick config clk = true /\
        (priceMoved (last_price tick) (stBaselinePrice st) (deviation config) = true \/
         (now clk - lastMarketStatusCheck st > 60000 /\ wasMarketOpen st = false)) /\
        stBaselinePrice s' = last_price tick /\
        timerId s' = Some (next_timer e) /\
        priceHistory s' = [(last_price tick, now clk)] /\
        timers (monitor snapshot tick config l (shouldAlertFor tick config clk) clk e0)
          = <[next_timer e := armedTimer tick config l clk]> (timers (clearTimerOf st e)) /\
        next_timer (monitor snapshot tick config l (shouldAlertFor tick config clk) clk e0)
          = S (next_timer e))
       \/
       (shouldAlertFor tick config clk = false /\
        timerId s' = None /\
        stBaselinePrice s' = stBaselinePrice st /\
        priceHistory s' = priceHistory st /\
        timers (monitor snapshot tick config l (shouldAlertFor tick config clk) clk e0)
          = timers (clearTimerOf st e) /\
        next_timer (monitor snapshot tick config l (shouldAlertFor tick config clk) clk e0)
          = next_timer e)
       \/
       (shouldAlertFor tick config clk = true /\
        priceMoved (last_price tick) (stBaselinePrice st) (deviation config) = false /\
        timerId s' = timerId st /\
        stBaselinePrice s' = stBaselinePrice st /\
        priceHistory s' = retained (priceHistory st) tick clk /\
        timers (monitor snapshot tick config l (shouldAlertFor tick config clk) clk e0)
          = timers e /\
        next_timer (monitor snapshot tick config l (shouldAlertFor tick config clk) clk e0)
          = next_timer e))).
  { intros e0 st0 Hm0 Hst0 Ht0 Hn0 Hid0 Hb0 Hh0 _.
    assert (Hclr : timers (clearTimerOf st0 e0) = timers (clearTimerOf st e)).
    { unfold clearTimerOf. rewrite Hid0. destruct (timerId st); proj; rewrite Ht0; reflexivity. }
    unfold monitor. destruct (shouldAlertFor tick config clk) eqn:Hsa; cbn [negb andb].
    - rewrite update_update.
      set (e2 := update l _ e0).
      assert (Hst2 : heap e2 !! l =
                Some (set_priceHistory (retained (priceHistory st0) tick clk) st0)).
      { subst e2. proj. rewrite lookup_alter_eq, Hst0. reflexivity. }
      assert (Hk2 : symbolStates e2 !! instrument_token tick = Some l).
      { change (symbolStates e0 !! instrument_token tick = Some l). rewrite Hm0. exact Hk. }
      rewrite Hst2. proj. rewrite Hb0.
      destruct (priceMoved (last_price tick) (stBaselinePrice st) (deviation config)) eqn:Hmv.
      + destruct (restart_result snapshot tick config l clk e2 _ Hk2 Hst2)
          as (s' & Hg' & Hb' & Hid' & Hh' & Ht' & Hn').
        assert (Hn2 : next_timer e2 = next_timer e) by (subst e2; proj; exact Hn0).
        exists s'. split; [exact Hg' |]. left. rewrite Hn2 in *.
        repeat split; auto. rewrite Ht'. f_equal.
        rewrite <- Hclr. unfold clearTimerOf. proj. destruct (timerId st0); reflexivity.
      + exists (set_priceHistory (retained (priceHistory st0) tick clk) st0).
        split; [apply getState_Some; split; [exact Hk2 | exact Hst2] |].
        right. right. proj. subst e2. proj. rewrite Hh0. repeat split; auto.
    - assert (Hr : respectMarketHours config = true).
      { unfold shouldAlertFor in Hsa. destruct (respectMarketHours config); congruence. }
      rewrite Hr.
      assert (Hk0 : symbolStates e0 !! instrument_token tick = Some l)
        by (rewrite Hm0; exact Hk).
      destruct (cancel_result (instrument_token tick) l e0 st0 Hk0 Hst0)
        as (s' & Hg' & Hid' & Hb' & Hh' & Ht' & Hn').
      exists s'. split; [exact Hg' |]. right. left.
      repeat split; auto; congruence. }
  destruct (now clk - lastMarketStatusCheck st >? 60000) eqn:Hchk.
  - apply Z.gtb_lt in Hchk.
    destruct (eqb (wasMarketOpen st) (shouldAlertFor tick config clk)) eqn:Hflip; cbn [negb].
    + apply eqb_prop in Hflip.
      apply (Hmon (update l (set_lastMarketStatusCheck (now clk)) e)
                  (set_lastMarketStatusCheck (now clk) st)); try reflexivity.
      * proj. rewrite lookup_alter_eq, Hst. reflexivity.
      * intros _ Hw. rewrite <- Hflip. exact Hw.
    + apply eqb_false_iff in Hflip.
      set (e2 := update l _ (update l _ e)).
      assert (Hst2 : heap e2 !! l =
                Some (set_wasMarketOpen (shouldAlertFor tick config clk)
                        (set_lastMarketStatusCheck (now clk) st))).
      { subst e2. proj. rewrite lookup_alter2, lookup_alter_eq, Hst. reflexivity. }
      destruct (shouldAlertFor tick config clk) eqn:Hsa.
      * destruct (restart_result snapshot tick config l clk e2 _ Hk Hst2)
          as (s' & Hg' & Hb' & Hid' & Hh' & Ht' & Hn').
        exists s'. split; [exact Hg' |]. left.
        split; [reflexivity |].
        split; [right; split; [lia | destruct (wasMarketOpen st); congruence] |].
        split; [exact Hb' |]. split; [exact Hid' |]. split; [exact Hh' |].
        split; [| exact Hn'].
        rewrite Ht'. unfold clearTimerOf. proj. destruct (timerId st); reflexivity.
      * destruct (cancel_result (instrument_token tick) l e2 _ Hk Hst2)
          as (s' & Hg' & Hid' & Hb' & Hh' & Ht' & Hn').
        exists s'. split; [exact Hg' |]. right. left.
        split; [reflexivity |]. split; [exact Hid' |]. split; [exact Hb' |].
        split; [exact Hh' |]. split; [| exact Hn'].
        rewrite Ht'. unfold clearTimerOf. proj. destruct (timerId st); reflexivity.
  - apply (Hmon e st); try reflexivity; [exact Hst |].
    intros Hgt. exfalso. rewrite Z.gtb_ltb in Hchk. apply Z.ltb_ge in Hchk. lia.
Qed.

(** *** Destroying and creating a monitor *)

Lemma clearSymbolState_result k e :
  symbolStates (clearSymbolState k e) = delete k (symbolStates e) /\
  configurations (clearSymbolState k e) = configurations e /\
  alerts (clearSymbolState k e) = alerts e /\
  inactiveSymbols (clearSymbolState k e) = inactiveSymbols e ∖ {[k]} /\
  next_timer (clearSymbolState k e) = next_timer e /\
  next_loc (clearSymbolState k e) = next_loc e /\
  (forall id t, timers (clearSymbolState k e) !! id = Some t -> timers e !! id = Some t) /\
  (forall l, symbolStates e !! k <> Some l -> heap (clearSymbolState k e) !! l = heap e !! l) /\
  monitorsKept e (clearSymbolState k e).
Proof.
  unfold clearSymbolState.
  set (e1 := match getState k e with Some (_, state) => clearTimerOf state e | None => e end).
  assert (H1 : configurations e1 = configurations e /\ alerts e1 = alerts e /\
               inactiveSymbols e1 = inactiveSymbols e /\ symbolStates e1 = symbolStates e /\
               heap e1 = heap e /\ next_timer e1 = next_timer e /\ next_loc e1 = next_loc e /\
               (forall id t, timers e1 !! id = Some t -> timers e !! id = Some t)).
  { subst e1. destruct (getState k e) as [[l s] |]; [| repeat split; auto].
    pose proof (clearTimerOf_frame s e) as (? & ? & ? & ? & ? & ?).
    repeat split; auto.
    - unfold clearTimerOf. destruct (timerId s); reflexivity.
    - intros id t Hid. apply clearTimerOf_timers in Hid. tauto. }
  destruct H1 as (Hc & Ha & Hi & Hm & Hh & Hn & Hl & Ht).
  pose proof (stopAlertSound_frame k e1) as (Hc2 & Ha2 & Hi2 & Hm2 & Ht2 & Hn2 & Hl2 & _).
  proj. rewrite Hc2, Ha2, Hi2, Hm2, Ht2, Hn2, Hl2, Hc, Ha, Hi, Hm, Hn, Hl.
  repeat split; auto.
  - intros l Hne. rewrite stopAlertSound_heap_other by (rewrite Hm; exact Hne).
    rewrite Hh. reflexivity.
  - intros l. pose proof (stopAlertSound_monitorsKept k e1 l) as Hk. rewrite Hh in Hk. exact Hk.
Qed.

(** Destroying a monitor leaves the timers armed that it does not hold. *)
Lemma clearSymbolState_keeps_timer k e id t :
  timers e !! id = Some t ->
  (forall l s, getState k e = Some (l, s) -> timerId s <> Some id) ->
  timers (clearSymbolState k e) !! id = Some t.
Proof.
  intros Ht Hno. unfold clearSymbolState.
  set (e1 := match getState k e with Some (_, state) => clearTimerOf state e | None => e end).
  assert (H1 : timers e1 !! id = Some t).
  { subst e1. destruct (getState k e) as [[l s] |] eqn:Hg; [| exact Ht].
    apply clearTimerOf_timers. split; [exact Ht | eapply Hno; reflexivity]. }
  pose proof (stopAlertSound_frame k e1) as (_ & _ & _ & _ & Ht2 & _).
  proj. rewrite Ht2. exact H1.
Qed.

(** Without an enabled configuration the monitor is destroyed. *)
Lemma processTick_disabled snapshot clk e tick :
  (forall config, configurations e !! instrument_token tick = Some config ->
                  enabled config = false) ->
  processTick snapshot clk e tick = clearSymbolState (instrument_token tick) e.
Proof.
  intros H. unfold processTick.
  destruct (configurations e !! instrument_token tick) as [config |]; [| reflexivity].
  rewrite (H config eq_refl). reflexivity.
Qed.

(** The first tick of an enabled instrument creates its monitor, with the
    price of the tick as baseline and, when alerts should be active, an
    armed timer. *)
Lemma processTick_new snapshot clk e tick config :
  configurations e !! instrument_token tick = Some config ->
  enabled config = true ->
  symbolStates e !! instrument_token tick = None ->
  exists s',
    getState (instrument_token tick) (processTick snapshot clk e tick)
      = Some (next_loc e, s') /\
    stBaselinePrice s' = last_price tick /\
    priceHistory s' = [(last_price tick, now clk)] /\
    timerId s' = (if shouldAlertFor tick config clk then Some (next_timer e) else None) /\
    timers (processTick snapshot clk e tick) =
      (if shouldAlertFor tick config clk
       then <[next_timer e := armedTimer tick config (next_loc e) clk]> (timers e)
       else timers e) /\
    next_timer (processTick snapshot clk e tick) =
      (if shouldAlertFor tick config clk then S (next_timer e) else next_timer e) /\
    (forall k, k <> instrument_token tick ->
               symbolStates (processTick snapshot clk e tick) !! k = symbolStates e !! k) /\
    (forall l, l <> next_loc e -> heap (processTick snapshot clk e tick) !! l = heap e !! l) /\
    next_loc (processTick snapshot clk e tick) = S (next_loc e).
Proof.
  intros Hc Hen Hk. unfold processTick. rewrite Hc, Hen. cbn [negb]. rewrite Hk.
  fold (shouldAlertFor tick config clk).
  set (st := {| stBaselinePrice := last_price tick; timerId := None;
                priceHistory := [(last_price tick, now clk)];
                lastMarketStatusCheck := now clk;
                wasMarketOpen := shouldAlertFor tick config clk;
                oscillator := None; gainNode := None |}).
  set (e2 := with_symbolStates _ _).
  assert (Hst : heap e2 !! next_loc e = Some st) by (subst e2; proj; apply lookup_insert_eq).
  destruct (shouldAlertFor tick config clk) eqn:Hsa.
  - destruct (resetInactivityTimer_result tick config (next_loc e) clk e2 st Hst)
      as (Hh & Hho & Ht & Hn & _ & _ & _ & Hm).
    eexists. split; [apply getState_Some; split; [| exact Hh] |].
    { rewrite Hm. subst e2. proj. apply lookup_insert_eq. }
    split; [reflexivity |]. split; [reflexivity |]. split; [reflexivity |].
    split; [rewrite Ht; reflexivity |]. split; [exact Hn |]. split; [| split].
    + intros k Hne. rewrite Hm. subst e2. proj. apply lookup_insert_ne. auto.
    + intros l Hne. rewrite Hho by exact Hne. subst e2. proj. apply lookup_insert_ne. auto.
    + unfold resetInactivityTimer. rewrite Hst. reflexivity.
  - exists st. split; [apply getState_Some; split; [| exact Hst] |].
    { subst e2. proj. apply lookup_insert_eq. }
    split; [reflexivity |]. split; [reflexivity |]. split; [reflexivity |].
    split; [reflexivity |]. split; [reflexivity |]. split; [| split].
    + intros k Hne. subst e2. proj. apply lookup_insert_ne. auto.
    + intros l Hne. subst e2. proj. apply lookup_insert_ne. auto.
    + reflexivity.
Qed.

(** *** What a tick leaves alone *)

Lemma onlyAt_refl l e : onlyAt l e e.
Proof. repeat split. Qed.

Lemma onlyAt_trans l e1 e2 e3 : onlyAt l e1 e2 -> onlyAt l e2 e3 -> onlyAt l e1 e3.
Proof.
  intros (Hm & Hc & Ha & Hl & Hh) (Hm' & Hc' & Ha' & Hl' & Hh').
  repeat split; try congruence. intros l' Hne. rewrite Hh', Hh by exact Hne. reflexivity.
Qed.

Lemma onlyAt_update l f e : onlyAt l e (update l f e).
Proof. repeat split. intros l' Hne. proj. apply lookup_alter_ne. auto. Qed.

Lemma onlyAt_stopAlertSound k l e :
  symbolStates e !! k = Some l -> onlyAt l e (stopAlertSound k e).
Proof.
  intros Hk. pose proof (stopAlertSound_frame k e) as (Hc & Ha & _ & Hm & _ & _ & Hl & _).
  repeat split; auto. intros l' Hne. apply stopAlertSound_heap_other. congruence.
Qed.

Lemma onlyAt_removeInactive snap k l e : onlyAt l e (removeInactive snap k e).
Proof. unfold removeInactive. destruct (decide _); repeat split. Qed.

Lemma onlyAt_cancelTimer l e : onlyAt l e (cancelTimer l e).
Proof.
  unfold cancelTimer. destruct (heap e !! l) as [st |]; [| apply onlyAt_refl].
  destruct (timerId st); [| apply onlyAt_refl].
  repeat split. intros l' Hne. proj. apply lookup_alter_ne. auto.
Qed.

Lemma onlyAt_resetInactivityTimer tick config l clk e :
  onlyAt l e (resetInactivityTimer tick config l clk e).
Proof.
  destruct (heap e !! l) as [st |] eqn:Hst.
  - destruct (resetInactivityTimer_result tick config l clk e st Hst)
      as (_ & Hh & _ & _ & Hc & Ha & _ & Hm).
    repeat split; auto.
    unfold resetInactivityTimer. rewrite Hst. unfold clearTimerOf.
    destruct (timerId st); reflexivity.
  - unfold resetInactivityTimer. rewrite Hst. apply onlyAt_refl.
Qed.

Lemma onlyAt_restart snapshot tick config l clk e :
  symbolStates e !! instrument_token tick = Some l ->
  onlyAt l e
    (stopAlertSound (instrument_token tick)
       (removeInactive snapshot (instrument_token tick)
          (resetInactivityTimer tick config l clk
             (update l (set_baselinePrice (last_price tick)) e)))).
Proof.
  intros Hk.
  eapply onlyAt_trans; [apply onlyAt_update |].
  eapply onlyAt_trans; [apply onlyAt_resetInactivityTimer |].
  eapply onlyAt_trans; [apply onlyAt_removeInactive |].
  apply onlyAt_stopAlertSound.
  rewrite symbolStates_removeInactive, symbolStates_resetInactivityTimer. exact Hk.
Qed.

Lemma onlyAt_monitor snapshot tick config l shouldAlert clk e :
  symbolStates e !! instrument_token tick = Some l ->
  onlyAt l e (monitor snapshot tick config l shouldAlert clk e).
Proof.
  intros Hk. unfold monitor. destruct (negb shouldAlert && respectMarketHours config).
  - eapply onlyAt_trans; [apply onlyAt_stopAlertSound, Hk | apply onlyAt_cancelTimer].
  - rewrite update_update. set (e2 := update l _ e).
    assert (H2 : onlyAt l e e2) by apply onlyAt_update.
    destruct (heap e2 !! l) as [state |]; [| exact H2].
    destruct (priceMoved _ _ _); [| exact H2].
    eapply onlyAt_trans; [exact H2 |]. apply onlyAt_restart. exact Hk.
Qed.

(** A tick of an instrument that is monitored only touches that monitor. *)
Lemma processTick_onlyAt snapshot clk e tick config l :
  configurations e !! instrument_token tick = Some config ->
  enabled config = true ->
  symbolStates e !! instrument_token tick = Some l ->
  onlyAt l e (processTick snapshot clk e tick).
Proof.
  intros Hc Hen Hk. unfold processTick. rewrite Hc, Hen. cbn [negb]. rewrite Hk.
  destruct (heap e !! l) as [state |]; [| apply onlyAt_refl].
  fold (shouldAlertFor tick config clk).
  destruct (now clk - lastMarketStatusCheck state >? 60000).
  - destruct (negb (eqb (wasMarketOpen state) (shouldAlertFor tick config clk))).
    + destruct (shouldAlertFor tick config clk).
      * eapply onlyAt_trans; [apply onlyAt_update |].
        eapply onlyAt_trans; [apply onlyAt_update |].
        apply onlyAt_restart. exact Hk.
      * eapply onlyAt_trans; [apply onlyAt_update |].
        eapply onlyAt_trans; [apply onlyAt_update |].
        eapply onlyAt_trans; [apply onlyAt_stopAlertSound, Hk | apply onlyAt_cancelTimer].
    + eapply onlyAt_trans; [apply onlyAt_update |]. apply onlyAt_monitor. exact Hk.
  - apply onlyAt_monitor. exact Hk.
Qed.

(** The configuration map and the alert log are not touched by a tick. *)
Lemma processTick_quiet snapshot clk e tick :
  configurations (processTick snapshot clk e tick) = configurations e /\
  alerts (processTick snapshot clk e tick) = alerts e.
Proof.
  destruct (configurations e !! instrument_token tick) as [config |] eqn:Hc.
  - destruct (enabled config) eqn:Hen.
    + destruct (symbolStates e !! instrument_token tick) as [l |] eqn:Hk.
      * destruct (processTick_onlyAt snapshot clk e tick config l Hc Hen Hk)
          as (_ & H1 & H2 & _). auto.
      * unfold processTick. rewrite Hc, Hen. cbn [negb]. rewrite Hk.
        fold (shouldAlertFor tick config clk).
        destruct (shouldAlertFor tick config clk); [| split; reflexivity].
        set (e2 := with_symbolStates _ _).
        destruct (onlyAt_resetInactivityTimer tick config (next_loc e) clk e2)
          as (_ & H1 & H2 & _). auto.
    + rewrite processTick_disabled by (intros c Hc'; congruence).
      destruct (clearSymbolState_result (instrument_token tick) e) as (_ & H1 & H2 & _). auto.
  - rewrite processTick_disabled by (intros c Hc'; congruence).
    destruct (clearSymbolState_result (instrument_token tick) e) as (_ & H1 & H2 & _). auto.
Qed.

(** The monitors of the other instruments are untouched by a tick. *)
Lemma processTick_other snapshot clk e tick k l :
  Inv e -> k <> instrument_token tick ->
  symbolStates (processTick snapshot clk e tick) !! k = symbolStates e !! k /\
  (symbolStates e !! k = Some l -> heap (processTick snapshot clk e tick) !! l = heap e !! l).
Proof.
  intros HI Hne.
  destruct (configurations e !! instrument_token tick) as [config |] eqn:Hc.
  - destruct (enabled config) eqn:Hen.
    + destruct (symbolStates e !! instrument_token tick) as [l0 |] eqn:Hk.
      * destruct (processTick_onlyAt snapshot clk e tick config l0 Hc Hen Hk)
          as (Hm & _ & _ & _ & Hh).
        rewrite Hm. split; [reflexivity |]. intros Hkl. apply Hh.
        intros ->. apply Hne. eapply inv_inj; eauto.
      * destruct (processTick_new snapshot clk e tick config Hc Hen Hk)
          as (s' & _ & _ & _ & _ & _ & _ & Hm & Hh & _).
        split; [apply Hm, Hne |]. intros Hkl. apply Hh.
        intros ->. destruct (inv_state e HI k _ Hkl) as [s Hs].
        rewrite (inv_fresh_loc e HI) in Hs by lia. discriminate Hs.
    + rewrite processTick_disabled by (intros c Hc'; congruence).
      destruct (clearSymbolState_result (instrument_token tick) e)
        as (Hm & _ & _ & _ & _ & _ & _ & Hh & _).
      rewrite Hm. split; [apply lookup_delete_ne; auto |]. intros Hkl. apply Hh.
      intros Hkl'. apply Hne. eapply inv_inj; eauto.
  - rewrite processTick_disabled by (intros c Hc'; congruence).
    destruct (clearSymbolState_result (instrument_token tick) e)
      as (Hm & _ & _ & _ & _ & _ & _ & Hh & _).
    rewrite Hm. split; [apply lookup_delete_ne; auto |]. intros Hkl. apply Hh.
    intros Hkl'. apply Hne. eapply inv_inj; eauto.
Qed.

(** *** Timers are only ever added with a fresh handle *)

Lemma processTick_timers snapshot clk e tick id t :
  timers (processTick snapshot clk e tick) !! id = Some t ->
  timers e !! id = Some t \/
  (id = next_timer e /\ tmTick t = tick /\
   configurations e !! instrument_token tick = Some (tmConfig t) /\
   fireAt t = now clk + duration (tmConfig t) * 1000).
Proof.
  destruct (configurations e !! instrument_token tick) as [config |] eqn:Hc.
  - destruct (enabled config) eqn:Hen.
    + destruct (symbolStates e !! instrument_token tick) as [l |] eqn:Hk.
      * destruct (heap e !! l) as [st |] eqn:Hst.
        -- destruct (processTick_existing snapshot clk e tick config l st Hc Hen
                       ltac:(apply getState_Some; auto))
             as (s' & _ & [(_ & _ & _ & _ & _ & Ht & _) | [(_ & _ & _ & _ & Ht & _) |
                                                            (_ & _ & _ & _ & _ & Ht & _)]]);
             rewrite Ht.
           ++ intros H. apply lookup_insert_Some in H as [[<- <-] | [_ H]].
              ** right. repeat split; auto.
              ** left. apply clearTimerOf_timers in H. tauto.
           ++ intros H. left. apply clearTimerOf_timers in H. tauto.
           ++ auto.
        -- unfold processTick. rewrite Hc, Hen. cbn [negb]. rewrite Hk, Hst. auto.
      * destruct (processTick_new snapshot clk e tick config Hc Hen Hk)
          as (s' & _ & _ & _ & _ & Ht & _).
        rewrite Ht. destruct (shouldAlertFor tick config clk); [| auto].
        intros H. apply lookup_insert_Some in H as [[<- <-] | [_ H]]; [| auto].
        right. repeat split; auto.
    + rewrite processTick_disabled by (intros c Hc'; congruence).
      intros H. left. eapply clearSymbolState_result, H.
  - rewrite processTick_disabled by (intros c Hc'; congruence).
    intros H. left. eapply clearSymbolState_result, H.
Qed.

Lemma processTick_next_timer snapshot clk e tick :
  (next_timer e <= next_timer (processTick snapshot clk e tick))%nat.
Proof.
  destruct (configurations e !! instrument_token tick) as [config |] eqn:Hc.
  - destruct (enabled config) eqn:Hen.
    + destruct (symbolStates e !! instrument_token tick) as [l |] eqn:Hk.
      * destruct (heap e !! l) as [st |] eqn:Hst.
        -- destruct (processTick_existing snapshot clk e tick config l st Hc Hen
                       ltac:(apply getState_Some; auto))
             as (s' & _ & [(_ & _ & _ & _ & _ & _ & Hn) | [(_ & _ & _ & _ & _ & Hn) |
                                                            (_ & _ & _ & _ & _ & _ & Hn)]]);
             rewrite Hn; lia.
        -- unfold processTick. rewrite Hc, Hen. cbn [negb]. rewrite Hk, Hst. lia.
      * destruct (processTick_new snapshot clk e tick config Hc Hen Hk)
          as (s' & _ & _ & _ & _ & _ & Hn & _).
        rewrite Hn. destruct (shouldAlertFor tick config clk); lia.
    + rewrite processTick_disabled by (intros c Hc'; congruence).
      destruct (clearSymbolState_result (instrument_token tick) e) as (_ & _ & _ & _ & Hn & _).
      rewrite Hn. lia.
  - rewrite processTick_disabled by (intros c Hc'; congruence).
    destruct (clearSymbolState_result (instrument_token tick) e) as (_ & _ & _ & _ & Hn & _).
    rewrite Hn. lia.
Qed.

Lemma playAlertSound_frame k e :
  configurations (playAlertSound k e) = configurations e /\
  alerts (playAlertSound k e) = alerts e /\
  inactiveSymbols (playAlertSound k e) = inactiveSymbols e /\
  symbolStates (playAlertSound k e) = symbolStates e /\
  timers (playAlertSound k e) = timers e /\
  next_timer (playAlertSound k e) = next_timer e /\
  next_loc (playAlertSound k e) = next_loc e /\
  monitorsKept e (playAlertSound k e).
Proof.
  unfold playAlertSound. destruct (audioContext e); cbn [negb];
    [| repeat split; apply monitorsKept_refl].
  pose proof (stopAlertSound_frame k e) as (Hc & Ha & Hi & Hm & Ht & Hn & Hl & _).
  pose proof (stopAlertSound_monitorsKept k e) as Hk.
  set (e1 := stopAlertSound k e) in *. proj.
  assert (Hkept : forall l, monitorsKept e
            (update l (set_sound (Some (next_node e1)) (Some (S (next_node e1))))
               (with_audio true ({[next_node e1]} ∪ playing e1) (S (S (next_node e1))) e1))).
  { intros l l'. specialize (Hk l'). proj. rewrite lookup_alter. case_decide.
    - subst l'. destruct (heap e !! l) as [s |].
      + destruct Hk as (s' & -> & Hs). eexists. split; [reflexivity |]. exact Hs.
      + rewrite Hk. reflexivity.
    - exact Hk. }
  destruct (symbolStates e1 !! k) as [l |]; proj.
  - rewrite Hc, Ha, Hi, Hm, Ht, Hn, Hl. repeat split. apply Hkept.
  - rewrite Hc, Ha, Hi, Hm, Ht, Hn, Hl. repeat split. exact Hk.
Qed.

(** Raising the alert: one entry at the head of the capped log, the
    instrument marked inactive; monitors, timers and configuration stay. *)
Lemma triggerAlert_result tick config l clk e s :
  heap e !! l = Some s ->
  alerts (triggerAlert tick config l clk e) = take 100 (newAlert tick config s clk :: alerts e) /\
  inactiveSymbols (triggerAlert tick config l clk e)
    = {[instrument_token tick]} ∪ inactiveSymbols e /\
  configurations (triggerAlert tick config l clk e) = configurations e /\
  symbolStates (triggerAlert tick config l clk e) = symbolStates e /\
  timers (triggerAlert tick config l clk e) = timers e /\
  next_timer (triggerAlert tick config l clk e) = next_timer e /\
  monitorsKept e (triggerAlert tick config l clk e).
Proof.
  intros Hs. unfold triggerAlert. rewrite Hs.
  set (e2 := with_inactiveSymbols _ _).
  pose proof (playAlertSound_frame (instrument_token tick) e2)
    as (Hc & Ha & Hi & Hm & Ht & Hn & _ & Hk).
  rewrite Hc, Ha, Hi, Hm, Ht, Hn. repeat split. exact Hk.
Qed.

Lemma triggerAlert_timers tick config l clk e :
  timers (triggerAlert tick config l clk e) = timers e /\
  next_timer (triggerAlert tick config l clk e) = next_timer e.
Proof.
  destruct (heap e !! l) as [s |] eqn:Hs.
  - destruct (triggerAlert_result tick config l clk e s Hs) as (_ & _ & _ & _ & Ht & Hn & _).
    auto.
  - unfold triggerAlert. rewrite Hs. auto.
Qed.

(** An expiry adds no timer. *)
Lemma fireTimer_timers id clk e id' t :
  timers (fireTimer id clk e) !! id' = Some t -> timers e !! id' = Some t.
Proof.
  unfold fireTimer. destruct (timers e !! id) as [tm |] eqn:Htm; [| auto].
  destruct (fireAt tm <=? now clk); [| auto].
  assert (Hdel : timers (clearTimeout id e) !! id' = Some t -> timers e !! id' = Some t).
  { proj. intros H. apply lookup_delete_Some in H. tauto. }
  unfold timerCallback. destruct (if respectMarketHours (tmConfig tm) then _ else true).
  - rewrite (proj1 (triggerAlert_timers _ _ _ _ _)). exact Hdel.
  - intros H. apply clearSymbolState_result in H.
    rewrite (proj1 (proj2 (proj2 (proj2 (proj2 (stopAlertSound_frame _ _)))))) in H.
    apply Hdel, H.
Qed.

Lemma fireTimer_next_timer id clk e : next_timer (fireTimer id clk e) = next_timer e.
Proof.
  unfold fireTimer. destruct (timers e !! id) as [tm |]; [| reflexivity].
  destruct (fireAt tm <=? now clk); [| reflexivity].
  unfold timerCallback. destruct (if respectMarketHours (tmConfig tm) then _ else true).
  - rewrite (proj2 (triggerAlert_timers _ _ _ _ _)). reflexivity.
  - rewrite (proj1 (proj2 (proj2 (proj2 (proj2 (clearSymbolState_result _ _)))))).
    rewrite (proj1 (proj2 (proj2 (proj2 (proj2 (proj2 (stopAlertSound_frame _ _))))))).
    reflexivity.
Qed.

Lemma clearAllAlerts_frame e :
  configurations (clearAllAlerts e) = configurations e /\
  symbolStates (clearAllAlerts e) = symbolStates e /\
  timers (clearAllAlerts e) = timers e /\
  next_timer (clearAllAlerts e) = next_timer e /\
  next_loc (clearAllAlerts e) = next_loc e /\
  monitorsKept e (clearAllAlerts e).
Proof.
  unfold clearAllAlerts. proj.
  apply (fold_left_preserves
           (fun a : Engine =>
              configurations a = configurations e /\ symbolStates a = symbolStates e /\
              timers a = timers e /\ next_timer a = next_timer e /\
              next_loc a = next_loc e /\ monitorsKept e a)).
  - intros a kv (Hc & Hm & Ht & Hn & Hl & Hk).
    pose proof (stopAlertSound_frame (fst kv) a) as (Hc' & _ & _ & Hm' & Ht' & Hn' & Hl' & _).
    rewrite Hc', Hm', Ht', Hn', Hl'. repeat split; auto.
    eapply monitorsKept_trans; [exact Hk | apply stopAlertSound_monitorsKept].
  - repeat split. exact (monitorsKept_refl e).
Qed.

(** Over any event, a handle that is armed afterwards was armed before or
    is fresh; the counter of handles never decreases. *)
Lemma step_timers e ev id t :
  timers (step e ev) !! id = Some t ->
  timers e !! id = Some t \/ (next_timer e <= id)%nat.
Proof.
  destruct ev as [ticks clk | id' clk | k config | |]; cbn [step].
  - unfold effect. generalize (inactiveSymbols e) as snap. intros snap.
    generalize (map snd (latestTicks ticks)) as l. intros l. revert e.
    induction l as [| tick l IH]; intros e; cbn [fold_left]; [auto |].
    intros H. apply IH in H as [H | H].
    + apply processTick_timers in H as [H | (-> & _)]; [auto | right; lia].
    + right. pose proof (processTick_next_timer snap clk e tick). lia.
  - intros H. left. eapply fireTimer_timers, H.
  - intros H. left. eapply clearSymbolState_result in H. exact H.
  - rewrite (proj1 (proj2 (proj2 (clearAllAlerts_frame e)))). auto.
  - auto.
Qed.

Lemma step_next_timer e ev : (next_timer e <= next_timer (step e ev))%nat.
Proof.
  destruct ev as [ticks clk | id' clk | k config | |]; cbn [step].
  - unfold effect. generalize (inactiveSymbols e) as snap. intros snap.
    generalize (map snd (latestTicks ticks)) as l. intros l. revert e.
    induction l as [| tick l IH]; intros e; cbn [fold_left]; [lia |].
    pose proof (processTick_next_timer snap clk e tick). specialize (IH (processTick snap clk e tick)).
    lia.
  - rewrite fireTimer_next_timer. lia.
  - unfold updateConfiguration.
    rewrite (proj1 (proj2 (proj2 (proj2 (proj2 (clearSymbolState_result _ _)))))). cbn. lia.
  - rewrite (proj1 (proj2 (proj2 (proj2 (clearAllAlerts_frame e))))). lia.
  - cbn. lia.
Qed.

(** A handle that was issued and is not armed is never armed again: its
    callback cannot run. *)
Lemma stale_forever evs e id :
  (id < next_timer e)%nat -> timers e !! id = None ->
  timers (run evs e) !! id = None.
Proof.
  unfold run. revert e. induction evs as [| ev evs IH]; intros e Hlt Hnone; cbn [fold_left];
    [exact Hnone |].
  apply IH.
  - pose proof (step_next_timer e ev). lia.
  - destruct (timers (step e ev) !! id) as [t |] eqn:Ht; [| reflexivity].
    apply step_timers in Ht as [Ht | Ht]; [congruence | lia].
Qed.

Lemma fireTimer_not_armed id clk e : timers e !! id = None -> fireTimer id clk e = e.
Proof. intros H. unfold fireTimer. rewrite H. reflexivity. Qed.

(** *** Expiry of a timer *)

(** At expiry, the captured state object is the current monitor of the
    instrument. *)
Lemma armed_timer_state id t e :
  Inv e -> timers e !! id = Some t ->
  exists s, getState (instrument_token (tmTick t)) e = Some (tmState t, s) /\
            timerId s = Some id /\ priceHistory s <> [].
Proof.
  intros HI Ht. destruct (inv_timer e HI id t Ht) as (Hm & s & Hs & Hid).
  exists s. split; [apply getState_Some; auto |]. split; [exact Hid |].
  eapply inv_history; eauto.
Qed.

(** Market open at expiry (or hours not respected): the alert is built from
    the monitor's baseline and retained history and from the tick that
    armed the timer; the instrument is marked inactive. *)
Lemma expiry_open id t clk e s :
  timers e !! id = Some t -> fireAt t <= now clk ->
  heap e !! tmState t = Some s ->
  shouldAlertFor (tmTick t) (tmConfig t) clk = true ->
  alerts (fireTimer id clk e)
    = take 100 (newAlert (tmTick t) (tmConfig t) s clk :: alerts e) /\
  instrument_token (tmTick t) ∈ inactiveSymbols (fireTimer id clk e) /\
  symbolStates (fireTimer id clk e) = symbolStates e /\
  timers (fireTimer id clk e) = delete id (timers e) /\
  monitorsKept e (fireTimer id clk e).
Proof.
  intros Ht Hdue Hs Hsa. unfold fireTimer. rewrite Ht.
  apply Z.leb_le in Hdue. rewrite Hdue. unfold timerCallback.
  fold (shouldAlertFor (tmTick t) (tmConfig t) clk). rewrite Hsa.
  destruct (triggerAlert_result (tmTick t) (tmConfig t) (tmState t) clk (clearTimeout id e) s Hs)
    as (Ha & Hi & _ & Hm & Htm & _ & Hk).
  rewrite Ha, Hi, Hm, Htm. repeat split; [| exact Hk].
  apply elem_of_union_l, elem_of_singleton. reflexivity.
Qed.

(** Market closed at expiry: the monitor is destroyed, no alert is raised
    and the instrument is not inactive. *)
Lemma expiry_closed id t clk e :
  timers e !! id = Some t -> fireAt t <= now clk ->
  shouldAlertFor (tmTick t) (tmConfig t) clk = false ->
  alerts (fireTimer id clk e) = alerts e /\
  symbolStates (fireTimer id clk e) !! instrument_token (tmTick t) = None /\
  instrument_token (tmTick t) ∉ inactiveSymbols (fireTimer id clk e).
Proof.
  intros Ht Hdue Hsa. unfold fireTimer. rewrite Ht.
  apply Z.leb_le in Hdue. rewrite Hdue. unfold timerCallback.
  fold (shouldAlertFor (tmTick t) (tmConfig t) clk). rewrite Hsa.
  destruct (clearSymbolState_result (instrument_token (tmTick t))
              (stopAlertSound (instrument_token (tmTick t)) (clearTimeout id e)))
    as (Hm & _ & Ha & Hi & _).
  rewrite Ha, Hm, Hi.
  rewrite (proj1 (proj2 (stopAlertSound_frame _ _))).
  split; [reflexivity |]. split; [apply lookup_delete_eq |].
  intros Hin. apply elem_of_difference in Hin as [_ Hin].
  apply Hin, elem_of_singleton. reflexivity.
Qed.

(** The alert carries the price of the tick captured when the timer was
    armed. *)
Lemma newAlert_fields tick config s clk :
  baselinePrice (newAlert tick config s clk) = stBaselinePrice s /\
  currentPrice (newAlert tick config s clk) = last_price tick /\
  priceRange (newAlert tick config s clk)
    = (Math_min (map fst (priceHistory s)), Math_max (map fst (priceHistory s))) /\
  instrumentToken (newAlert tick config s clk) = instrument_token tick /\
  alertDuration (newAlert tick config s clk) = duration config /\
  alertDeviation (newAlert tick config s clk) = deviation config.
Proof.
  unfold newAlert. destruct (getDetailedMarketStatus _ _) as [status mtype].
  repeat split.
Qed.

End EngineTransitions.


(** ** The latest tick per instrument *)

Section LatestTicks.
Import Tick Inactivity.

Lemma map_get_set_eq k v m : map_get k (map_set k v m) = Some v.
Proof.
  induction m as [| [k' v'] m IH]; cbn; [rewrite Z.eqb_refl; reflexivity |].
  destruct (k =? k') eqn:E; cbn; rewrite ?E, ?Z.eqb_refl; auto.
Qed.

Lemma map_get_set_ne k k' v m : k <> k' -> map_get k' (map_set k v m) = map_get k' m.
Proof.
  intros Hne. induction m as [| [k0 v0] m IH]; cbn.
  - destruct (k' =? k) eqn:E; [apply Z.eqb_eq in E; congruence | reflexivity].
  - destruct (k =? k0) eqn:E; cbn.
    + apply Z.eqb_eq in E. subst k0.
      destruct (k' =? k) eqn:E'; [apply Z.eqb_eq in E'; congruence | reflexivity].
    + destruct (k' =? k0); [reflexivity | exact IH].
Qed.

Lemma map_get_None k m : map_get k m = None <-> ~ In k (map fst m).
Proof.
  induction m as [| [k' v'] m IH]; cbn; [tauto |].
  destruct (k =? k') eqn:E.
  - apply Z.eqb_eq in E. subst. split; [discriminate | intros H; exfalso; auto].
  - apply Z.eqb_neq in E. rewrite IH. split; [intros H [H' | H']; auto | tauto].
Qed.

Lemma map_set_keys k v m :
  map fst (map_set k v m) =
    match map_get k m with Some _ => map fst m | None => (map fst m ++ [k])%list end.
Proof.
  induction m as [| [k' v'] m IH]; cbn; [reflexivity |].
  destruct (k =? k') eqn:E; cbn.
  - apply Z.eqb_eq in E. subst. reflexivity.
  - rewrite IH. destruct (map_get k m); reflexivity.
Qed.

Lemma map_set_NoDup k v m : NoDup (map fst m) -> NoDup (map fst (map_set k v m)).
Proof.
  intros H. rewrite map_set_keys. destruct (map_get k m) eqn:E; [exact H |].
  apply NoDup_app. split; [exact H |]. split; [| apply NoDup_singleton].
  intros x Hx Hk. apply list_elem_of_In in Hx. apply list_elem_of_In in Hk.
  destruct Hk as [<- | []]. apply map_get_None in E. auto.
Qed.

(** The entry of [k] splits the map in two parts without [k]. *)
Lemma map_get_split k v m :
  NoDup (map fst m) -> map_get k m = Some v ->
  exists pre post, m = (pre ++ (k, v) :: post)%list /\
                   ~ In k (map fst pre) /\ ~ In k (map fst post).
Proof.
  induction m as [| [k' v'] m IH]; cbn; [discriminate |].
  intros Hnd Hg. apply NoDup_cons in Hnd as [Hk' Hnd].
  destruct (k =? k') eqn:E.
  - apply Z.eqb_eq in E. subst k'. injection Hg as ->.
    exists [], m. split; [reflexivity |]. split; [auto |].
    intros Hin. apply Hk'. apply list_elem_of_In. exact Hin.
  - apply Z.eqb_neq in E. destruct (IH Hnd Hg) as (pre & post & -> & Hpre & Hpost).
    exists ((k', v') :: pre), post. split; [reflexivity |]. split; [| exact Hpost].
    cbn. intros [H | H]; auto.
Qed.

(** [latestTicks] keeps, for each instrument of the list, its tick of
    greatest receipt time (the first one among equals). *)
Lemma latestTicks_spec ticks :
  NoDup (map fst (latestTicks ticks)) /\
  (forall k v, map_get k (latestTicks ticks) = Some v ->
     instrument_token v = k /\ In v ticks /\
     forall t, In t ticks -> instrument_token t = k -> receivedAt t <= receivedAt v) /\
  (forall t, In t ticks -> map_get (instrument_token t) (latestTicks ticks) <> None).
Proof.
  unfold latestTicks. induction ticks as [| x ticks IH] using rev_ind.
  - cbn. split; [apply NoDup_nil_2 |]. split; [discriminate | tauto].
  - rewrite fold_left_app. cbn [fold_left].
    destruct IH as (Hnd & Hget & Hall).
    set (m := fold_left latestStep ticks []) in *.
    unfold latestStep.
    destruct (map_get (instrument_token x) m) as [t0 |] eqn:Ht0.
    + destruct (receivedAt x >? receivedAt t0) eqn:Hgt.
      * apply Z.gtb_lt in Hgt. split; [apply map_set_NoDup, Hnd |]. split.
        -- intros k v Hv. destruct (decide (instrument_token x = k)) as [<- | Hne].
           ++ rewrite map_get_set_eq in Hv. injection Hv as <-.
              split; [reflexivity |]. split; [apply in_or_app; right; left; reflexivity |].
              intros t Hin Htk. apply in_app_or in Hin as [Hin | [<- | []]]; [| lia].
              destruct (Hget _ _ Ht0) as (_ & _ & Hmax). specialize (Hmax t Hin Htk). lia.
           ++ rewrite map_get_set_ne in Hv by exact Hne.
              destruct (Hget _ _ Hv) as (Hk & Hin & Hmax).
              split; [exact Hk |]. split; [apply in_or_app; auto |].
              intros t Hin' Htk. apply in_app_or in Hin' as [Hin' | [<- | []]]; [auto |].
              congruence.
        -- intros t Hin. apply in_app_or in Hin as [Hin | [<- | []]].
           ++ destruct (decide (instrument_token x = instrument_token t)) as [Heq | Hne].
              ** rewrite <- Heq, map_get_set_eq. discriminate.
              ** rewrite map_get_set_ne by exact Hne. auto.
           ++ rewrite map_get_set_eq. discriminate.
      * rewrite Z.gtb_ltb in Hgt. apply Z.ltb_ge in Hgt. split; [exact Hnd |]. split.
        -- intros k v Hv. destruct (Hget _ _ Hv) as (Hk & Hin & Hmax).
           split; [exact Hk |]. split; [apply in_or_app; auto |].
           intros t Hin' Htk. apply in_app_or in Hin' as [Hin' | [<- | []]]; [auto |].
           rewrite <- Htk, Ht0 in Hv. injection Hv as <-. exact Hgt.
        -- intros t Hin. apply in_app_or in Hin as [Hin | [<- | []]]; [auto |].
           rewrite Ht0. discriminate.
    + split; [apply map_set_NoDup, Hnd |]. split.
      * intros k v Hv. destruct (decide (instrument_token x = k)) as [<- | Hne].
        -- rewrite map_get_set_eq in Hv. injection Hv as <-.
           split; [reflexivity |]. split; [apply in_or_app; right; left; reflexivity |].
           intros t Hin Htk. apply in_app_or in Hin as [Hin | [<- | []]]; [| lia].
           exfalso. apply (Hall t Hin). rewrite Htk. exact Ht0.
        -- rewrite map_get_set_ne in Hv by exact Hne.
           destruct (Hget _ _ Hv) as (Hk & Hin & Hmax).
           split; [exact Hk |]. split; [apply in_or_app; auto |].
           intros t Hin' Htk. apply in_app_or in Hin' as [Hin' | [<- | []]]; [auto |].
           congruence.
      * intros t Hin. apply in_app_or in Hin as [Hin | [<- | []]].
        -- destruct (decide (instrument_token x = instrument_token t)) as [Heq | Hne].
           ++ rewrite <- Heq, map_get_set_eq. discriminate.
           ++ rewrite map_get_set_ne by exact Hne. auto.
        -- rewrite map_get_set_eq. discriminate.
Qed.

(** Among the ticks of an instrument received at the same time, the one
    kept is the first of the list. *)
Lemma latestTicks_first ticks k v :
  map_get k (latestTicks ticks) = Some v ->
  exists pre post, ticks = (pre ++ v :: post)%list /\
    (forall t, In t pre -> instrument_token t = k -> receivedAt t < receivedAt v) /\
    (forall t, In t post -> instrument_token t = k -> receivedAt t <= receivedAt v).
Proof.
  unfold latestTicks. revert k v. induction ticks as [| x ticks IH] using rev_ind; intros k v.
  - cbn. discriminate.
  - rewrite fold_left_app. cbn [fold_left].
    destruct (latestTicks_spec ticks) as (_ & Hget & Hall). unfold latestTicks in Hget, Hall.
    set (m := fold_left latestStep ticks []) in *.
    assert (Hkeep : map_get k m = Some v ->
              (instrument_token x = k -> receivedAt x <= receivedAt v) ->
              exists pre post, (ticks ++ [x])%list = (pre ++ v :: post)%list /\
                (forall t, In t pre -> instrument_token t = k -> receivedAt t < receivedAt v) /\
                (forall t, In t post -> instrument_token t = k -> receivedAt t <= receivedAt v)).
    { intros Hv Hx. destruct (IH k v Hv) as (pre & post & -> & Hpre & Hpost).
      exists pre, (post ++ [x])%list. split; [rewrite <- app_assoc; reflexivity |].
      split; [exact Hpre |].
      intros t Hin Htk. apply in_app_or in Hin as [Hin | [<- | []]]; auto. }
    assert (Hnew : (forall t, In t ticks -> instrument_token t = instrument_token x ->
                              receivedAt t < receivedAt x) ->
              exists pre post, (ticks ++ [x])%list = (pre ++ x :: post)%list /\
                (forall t, In t pre -> instrument_token t = instrument_token x ->
                           receivedAt t < receivedAt x) /\
                (forall t, In t post -> instrument_token t = instrument_token x ->
                           receivedAt t <= receivedAt x)).
    { intros Hlt. exists ticks, []. split; [reflexivity |]. split; [exact Hlt |].
      intros t []. }
    unfold latestStep.
    destruct (map_get (instrument_token x) m) as [t0 |] eqn:Ht0.
    + destruct (receivedAt x >? receivedAt t0) eqn:Hgt.
      * apply Z.gtb_lt in Hgt. destruct (decide (instrument_token x = k)) as [<- | Hne].
        -- rewrite map_get_set_eq. intros [= <-]. apply Hnew.
           intros t Hin Htk. destruct (Hget _ _ Ht0) as (_ & _ & Hmax).
           specialize (Hmax t Hin Htk). lia.
        -- rewrite map_get_set_ne by exact Hne. intros Hv. apply Hkeep; [exact Hv |].
           intros Hk. congruence.
      * rewrite Z.gtb_ltb in Hgt. apply Z.ltb_ge in Hgt. intros Hv.
        apply Hkeep; [exact Hv |]. intros Hk. rewrite <- Hk, Ht0 in Hv.
        injection Hv as <-. exact Hgt.
    + destruct (decide (instrument_token x = k)) as [<- | Hne].
      * rewrite map_get_set_eq. intros [= <-]. apply Hnew.
        intros t Hin Htk. exfalso. apply (Hall t Hin). rewrite Htk. exact Ht0.
      * rewrite map_get_set_ne by exact Hne. intros Hv. apply Hkeep; [exact Hv |].
        intros Hk. congruence.
Qed.

(** Every entry of the map is keyed by the instrument of its tick. *)
Lemma latestTicks_keys ticks k v :
  In (k, v) (latestTicks ticks) -> instrument_token v = k.
Proof.
  intros Hin. destruct (latestTicks_spec ticks) as (Hnd & Hget & _).
  assert (Hg : map_get k (latestTicks ticks) = Some v).
  { revert Hnd Hin. generalize (latestTicks ticks) as m.
    induction m as [| [k' v'] m IH]; cbn; [tauto |].
    intros Hnd [[= -> ->] | Hin]; [rewrite Z.eqb_refl; reflexivity |].
    apply NoDup_cons in Hnd as [Hk' Hnd].
    destruct (k =? k') eqn:E; [| auto].
    apply Z.eqb_eq in E. subst k'. exfalso. apply Hk'.
    apply list_elem_of_In, in_map_iff. exists (k, v). auto. }
  apply Hget in Hg. tauto.
Qed.

End LatestTicks.


(** ** Inactivity engine: timers, movement, expiry *)

Section EngineClaims.
Import JsMath MarketTimings Tick Inactivity EngineInvariant EngineScenarios.

Lemma monitored_reachable : reachable monitored.
Proof. eexists. reflexivity. Qed.

Lemma armed_below_counter k id e : Inv e -> armed k id e -> (id < next_timer e)%nat.
Proof.
  intros HI (t & Ht & _). destruct (le_lt_dec (next_timer e) id) as [Hle | Hlt]; [| exact Hlt].
  rewrite (inv_fresh_timer e HI id Hle) in Ht. discriminate Ht.
Qed.

(** Movement or reopening on a monitored instrument: the new timer is the
    only armed timer of the instrument. *)
Lemma restarted_single_timer snapshot clk e tick config l s :
  Inv e ->
  configurations e !! instrument_token tick = Some config -> enabled config = true ->
  getState (instrument_token tick) e = Some (l, s) ->
  shouldAlertFor tick config clk = true ->
  priceMoved (last_price tick) (stBaselinePrice s) (deviation config) = true ->
  exists s',
    getState (instrument_token tick) (processTick snapshot clk e tick) = Some (l, s') /\
    stBaselinePrice s' = last_price tick /\
    timerId s' = Some (next_timer e) /\
    priceHistory s' = [(last_price tick, now clk)] /\
    timers (processTick snapshot clk e tick) !! next_timer e
      = Some (armedTimer tick config l clk) /\
    armedFor (instrument_token tick) (processTick snapshot clk e tick) = [next_timer e].
Proof.
  intros HI Hc Hen Hg Hsa Hmv.
  destruct (processTick_existing snapshot clk e tick config l s Hc Hen Hg)
    as (s' & Hg' & [(_ & _ & Hb & Hid & Hh & Ht & _) | [(Hsa' & _) | (_ & Hmv' & _)]]);
    [| congruence | congruence].
  exists s'. split; [exact Hg' |]. split; [exact Hb |]. split; [exact Hid |].
  split; [exact Hh |].
  assert (Hnew : timers (processTick snapshot clk e tick) !! next_timer e
                 = Some (armedTimer tick config l clk)).
  { rewrite Ht. apply lookup_insert_eq. }
  split; [exact Hnew |].
  apply armedFor_singleton; [apply Inv_processTick, HI |].
  exists (armedTimer tick config l clk). split; [exact Hnew | reflexivity].
Qed.

(** A tick on a monitored instrument whose price moved, or that arrives
    while alerts must not be active, disarms the pending timer for good. *)
Lemma pending_timer_cancelled snapshot clk e tick config l s old :
  Inv e ->
  configurations e !! instrument_token tick = Some config -> enabled config = true ->
  getState (instrument_token tick) e = Some (l, s) ->
  priceMoved (last_price tick) (stBaselinePrice s) (deviation config) = true \/
  shouldAlertFor tick config clk = false ->
  armed (instrument_token tick) old e ->
  timers (processTick snapshot clk e tick) !! old = None /\
  (old < next_timer (processTick snapshot clk e tick))%nat.
Proof.
  intros HI Hc Hen Hg Hwhy Ha.
  pose proof (armed_below_counter _ _ _ HI Ha) as Hlt.
  destruct (armed_is_held _ _ _ HI Ha) as (l' & s0 & Hg0 & Hid0).
  rewrite Hg in Hg0. injection Hg0 as <- <-.
  assert (Hclr : timers (clearTimerOf s e) !! old = None).
  { destruct (timers (clearTimerOf s e) !! old) as [t |] eqn:Ht; [| reflexivity].
    apply clearTimerOf_timers in Ht. tauto. }
  pose proof (processTick_next_timer snapshot clk e tick) as Hmono.
  split; [| lia].
  destruct (processTick_existing snapshot clk e tick config l s Hc Hen Hg)
    as (s' & Hg' & [(_ & _ & _ & _ & _ & Ht & _) | [(_ & _ & _ & _ & Ht & _) |
                                                     (Hsa & Hmv & _)]]).
  - rewrite Ht, lookup_insert_ne by lia. exact Hclr.
  - rewrite Ht. exact Hclr.
  - destruct Hwhy; congruence.
Qed.

Lemma monitorsKept_heap e e' : heap e' = heap e -> monitorsKept e e'.
Proof.
  intros H l. rewrite H. destruct (heap e !! l); [eauto using sameMonitor_refl | reflexivity].
Qed.

Lemma fireTimer_monitorsKept id clk e : monitorsKept e (fireTimer id clk e).
Proof.
  unfold fireTimer. destruct (timers e !! id) as [t |]; [| apply monitorsKept_refl].
  destruct (fireAt t <=? now clk); [| apply monitorsKept_refl].
  apply (monitorsKept_trans e (clearTimeout id e)); [apply monitorsKept_heap; reflexivity |].
  unfold timerCallback. destruct (if respectMarketHours (tmConfig t) then _ else true).
  - destruct (heap (clearTimeout id e) !! tmState t) as [s |] eqn:Hs.
    + apply (triggerAlert_result (tmTick t) (tmConfig t) (tmState t) clk (clearTimeout id e) s Hs).
    + unfold triggerAlert. rewrite Hs. apply monitorsKept_refl.
  - eapply monitorsKept_trans; [apply stopAlertSound_monitorsKept |].
    apply clearSymbolState_result.
Qed.

(** *** Handles are held by one object *)

Lemma Owned_init : Owned init.
Proof. intros l s id H. cbn in H. rewrite lookup_empty in H. discriminate H. Qed.

Lemma Owned_kept e e' :
  monitorsKept e e' ->
  (forall id t, timers e' !! id = Some t -> timers e !! id = Some t) ->
  (next_timer e <= next_timer e')%nat ->
  Owned e -> Owned e'.
Proof.
  intros K Ht Hn H l s' id Hs' Hid. specialize (K l).
  destruct (heap e !! l) as [s |] eqn:E.
  - destruct K as (s'' & Hs'' & (_ & Hti & _)). rewrite Hs' in Hs''. injection Hs'' as <-.
    rewrite Hti in Hid. destruct (H l s id E Hid) as [Hlt Hown].
    split; [lia |]. intros t Ht'. apply Hown, Ht, Ht'.
  - rewrite K in Hs'. discriminate Hs'.
Qed.

(** An object that the tick does not touch keeps its handle, and the handle
    stays its own. *)
Lemma Owned_untouched snapshot clk e tick l s id :
  Owned e -> heap e !! l = Some s -> timerId s = Some id ->
  (id < next_timer (processTick snapshot clk e tick))%nat /\
  forall t, timers (processTick snapshot clk e tick) !! id = Some t -> tmState t = l.
Proof.
  intros H Hs Hid. destruct (H l s id Hs Hid) as [Hlt Hown].
  pose proof (processTick_next_timer snapshot clk e tick) as Hmono.
  split; [lia |]. intros t Ht.
  apply processTick_timers in Ht as [Ht | (-> & _)]; [apply Hown, Ht | lia].
Qed.

Lemma Owned_processTick snapshot clk e tick :
  Inv e -> Owned e -> Owned (processTick snapshot clk e tick).
Proof.
  intros HI H.
  destruct (configurations e !! instrument_token tick) as [config |] eqn:Hc.
  2:{ rewrite processTick_disabled by (intros c Hc'; congruence).
      destruct (clearSymbolState_result (instrument_token tick) e)
        as (_ & _ & _ & _ & Hn & _ & Ht & _ & K).
      eapply Owned_kept; [exact K | exact Ht | rewrite Hn; lia | exact H]. }
  destruct (enabled config) eqn:Hen.
  2:{ rewrite processTick_disabled by (intros c Hc'; congruence).
      destruct (clearSymbolState_result (instrument_token tick) e)
        as (_ & _ & _ & _ & Hn & _ & Ht & _ & K).
      eapply Owned_kept; [exact K | exact Ht | rewrite Hn; lia | exact H]. }
  destruct (symbolStates e !! instrument_token tick) as [l0 |] eqn:Hk.
  - destruct (inv_state e HI _ _ Hk) as [st Hst].
    assert (Hg : getState (instrument_token tick) e = Some (l0, st))
      by (apply getState_Some; auto).
    destruct (processTick_onlyAt snapshot clk e tick config l0 Hc Hen Hk)
      as (_ & _ & _ & _ & Hother).
    destruct (processTick_existing snapshot clk e tick config l0 st Hc Hen Hg)
      as (s' & Hg' & Hcases).
    apply getState_Some in Hg' as [_ Hs'].
    intros l s id Hs Hid. destruct (decide (l = l0)) as [-> | Hne].
    + rewrite Hs' in Hs. injection Hs as <-.
      destruct Hcases as [(_ & _ & _ & Hid' & _ & Ht & Hn) | [(_ & Hid' & _) |
                                                              (_ & _ & Hid' & _ & _ & Ht & Hn)]].
      * rewrite Hid' in Hid. injection Hid as <-. rewrite Hn. split; [lia |].
        intros t. rewrite Ht, lookup_insert_eq. intros [= <-]. reflexivity.
      * congruence.
      * rewrite Hid' in Hid. rewrite Hn, Ht. apply (H l0 st id Hst Hid).
    + rewrite (Hother l Hne) in Hs. eapply Owned_untouched; eauto.
  - destruct (processTick_new snapshot clk e tick config Hc Hen Hk)
      as (s' & Hg' & _ & _ & Hid' & Ht & Hn & _ & Hother & _).
    apply getState_Some in Hg' as [_ Hs'].
    intros l s id Hs Hid. destruct (decide (l = next_loc e)) as [-> | Hne].
    + rewrite Hs' in Hs. injection Hs as <-. rewrite Hid' in Hid.
      destruct (shouldAlertFor tick config clk); [| discriminate Hid].
      injection Hid as <-. rewrite Hn. split; [lia |].
      intros t. rewrite Ht, lookup_insert_eq. intros [= <-]. reflexivity.
    + rewrite (Hother l Hne) in Hs. eapply Owned_untouched; eauto.
Qed.

Lemma Owned_step e ev : Inv e -> Owned e -> Owned (step e ev).
Proof.
  intros HI H. destruct ev as [ticks clk | id clk | token config | |]; cbn [step].
  - unfold effect. generalize (inactiveSymbols e) as snap. intros snap.
    apply (fold_left_preserves (fun a : Engine => Inv a /\ Owned a)); [| auto].
    intros a b [Ia Ha]. split; [apply Inv_processTick, Ia | apply Owned_processTick; auto].
  - eapply Owned_kept; [apply fireTimer_monitorsKept | | | exact H].
    + intros id' t. apply fireTimer_timers.
    + rewrite fireTimer_next_timer. lia.
  - unfold updateConfiguration.
    destruct (clearSymbolState_result token
                (with_configurations (<[token := config]> (configurations e)) e))
      as (_ & _ & _ & _ & Hn & _ & Ht & _ & K).
    eapply Owned_kept; [exact K | exact Ht | rewrite Hn; cbn; lia |].
    exact H.
  - destruct (clearAllAlerts_frame e) as (_ & _ & Ht & Hn & _ & K).
    eapply Owned_kept; [exact K | rewrite Ht; auto | rewrite Hn; lia | exact H].
  - exact H.
Qed.

Lemma Owned_reachable e : reachable e -> Inv e /\ Owned e.
Proof.
  intros [evs ->]. unfold run.
  apply (fold_left_preserves (fun a : Engine => Inv a /\ Owned a));
    [| split; [apply Inv_init | apply Owned_init]].
  intros a ev [Ia Ha]. split; [apply Inv_step, Ia | apply Owned_step; auto].
Qed.

(** The handle of another instrument's monitor is not the one of an armed
    timer of [k]. *)
Lemma other_handle e k k' l s id t :
  Inv e -> Owned e -> timers e !! id = Some t -> instrument_token (tmTick t) = k ->
  k' <> k -> getState k' e = Some (l, s) -> timerId s <> Some id.
Proof.
  intros HI H Ht Htok Hne Hg Hid. apply getState_Some in Hg as [Hk' Hs].
  destruct (H l s id Hs Hid) as [_ Hown]. specialize (Hown t Ht).
  destruct (inv_timer e HI id t Ht) as (Hm & _). rewrite Htok, Hown in Hm.
  apply Hne. eapply inv_inj; eauto.
Qed.

(** A tick of another instrument leaves an armed timer armed. *)
Lemma processTick_keeps_timer snapshot clk e tick id t :
  Inv e -> Owned e -> timers e !! id = Some t ->
  instrument_token (tmTick t) <> instrument_token tick ->
  timers (processTick snapshot clk e tick) !! id = Some t.
Proof.
  intros HI H Ht Hne.
  assert (Hlt : (id < next_timer e)%nat).
  { destruct (le_lt_dec (next_timer e) id) as [Hle | Hlt]; [| exact Hlt].
    rewrite (inv_fresh_timer e HI id Hle) in Ht. discriminate Ht. }
  assert (Hno : forall l s, getState (instrument_token tick) e = Some (l, s) ->
                            timerId s <> Some id).
  { intros l s Hg. eapply other_handle; eauto. }
  destruct (configurations e !! instrument_token tick) as [config |] eqn:Hc.
  2:{ rewrite processTick_disabled by (intros c Hc'; congruence).
      apply clearSymbolState_keeps_timer; assumption. }
  destruct (enabled config) eqn:Hen.
  2:{ rewrite processTick_disabled by (intros c Hc'; congruence).
      apply clearSymbolState_keeps_timer; assumption. }
  destruct (symbolStates e !! instrument_token tick) as [l0 |] eqn:Hk.
  - destruct (inv_state e HI _ _ Hk) as [st Hst].
    assert (Hg : getState (instrument_token tick) e = Some (l0, st))
      by (apply getState_Some; auto).
    assert (Hclr : timers (clearTimerOf st e) !! id = Some t).
    { apply clearTimerOf_timers. split; [exact Ht | eapply Hno, Hg]. }
    destruct (processTick_existing snapshot clk e tick config l0 st Hc Hen Hg)
      as (s' & _ & [(_ & _ & _ & _ & _ & Htm & _) | [(_ & _ & _ & _ & Htm & _) |
                                                     (_ & _ & _ & _ & _ & Htm & _)]]);
      rewrite Htm.
    + rewrite lookup_insert_ne by lia. exact Hclr.
    + exact Hclr.
    + exact Ht.
  - destruct (processTick_new snapshot clk e tick config Hc Hen Hk)
      as (s' & _ & _ & _ & _ & Htm & _).
    rewrite Htm. destruct (shouldAlertFor tick config clk); [| exact Ht].
    rewrite lookup_insert_ne by lia. exact Ht.
Qed.

(** Ticks of other instruments: alerts, and the timers of [token]. *)
Lemma fold_other_timers snap clk token (ts : list TickData) :
  (forall t, In t ts -> instrument_token t <> token) ->
  forall a, Inv a -> Owned a ->
    Owned (fold_left (processTick snap clk) ts a) /\
    (forall id t, timers a !! id = Some t -> instrument_token (tmTick t) = token ->
                  timers (fold_left (processTick snap clk) ts a) !! id = Some t).
Proof.
  induction ts as [| x ts IH]; intros Hts a HI HO; cbn [fold_left]; [auto |].
  assert (Hne : instrument_token x <> token) by (apply Hts; left; reflexivity).
  pose proof (Inv_processTick snap clk a x HI) as HI1.
  pose proof (Owned_processTick snap clk a x HI HO) as HO1.
  destruct (IH (fun t' H => Hts t' (or_intror H)) _ HI1 HO1) as (HO2 & Hkeep).
  split; [exact HO2 |]. intros id t Ht Htok. apply Hkeep; [| exact Htok].
  apply processTick_keeps_timer; auto. congruence.
Qed.

(** Over a run of the body, a handle that is armed afterwards was armed
    before or is fresh; the counter never decreases and no alert is
    raised. *)
Lemma fold_timers snap clk (ts : list TickData) a :
  (forall id t, timers (fold_left (processTick snap clk) ts a) !! id = Some t ->
                timers a !! id = Some t \/ (next_timer a <= id)%nat) /\
  (next_timer a <= next_timer (fold_left (processTick snap clk) ts a))%nat /\
  alerts (fold_left (processTick snap clk) ts a) = alerts a.
Proof.
  revert a. induction ts as [| x ts IH]; intros a; cbn [fold_left].
  - split; [auto |]. split; [lia | reflexivity].
  - destruct (IH (processTick snap clk a x)) as (Ht & Hn & Ha).
    pose proof (processTick_next_timer snap clk a x) as Hmono.
    split; [| split].
    + intros id t H. apply Ht in H as [H | H]; [| right; lia].
      apply processTick_timers in H as [H | (-> & _)]; [auto | right; lia].
    + lia.
    + rewrite Ha. apply processTick_quiet.
Qed.

(** C1: in every reachable state each instrument has at most one armed
    timer.  A tick that moves the price beyond the deviation leaves exactly
    the newly armed timer; a configuration change leaves none; a tick that
    arrives while the market is closed (hours respected) leaves none. *)
Theorem C1_at_most_one_armed_timer (e : Engine) :
  reachable e ->
  (forall token, (length (armedFor token e) <= 1)%nat) /\
  (forall snapshot clk tick config l s,
     configurations e !! instrument_token tick = Some config -> enabled config = true ->
     getState (instrument_token tick) e = Some (l, s) ->
     shouldAlertFor tick config clk = true ->
     priceMoved (last_price tick) (stBaselinePrice s) (deviation config) = true ->
     armedFor (instrument_token tick) (processTick snapshot clk e tick) = [next_timer e] /\
     ~ In (next_timer e) (armedFor (instrument_token tick) e)) /\
  (forall token config, armedFor token (updateConfiguration token config e) = []) /\
  (forall snapshot clk tick config,
     configurations e !! instrument_token tick = Some config -> enabled config = true ->
     shouldAlertFor tick config clk = false ->
     armedFor (instrument_token tick) (processTick snapshot clk e tick) = []).
Proof.
  intros Hr. pose proof (Inv_reachable e Hr) as HI.
  split; [| split; [| split]].
  - intros token. apply at_most_one_armed, HI.
  - intros snapshot clk tick config l s Hc Hen Hg Hsa Hmv.
    destruct (restarted_single_timer snapshot clk e tick config l s HI Hc Hen Hg Hsa Hmv)
      as (s' & _ & _ & _ & _ & _ & Harmed).
    split; [exact Harmed |].
    intros Hin. apply armedFor_armed in Hin.
    pose proof (armed_below_counter _ _ _ HI Hin). lia.
  - intros token config. apply no_monitor_no_timer; [apply Inv_updateConfiguration, HI |].
    unfold updateConfiguration.
    rewrite (proj1 (clearSymbolState_result _ _)). apply lookup_delete_eq.
  - intros snapshot clk tick config Hc Hen Hsa.
    pose proof (Inv_processTick snapshot clk e tick HI) as HI'.
    destruct (symbolStates e !! instrument_token tick) as [l |] eqn:Hk.
    + destruct (inv_state e HI _ _ Hk) as [s Hs].
      assert (Hg : getState (instrument_token tick) e = Some (l, s))
        by (apply getState_Some; auto).
      destruct (processTick_existing snapshot clk e tick config l s Hc Hen Hg)
        as (s' & Hg' & [(Hsa' & _) | [(_ & Hid & _) | (Hsa' & _)]]); [congruence | | congruence].
      eapply no_handle_no_timer; eauto.
    + destruct (processTick_new snapshot clk e tick config Hc Hen Hk)
        as (s' & Hg' & _ & _ & Hid & _).
      rewrite Hsa in Hid. eapply no_handle_no_timer; eauto.
Qed.

Lemma C1_at_most_one_armed_timer_witness :
  (length (armedFor 265 monitored) <= 1)%nat /\
  armedFor 265 (updateConfiguration 265 switchedOff monitored) = [].
Proof.
  destruct (C1_at_most_one_armed_timer monitored monitored_reachable) as (H1 & _ & H3 & _).
  split; [apply H1 | apply H3].
Defined.

(** C3, at the failing input: the monitor of instrument 265 is armed by a
    tick at 100; ten seconds later a tick at 100.05 arrives, within the
    deviation; at expiry the latest tick has price 100.05, but the alert
    reports 100 as current price: the price of the tick that armed the
    timer.  Baseline, price range and inactive flag are as specified. *)
Theorem C3_alert_reports_arming_price :
  exists a latest,
    alerts afterExpiry = [a] /\
    map_get 265 (latestTicks secondTicks) = Some latest /\
    last_price latest = (10005 # 100)%Q /\
    baselinePrice a = 100%Q /\
    priceRange a = (Some 100%Q, Some (10005 # 100)%Q) /\
    currentPrice a = 100%Q /\
    ~ (currentPrice a == last_price latest)%Q /\
    265 ∈ inactiveSymbols afterExpiry.
Proof.
  eexists. eexists.
  split; [vm_compute; reflexivity |]. split; [vm_compute; reflexivity |].
  cbn [baselinePrice priceRange currentPrice last_price].
  split; [reflexivity |]. split; [reflexivity |]. split; [reflexivity |].
  split; [reflexivity |]. split; [intros H; vm_compute in H; discriminate H |].
  apply elem_of_elements. vm_compute. left.
Qed.

End EngineClaims.


(** ** Inactivity engine: configuration updates and clear-all *)

Section EngineReset.
Import JsMath MarketTimings Tick Inactivity EngineInvariant EngineScenarios.

(** Ticks of other instruments leave the monitor of [token] as it is. *)
Lemma fold_other_ticks snap clk token (ts : list TickData) :
  (forall t, In t ts -> instrument_token t <> token) ->
  forall a, Inv a ->
    Inv (fold_left (processTick snap clk) ts a) /\
    configurations (fold_left (processTick snap clk) ts a) = configurations a /\
    symbolStates (fold_left (processTick snap clk) ts a) !! token = symbolStates a !! token /\
    (forall l, symbolStates a !! token = Some l ->
               heap (fold_left (processTick snap clk) ts a) !! l = heap a !! l).
Proof.
  induction ts as [| t ts IH]; intros Hts a HI; cbn [fold_left].
  - split; [exact HI |]. repeat split.
  - assert (Hne : token <> instrument_token t) by (apply not_eq_sym, Hts; left; reflexivity).
    pose proof (Inv_processTick snap clk a t HI) as HI1.
    destruct (IH (fun t' H => Hts t' (or_intror H)) _ HI1) as (HI2 & Hc2 & Hm2 & Hh2).
    destruct (processTick_quiet snap clk a t) as (Hc1 & _).
    split; [exact HI2 |]. split; [congruence |].
    split.
    + rewrite Hm2. apply (processTick_other snap clk a t token 0%nat HI Hne).
    + intros l Hl.
      destruct (processTick_other snap clk a t token l HI Hne) as (Hm1 & Hh1).
      rewrite Hh2 by (rewrite Hm1; exact Hl). apply Hh1, Hl.
Qed.

(** While the configuration of [token] is [config], every timer armed for
    [token] carries [config]. *)
Lemma fold_keeps_config snap clk token config (ts : list TickData) a :
  configurations a !! token = Some config ->
  (forall id t, timers a !! id = Some t -> instrument_token (tmTick t) = token ->
                tmConfig t = config) ->
  forall id t, timers (fold_left (processTick snap clk) ts a) !! id = Some t ->
               instrument_token (tmTick t) = token -> tmConfig t = config.
Proof.
  intros Hc Ht.
  apply (fold_left_preserves
           (fun x : Engine =>
              configurations x !! token = Some config /\
              forall id t, timers x !! id = Some t -> instrument_token (tmTick t) = token ->
                           tmConfig t = config)); [| auto].
  intros x tick (Hcx & Htx). destruct (processTick_quiet snap clk x tick) as (Hq & _).
  split; [rewrite Hq; exact Hcx |].
  intros id t H Htok. apply processTick_timers in H as [H | (_ & Htick & Hcfg & _)]; [eauto |].
  rewrite Htick in Htok. rewrite Htok, Hcx in Hcfg. congruence.
Qed.

Lemma updateConfiguration_result token config e :
  Inv e ->
  Inv (updateConfiguration token config e) /\
  symbolStates (updateConfiguration token config e) !! token = None /\
  configurations (updateConfiguration token config e) = <[token := config]> (configurations e) /\
  (forall id t, timers (updateConfiguration token config e) !! id = Some t ->
                instrument_token (tmTick t) <> token) /\
  alerts (updateConfiguration token config e) = alerts e.
Proof.
  intros HI. pose proof (Inv_updateConfiguration token config e HI) as HI'.
  unfold updateConfiguration in *.
  destruct (clearSymbolState_result token
              (with_configurations (<[token := config]> (configurations e)) e))
    as (Hm & Hc & Ha & _).
  assert (Hnone : symbolStates
            (clearSymbolState token
               (with_configurations (<[token := config]> (configurations e)) e)) !! token = None)
    by (rewrite Hm; apply lookup_delete_eq).
  split; [exact HI' |]. split; [exact Hnone |]. split; [exact Hc |]. split; [| exact Ha].
  intros id t Ht Htok. destruct (inv_timer _ HI' id t Ht) as (Hmt & _).
  rewrite Htok, Hnone in Hmt. discriminate Hmt.
Qed.

(** The run of the effect that follows a configuration update. *)
Lemma effect_after_update ticks clk token config e :
  Inv e ->
  (forall tick, enabled config = true -> map_get token (latestTicks ticks) = Some tick ->
     exists l s,
       getState token (effect ticks clk (updateConfiguration token config e)) = Some (l, s) /\
       stBaselinePrice s = last_price tick /\
       priceHistory s = [(last_price tick, now clk)]) /\
  (enabled config = false \/ map_get token (latestTicks ticks) = None ->
     symbolStates (effect ticks clk (updateConfiguration token config e)) !! token = None).
Proof.
  intros HI.
  destruct (updateConfiguration_result token config e HI) as (HI1 & Hm1 & Hc1 & _).
  set (e1 := updateConfiguration token config e) in *.
  assert (Hcfg : configurations e1 !! token = Some config)
    by (rewrite Hc1; apply lookup_insert_eq).
  destruct (latestTicks_spec ticks) as (Hnd & Hget & _).
  unfold effect. generalize (inactiveSymbols e1) as snap. intros snap.
  assert (Hother : forall part : list (Z * TickData),
            (forall kv, In kv part -> In kv (latestTicks ticks)) ->
            ~ In token (map fst part) ->
            forall t, In t (map snd part) -> instrument_token t <> token).
  { intros part Hsub Hnin t Hin Htok. apply in_map_iff in Hin as ([k v] & <- & Hkv).
    cbn in Htok. pose proof (latestTicks_keys ticks k v (Hsub _ Hkv)) as Hk.
    apply Hnin. apply in_map_iff. exists (k, v). split; [cbn; congruence | exact Hkv]. }
  destruct (map_get token (latestTicks ticks)) as [tick |] eqn:Hg.
  - destruct (map_get_split token tick _ Hnd Hg) as (pre & post & HL & Hpre & Hpost).
    destruct (Hget token tick Hg) as (Htok & _).
    assert (Hpre' : forall t, In t (map snd pre) -> instrument_token t <> token).
    { apply Hother; [| exact Hpre]. intros kv Hin. rewrite HL. apply in_or_app. auto. }
    assert (Hpost' : forall t, In t (map snd post) -> instrument_token t <> token).
    { apply Hother; [| exact Hpost]. intros kv Hin. rewrite HL.
      apply in_or_app. right. right. exact Hin. }
    rewrite HL, map_app, fold_left_app. cbn [map snd fold_left].
    destruct (fold_other_ticks snap clk token (map snd pre) Hpre' e1 HI1)
      as (HIa & Hca & Hma & _).
    set (a1 := fold_left (processTick snap clk) (map snd pre) e1) in *.
    rewrite Hm1 in Hma. rewrite <- Hca in Hcfg.
    pose proof (Inv_processTick snap clk a1 tick HIa) as HI2.
    destruct (fold_other_ticks snap clk token (map snd post) Hpost' _ HI2)
      as (_ & _ & Hm3 & Hh3).
    split.
    + intros tick' Hen [= <-].
      rewrite <- Htok in Hcfg, Hma.
      destruct (processTick_new snap clk a1 tick config Hcfg Hen Hma)
        as (s' & Hg2 & Hb & Hh & _).
      apply getState_Some in Hg2 as [Hk2 Hs2]. rewrite Htok in Hk2.
      exists (next_loc a1), s'. split; [| auto].
      apply getState_Some. split; [rewrite Hm3; exact Hk2 |].
      rewrite (Hh3 _ Hk2). exact Hs2.
    + intros [Hdis | Hnone]; [| discriminate Hnone].
      rewrite Hm3. rewrite <- Htok in Hcfg.
      rewrite processTick_disabled by (intros c Hc'; congruence).
      rewrite (proj1 (clearSymbolState_result _ _)), Htok. apply lookup_delete_eq.
  - split; [intros tick' _ [=] |]. intros _.
    assert (Hall : forall t, In t (map snd (latestTicks ticks)) -> instrument_token t <> token).
    { apply Hother; [auto |]. apply map_get_None, Hg. }
    destruct (fold_other_ticks snap clk token _ Hall e1 HI1) as (_ & _ & Hm & _).
    rewrite Hm. exact Hm1.
Qed.

(** C4, counterexample: instrument 265 is monitored and its configuration
    is updated to a disabled one; after the effect has run again on the
    same ticks there is no monitor for 265, hence none whose baseline is the
    latest observed price. *)
Lemma C4_disabled_update_counterexample :
  getState 265 monitored <> None /\
  symbolStates
    (effect [priceTick 265 100 0] (thursday 20)
            (updateConfiguration 265 switchedOff monitored)) !! 265 = None /\
  ~ recreatedFromLatest 265 [priceTick 265 100 0]
      (effect [priceTick 265 100 0] (thursday 20)
              (updateConfiguration 265 switchedOff monitored)).
Proof.
  assert (Hnone : symbolStates
            (effect [priceTick 265 100 0] (thursday 20)
                    (updateConfiguration 265 switchedOff monitored)) !! 265 = None)
    by (vm_compute; reflexivity).
  split; [vm_compute; discriminate |]. split; [exact Hnone |].
  intros (l & s & tick & Hg & _). apply getState_Some in Hg as [Hk _].
  rewrite Hnone in Hk. discriminate Hk.
Qed.

(** C4 (amended): a configuration update destroys the monitor of the
    instrument and cancels its timer, so that no timer armed under the old
    configuration survives; when the effect next runs, a monitor is created
    from scratch only if the new configuration is enabled and the tick list
    holds a tick of the instrument, and its baseline is then the price of the
    latest such tick (by receipt time); every timer armed for the instrument
    carries the new configuration. *)
Theorem C4_update_destroys_then_recreates (e : Engine) (token : Z)
    (config : InactivityAlertConfig) :
  reachable e ->
  symbolStates (updateConfiguration token config e) !! token = None /\
  armedFor token (updateConfiguration token config e) = [] /\
  configurations (updateConfiguration token config e) !! token = Some config /\
  (forall ticks clk,
     (forall id t,
        timers (effect ticks clk (updateConfiguration token config e)) !! id = Some t ->
        instrument_token (tmTick t) = token -> tmConfig t = config) /\
     (forall tick,
        enabled config = true -> map_get token (latestTicks ticks) = Some tick ->
        (In tick ticks /\ instrument_token tick = token /\
         forall t, In t ticks -> instrument_token t = token ->
                   receivedAt t <= receivedAt tick) /\
        exists l s,
          getState token (effect ticks clk (updateConfiguration token config e))
            = Some (l, s) /\
          stBaselinePrice s = last_price tick /\
          priceHistory s = [(last_price tick, now clk)]) /\
     (enabled config = false \/ map_get token (latestTicks ticks) = None ->
      symbolStates (effect ticks clk (updateConfiguration token config e)) !! token = None)).
Proof.
  intros Hr. pose proof (Inv_reachable e Hr) as HI.
  destruct (updateConfiguration_result token config e HI) as (HI1 & Hm1 & Hc1 & Ht1 & _).
  split; [exact Hm1 |]. split; [apply no_monitor_no_timer; assumption |].
  split; [rewrite Hc1; apply lookup_insert_eq |].
  intros ticks clk. destruct (effect_after_update ticks clk token config e HI) as (Hnew & Hnone).
  split; [| split].
  - unfold effect. apply fold_keeps_config.
    + rewrite Hc1. apply lookup_insert_eq.
    + intros id t Ht Htok. exfalso. eapply Ht1; eauto.
  - intros tick Hen Hg. split; [| apply Hnew; assumption].
    destruct (latestTicks_spec ticks) as (_ & Hget & _).
    destruct (Hget token tick Hg) as (Hk & Hin & Hmax). auto.
  - exact Hnone.
Qed.

Lemma C4_update_destroys_then_recreates_witness :
  symbolStates (updateConfiguration 265 duringMarketHours monitored) !! 265 = None /\
  exists l s,
    getState 265 (effect secondTicks (thursday 10000)
                         (updateConfiguration 265 duringMarketHours monitored)) = Some (l, s) /\
    stBaselinePrice s = (10005 # 100)%Q.
Proof.
  destruct (C4_update_destroys_then_recreates monitored 265 duringMarketHours
              monitored_reachable) as (Hm & _ & _ & Heff).
  split; [exact Hm |].
  destruct (Heff secondTicks (thursday 10000)) as (_ & Hnew & _).
  destruct (Hnew (priceTick 265 (10005 # 100) 10000) eq_refl) as (_ & l & s & Hg & Hb & _).
  - vm_compute. reflexivity.
  - exists l, s. split; [exact Hg | exact Hb].
Defined.

(** Stopping the sound of one instrument never starts one. *)
Lemma stopAlertSound_keeps_silent k a l s :
  heap a !! l = Some s -> oscillator s = None ->
  exists s', heap (stopAlertSound k a) !! l = Some s' /\ oscillator s' = None.
Proof.
  intros Hs Ho.
  destruct (stopAlertSound_cases k a) as [-> | (l0 & s0 & o & _ & _ & _ & ->)]; [eauto |].
  cbn [heap update with_heap with_audio]. rewrite lookup_alter. case_decide.
  - subst l0. rewrite Hs. cbn. eexists. split; reflexivity.
  - eauto.
Qed.

Lemma stopAll_frame (L : list (Z * nat)) a :
  symbolStates (fold_left (fun acc kv => stopAlertSound (fst kv) acc) L a) = symbolStates a /\
  alerts (fold_left (fun acc kv => stopAlertSound (fst kv) acc) L a) = alerts a /\
  monitorsKept a (fold_left (fun acc kv => stopAlertSound (fst kv) acc) L a).
Proof.
  apply (fold_left_preserves
           (fun x : Engine => symbolStates x = symbolStates a /\ alerts x = alerts a /\
                              monitorsKept a x)).
  - intros x kv (Hm & Ha & Hk).
    pose proof (stopAlertSound_frame (fst kv) x) as (_ & Ha' & _ & Hm' & _).
    rewrite Ha', Hm'. repeat split; auto.
    eapply monitorsKept_trans; [exact Hk | apply stopAlertSound_monitorsKept].
  - repeat split. apply monitorsKept_refl.
Qed.

(** After the loop of [clearAllAlerts] no monitor of the map holds an
    oscillator. *)
Lemma stopAll_silent (L : list (Z * nat)) :
  forall a k l s',
    symbolStates a !! k = Some l ->
    heap (fold_left (fun acc kv => stopAlertSound (fst kv) acc) L a) !! l = Some s' ->
    In k (map fst L) \/ (exists s, heap a !! l = Some s /\ oscillator s = None) ->
    oscillator s' = None.
Proof.
  induction L as [| kv L IH]; intros a k l s' Hk Hs' Hwhy; cbn [fold_left map] in *.
  - destruct Hwhy as [[] | (s & Hs & Ho)]. congruence.
  - set (a1 := stopAlertSound (fst kv) a) in *.
    assert (Hk1 : symbolStates a1 !! k = Some l).
    { subst a1. rewrite symbolStates_stopAlertSound. exact Hk. }
    apply (IH a1 k l s' Hk1 Hs').
    destruct Hwhy as [[Heq | Hin] | (s & Hs & Ho)].
    + right. destruct (stopAll_frame L a1) as (_ & _ & Hkept). specialize (Hkept l).
      destruct (heap a1 !! l) as [s1 |] eqn:Hs1; [| congruence].
      exists s1. split; [reflexivity |].
      subst a1. eapply stopAlertSound_silent; [| exact Hs1]. rewrite Heq. exact Hk.
    + left. exact Hin.
    + right. subst a1. eapply stopAlertSound_keeps_silent; eauto.
Qed.

Lemma clearAllAlerts_silent e : Inv e -> playing (clearAllAlerts e) = ∅.
Proof.
  intros HI. pose proof (Inv_clearAllAlerts e HI) as HI'.
  apply elem_of_equiv_empty_L. intros o Ho.
  destruct (inv_sound _ HI' o Ho) as (k & l & s & Hk & Hs & Hos).
  unfold clearAllAlerts in Hk, Hs.
  cbn [symbolStates heap with_inactiveSymbols] in Hk, Hs.
  set (L := map_to_list (symbolStates (with_alerts [] e))) in *.
  destruct (stopAll_frame L (with_alerts [] e)) as (Hm & _).
  rewrite Hm in Hk.
  assert (Hnone : oscillator s = None).
  { apply (stopAll_silent L (with_alerts [] e) k l s Hk Hs). left.
    apply in_map_iff. exists (k, l). split; [reflexivity |].
    apply list_elem_of_In. subst L. apply elem_of_map_to_list. exact Hk. }
  congruence.
Qed.

(** C10: clearing all alerts empties the alert log and the set of inactive
    instruments and stops every sounding oscillator; the configuration map,
    the monitors (baseline, history, handle, market-check fields) and the
    armed timers are unchanged. *)
Theorem C10_clear_all_keeps_monitors (e : Engine) :
  reachable e ->
  alerts (clearAllAlerts e) = [] /\
  inactiveSymbols (clearAllAlerts e) = ∅ /\
  playing (clearAllAlerts e) = ∅ /\
  configurations (clearAllAlerts e) = configurations e /\
  symbolStates (clearAllAlerts e) = symbolStates e /\
  timers (clearAllAlerts e) = timers e /\
  monitorsKept e (clearAllAlerts e) /\
  (forall token, armedFor token (clearAllAlerts e) = armedFor token e).
Proof.
  intros Hr. pose proof (Inv_reachable e Hr) as HI.
  destruct (clearAllAlerts_frame e) as (Hc & Hm & Ht & _ & _ & Hk).
  split.
  { unfold clearAllAlerts. cbn [alerts with_inactiveSymbols].
    rewrite (proj1 (proj2 (stopAll_frame _ _))). reflexivity. }
  split; [reflexivity |]. split; [apply clearAllAlerts_silent, HI |].
  split; [exact Hc |]. split; [exact Hm |]. split; [exact Ht |]. split; [exact Hk |].
  intros token. unfold armedFor. rewrite Ht. reflexivity.
Qed.

Lemma reachable_run evs e : reachable e -> reachable (run evs e).
Proof.
  intros [evs0 ->]. exists (evs0 ++ evs)%list. unfold run. rewrite fold_left_app. reflexivity.
Qed.

Lemma afterExpiry_reachable : reachable afterExpiry.
Proof. apply reachable_run, monitored_reachable. Qed.

Lemma C10_clear_all_keeps_monitors_witness :
  alerts afterExpiry <> [] /\
  alerts (clearAllAlerts afterExpiry) = [] /\
  inactiveSymbols (clearAllAlerts afterExpiry) = ∅ /\
  symbolStates (clearAllAlerts afterExpiry) = symbolStates afterExpiry.
Proof.
  destruct (C10_clear_all_keeps_monitors afterExpiry afterExpiry_reachable)
    as (Ha & Hi & _ & _ & Hm & _).
  split; [vm_compute; discriminate |]. split; [exact Ha |]. split; [exact Hi | exact Hm].
Defined.

End EngineReset.

(** ** Inactivity engine: movement within one run of the effect *)

Section EngineMovement.
Import JsMath MarketTimings Tick Inactivity EngineInvariant EngineScenarios.

(** The ticks that the effect evaluates before and after the one of
    [token] are ticks of other instruments. *)
Lemma others_of_split ticks token tick (pre post : list (Z * TickData)) :
  latestTicks ticks = (pre ++ (token, tick) :: post)%list ->
  ~ In token (map fst pre) -> ~ In token (map fst post) ->
  (forall t, In t (map snd pre) -> instrument_token t <> token) /\
  (forall t, In t (map snd post) -> instrument_token t <> token).
Proof.
  intros HL Hpre Hpost.
  assert (Hother : forall part : list (Z * TickData),
            (forall kv, In kv part -> In kv (latestTicks ticks)) ->
            ~ In token (map fst part) ->
            forall t, In t (map snd part) -> instrument_token t <> token).
  { intros part Hsub Hnin t Hin Htok. apply in_map_iff in Hin as ([k v] & <- & Hkv).
    cbn in Htok. pose proof (latestTicks_keys ticks k v (Hsub _ Hkv)) as Hk.
    apply Hnin. apply in_map_iff. exists (k, v). split; [cbn; congruence | exact Hkv]. }
  split.
  - apply Hother; [| exact Hpre]. intros kv Hin. rewrite HL. apply in_or_app. auto.
  - apply Hother; [| exact Hpost]. intros kv Hin. rewrite HL.
    apply in_or_app. right. right. exact Hin.
Qed.

(** One run of the effect, seen from the instrument of [tick]: the ticks of
    other instruments evaluated before it lead to a state [a] in which the
    monitor and the configuration of the instrument are as they were, and
    those evaluated after it leave its monitor and its armed timers as the
    body left them. *)
Lemma effect_split ticks clk e tick :
  Inv e -> Owned e ->
  map_get (instrument_token tick) (latestTicks ticks) = Some tick ->
  exists a,
    Inv a /\ Owned a /\
    configurations a = configurations e /\
    getState (instrument_token tick) a = getState (instrument_token tick) e /\
    alerts a = alerts e /\
    (next_timer e <= next_timer a)%nat /\
    (forall id t, timers a !! id = Some t -> timers e !! id = Some t \/ (next_timer e <= id)%nat) /\
    let b := processTick (inactiveSymbols e) clk a tick in
    Inv (effect ticks clk e) /\
    getState (instrument_token tick) (effect ticks clk e) = getState (instrument_token tick) b /\
    alerts (effect ticks clk e) = alerts b /\
    (next_timer b <= next_timer (effect ticks clk e))%nat /\
    (forall id t, timers (effect ticks clk e) !! id = Some t ->
                  timers b !! id = Some t \/ (next_timer b <= id)%nat) /\
    (forall id t, timers b !! id = Some t ->
                  instrument_token (tmTick t) = instrument_token tick ->
                  timers (effect ticks clk e) !! id = Some t).
Proof.
  intros HI HO Hg.
  destruct (latestTicks_spec ticks) as (Hnd & _).
  destruct (map_get_split _ tick _ Hnd Hg) as (pre & post & HL & Hpre & Hpost).
  destruct (others_of_split ticks _ tick pre post HL Hpre Hpost) as (Hpre' & Hpost').
  unfold effect. generalize (inactiveSymbols e) as snap. intros snap.
  rewrite HL, map_app, fold_left_app. cbn [map snd fold_left].
  destruct (fold_other_ticks snap clk _ (map snd pre) Hpre' e HI) as (HIa & Hca & Hma & Hha).
  destruct (fold_other_timers snap clk _ (map snd pre) Hpre' e HI HO) as (HOa & _).
  destruct (fold_timers snap clk (map snd pre) e) as (Hta & Hna & Haa).
  set (a := fold_left (processTick snap clk) (map snd pre) e) in *.
  exists a. split; [exact HIa |]. split; [exact HOa |]. split; [exact Hca |].
  split.
  { unfold getState. rewrite Hma.
    destruct (symbolStates e !! instrument_token tick) as [l |] eqn:Hk; [| reflexivity].
    rewrite (Hha l eq_refl). reflexivity. }
  split; [exact Haa |]. split; [exact Hna |]. split; [exact Hta |].
  pose proof (Inv_processTick snap clk a tick HIa) as HIb.
  pose proof (Owned_processTick snap clk a tick HIa HOa) as HOb.
  cbv zeta. set (b := processTick snap clk a tick) in *.
  destruct (fold_other_ticks snap clk _ (map snd post) Hpost' b HIb) as (HIc & _ & Hmc & Hhc).
  destruct (fold_other_timers snap clk _ (map snd post) Hpost' b HIb HOb) as (_ & Hkeep).
  destruct (fold_timers snap clk (map snd post) b) as (Htc & Hnc & Hac).
  split; [exact HIc |]. split.
  { unfold getState. rewrite Hmc.
    destruct (symbolStates b !! instrument_token tick) as [l |] eqn:Hk; [| reflexivity].
    rewrite (Hhc l eq_refl). reflexivity. }
  split; [exact Hac |]. split; [exact Hnc |]. split; [exact Htc | exact Hkeep].
Qed.

(** C2, counterexample.  (1) Instrument 265, under a configuration that
    respects market hours, is armed at price 100 in the last minute of the
    session; twenty-five seconds later, before the thirty seconds have
    elapsed but after the close, its latest tick is at 100.20, beyond the
    deviation of 0.1: the effect cancels the timer, keeps the baseline at
    100 and arms nothing.  (2) Instrument 265 is armed at price 100; ten
    seconds later one message brings a tick at 100.05 and a tick at 100.20,
    received at the same time: the effect evaluates only the first of them,
    and at thirty seconds the alert fires although a tick had moved beyond
    the deviation. *)
Lemma C2_movement_counterexample :
  ((exists s, getState 265 armedBeforeClose = Some (0%nat, s) /\
              stBaselinePrice s = 100%Q /\ timerId s = Some 1%nat) /\
   configurations armedBeforeClose !! 265 = Some duringMarketHours /\
   map_get 265 (latestTicks ticksAfterClose)
     = Some (priceTick 265 (1002 # 10) (now afterClose)) /\
   priceMoved (1002 # 10) 100 (deviation duringMarketHours) = true /\
   now afterClose < now beforeClose + duration duringMarketHours * 1000 /\
   (exists s', getState 265 (effect ticksAfterClose afterClose armedBeforeClose)
                 = Some (0%nat, s') /\
               stBaselinePrice s' = 100%Q /\ timerId s' = None) /\
   timers (effect ticksAfterClose afterClose armedBeforeClose) = ∅ /\
   ~ restartedAt (priceTick 265 (1002 # 10) (now afterClose)) afterClose armedBeforeClose
       (effect ticksAfterClose afterClose armedBeforeClose)) /\
  (In movedTick tiedTicks /\
   priceMoved (last_price movedTick) 100 (deviation alwaysOn) = true /\
   receivedAt movedTick < 0 + duration alwaysOn * 1000 /\
   map_get 265 (latestTicks tiedTicks) = Some (priceTick 265 (10005 # 100) 10000) /\
   exists a, alerts afterTie = [a] /\ instrumentToken a = 265 /\
             baselinePrice a = 100%Q /\ alertTimestamp a = 30000).
Proof.
  split.
  - split; [eexists; split; [vm_compute; reflexivity | split; reflexivity] |].
    split; [vm_compute; reflexivity |]. split; [vm_compute; reflexivity |].
    split; [vm_compute; reflexivity |]. split; [vm_compute; reflexivity |].
    assert (Hg : getState 265 (effect ticksAfterClose afterClose armedBeforeClose)
                 = Some (0%nat, {| stBaselinePrice := 100; timerId := None;
                                   priceHistory := [(100%Q, now beforeClose)];
                                   lastMarketStatusCheck := now beforeClose;
                                   wasMarketOpen := true; oscillator := None;
                                   gainNode := None |}))
      by (vm_compute; reflexivity).
    split; [eexists; split; [exact Hg | split; reflexivity] |].
    split; [vm_compute; reflexivity |].
    intros (_ & l & s & id & t & Hg' & Hb & _).
    cbn [instrument_token priceTick] in Hg'. rewrite Hg in Hg'. injection Hg' as _ <-.
    cbn in Hb. discriminate Hb.
  - split; [right; left; reflexivity |]. split; [vm_compute; reflexivity |].
    split; [vm_compute; reflexivity |]. split; [vm_compute; reflexivity |].
    eexists. split; [vm_compute; reflexivity |]. cbn. auto.
Qed.

(** C2 (amended).  One run of the effect evaluates, for each instrument, one
    tick of the current list: the one received last, and among those
    received at the same time the first of the list.  For an instrument that
    is monitored under an enabled configuration, if the price of that tick
    differs from the baseline by more than the deviation, the run raises no
    alert, and the timer that was pending is disarmed and never armed again,
    so that it cannot expire.  If alerts are active for the instrument
    (market open, or market hours not respected) the baseline becomes the
    price of the tick, and a new timer is armed, the only one of the
    instrument, that is due a full duration after the run.  If they are not
    (market closed and hours respected) the baseline and the price history
    stay as they were and no timer of the instrument is armed. *)
Theorem C2_movement_cancels_and_restarts (e : Engine) ticks clk tick config l s :
  reachable e ->
  configurations e !! instrument_token tick = Some config -> enabled config = true ->
  getState (instrument_token tick) e = Some (l, s) ->
  map_get (instrument_token tick) (latestTicks ticks) = Some tick ->
  priceMoved (last_price tick) (stBaselinePrice s) (deviation config) = true ->
  (exists pre post, ticks = (pre ++ tick :: post)%list /\
     (forall t, In t pre -> instrument_token t = instrument_token tick ->
                receivedAt t < receivedAt tick) /\
     (forall t, In t post -> instrument_token t = instrument_token tick ->
                receivedAt t <= receivedAt tick)) /\
  alerts (effect ticks clk e) = alerts e /\
  (forall old, armed (instrument_token tick) old e ->
     forall evs,
       timers (run evs (effect ticks clk e)) !! old = None /\
       forall clk', fireTimer old clk' (run evs (effect ticks clk e))
                    = run evs (effect ticks clk e)) /\
  (shouldAlertFor tick config clk = true ->
     exists s' id,
       getState (instrument_token tick) (effect ticks clk e) = Some (l, s') /\
       stBaselinePrice s' = last_price tick /\
       timerId s' = Some id /\
       (next_timer e <= id)%nat /\
       timers (effect ticks clk e) !! id
         = Some {| tmTick := tick; tmConfig := config; tmState := l;
                   fireAt := now clk + duration config * 1000 |} /\
       armedFor (instrument_token tick) (effect ticks clk e) = [id]) /\
  (shouldAlertFor tick config clk = false ->
     exists s',
       getState (instrument_token tick) (effect ticks clk e) = Some (l, s') /\
       stBaselinePrice s' = stBaselinePrice s /\
       priceHistory s' = priceHistory s /\
       timerId s' = None /\
       armedFor (instrument_token tick) (effect ticks clk e) = []).
Proof.
  intros Hr Hc Hen Hg Hlatest Hmv.
  destruct (Owned_reachable e Hr) as [HI HO].
  destruct (effect_split ticks clk e tick HI HO Hlatest)
    as (a & HIa & HOa & Hca & Hga & Haa & Hna & Hta & HIc & Hgc & Hac & Hnc & Htc & Hkeep).
  cbv zeta in *. set (snap := inactiveSymbols e) in *.
  rewrite <- Hca in Hc. rewrite <- Hga in Hg.
  split; [apply latestTicks_first, Hlatest |].
  split.
  { rewrite Hac, (proj2 (processTick_quiet snap clk a tick)). exact Haa. }
  split.
  { intros old Hold evs.
    pose proof (armed_below_counter _ _ _ HI Hold) as Hlt.
    assert (Hb : timers (processTick snap clk a tick) !! old = None /\
                 (old < next_timer (processTick snap clk a tick))%nat).
    { destruct (timers a !! old) as [t1 |] eqn:Ht1.
      - apply (pending_timer_cancelled snap clk a tick config l s old HIa Hc Hen Hg
                 (or_introl Hmv)).
        destruct Hold as (t & Ht & Htok).
        destruct (Hta old t1 Ht1) as [Ht1' | Hge]; [| lia].
        exists t1. split; [exact Ht1 | congruence].
      - pose proof (processTick_next_timer snap clk a tick) as Hmono.
        split; [| lia].
        destruct (timers (processTick snap clk a tick) !! old) as [t2 |] eqn:Ht2;
          [| reflexivity].
        apply processTick_timers in Ht2 as [Ht2 | (-> & _)]; [congruence | lia]. }
    destruct Hb as [Hnone Hlt'].
    assert (Hc' : timers (effect ticks clk e) !! old = None).
    { destruct (timers (effect ticks clk e) !! old) as [t3 |] eqn:Ht3; [| reflexivity].
      apply Htc in Ht3 as [Ht3 | Hge]; [congruence | lia]. }
    assert (Hst : timers (run evs (effect ticks clk e)) !! old = None)
      by (apply stale_forever; [lia | exact Hc']).
    split; [exact Hst |]. intros clk'. apply fireTimer_not_armed, Hst. }
  split.
  - intros Hsa.
    destruct (restarted_single_timer snap clk a tick config l s HIa Hc Hen Hg Hsa Hmv)
      as (s' & Hg' & Hb & Hid & _ & Ht & _).
    exists s', (next_timer a). split; [rewrite Hgc; exact Hg' |].
    split; [exact Hb |]. split; [exact Hid |]. split; [exact Hna |].
    assert (Hkept : timers (effect ticks clk e) !! next_timer a
                    = Some (armedTimer tick config l clk))
      by (apply Hkeep; [exact Ht | reflexivity]).
    split; [exact Hkept |].
    apply armedFor_singleton; [exact HIc |].
    exists (armedTimer tick config l clk). split; [exact Hkept | reflexivity].
  - intros Hsa.
    destruct (processTick_existing snap clk a tick config l s Hc Hen Hg)
      as (s' & Hg' & [(Hsa' & _) | [(_ & Hid & Hb & Hh & _) | (Hsa' & _)]]);
      [congruence | | congruence].
    exists s'. split; [rewrite Hgc; exact Hg' |]. split; [exact Hb |].
    split; [exact Hh |]. split; [exact Hid |].
    eapply no_handle_no_timer; [exact HIc | rewrite Hgc; exact Hg' | exact Hid].
Qed.

Lemma C2_movement_cancels_and_restarts_witness :
  alerts (effect [movedTick; priceTick 265 100 0] (thursday 10000) monitored)
    = alerts monitored /\
  timers (effect [movedTick; priceTick 265 100 0] (thursday 10000) monitored) !! 1%nat = None /\
  exists id,
    armedFor 265 (effect [movedTick; priceTick 265 100 0] (thursday 10000) monitored) = [id].
Proof.
  assert (Hg : getState 265 monitored
               = Some (0%nat, {| stBaselinePrice := 100; timerId := Some 1%nat;
                                 priceHistory := [(100%Q, 0)]; lastMarketStatusCheck := 0;
                                 wasMarketOpen := true; oscillator := None;
                                 gainNode := None |}))
    by (vm_compute; reflexivity).
  assert (Hc : configurations monitored !! instrument_token movedTick = Some alwaysOn)
    by (vm_compute; reflexivity).
  assert (Hl : map_get (instrument_token movedTick)
                 (latestTicks [movedTick; priceTick 265 100 0]) = Some movedTick)
    by (vm_compute; reflexivity).
  destruct (C2_movement_cancels_and_restarts monitored [movedTick; priceTick 265 100 0]
              (thursday 10000) movedTick alwaysOn _ _ monitored_reachable Hc eq_refl Hg Hl
              eq_refl) as (_ & Ha & Hold & Hnew & _).
  split; [exact Ha |]. split.
  - apply (Hold 1%nat) with (evs := []).
    eexists. split; [vm_compute; reflexivity | reflexivity].
  - destruct (Hnew eq_refl) as (s' & id & _ & _ & _ & _ & _ & Harmed). exists id. exact Harmed.
Defined.

End EngineMovement.


(** * Further properties *)

(** ** Session oracle: trading hours and classification *)

Section MarketHoursFacts.
Import JsString MarketTimings MarketHours.

(** [isTimeInRange] on times that parse. *)
Lemma isTimeInRange_parsed (c s e : string) (m a b : Z) :
  timeToMinutes c = Some m -> timeToMinutes s = Some a -> timeToMinutes e = Some b ->
  isTimeInRange c s e =
    if b <? a then (a <=? m) || (m <=? b) else (a <=? m) && (m <=? b).
Proof.
  intros Hc Hs He. unfold isTimeInRange. rewrite Hc, Hs, He. reflexivity.
Qed.

(** A time that does not parse is in no range. *)
Lemma isTimeInRange_NaN (c s e : string) :
  timeToMinutes c = None -> isTimeInRange c s e = false.
Proof.
  intros Hc. unfold isTimeInRange, num_ge, num_le, num_lt. rewrite Hc.
  destruct (timeToMinutes e), (timeToMinutes s); try reflexivity.
  destruct (_ <? _); reflexivity.
Qed.

Lemma not_weekend_test (ist : IstTime) :
  ~ isWeekend ist -> (dayOfWeek ist =? 0) || (dayOfWeek ist =? 6) = false.
Proof. intros H. apply not_true_is_false. rewrite <- weekend_test. exact H. Qed.

Lemma not_holiday_test (ist : IstTime) :
  ~ isHoliday ist -> existsb (String.eqb (currentDate ist)) MARKET_HOLIDAYS_2024 = false.
Proof. intros H. apply not_true_is_false. rewrite <- holiday_test. exact H. Qed.

(** On a reading that is neither weekend nor holiday the status is decided
    by the sessions alone. *)
Lemma status_on_trading_day (marketType : MarketType) (ist : IstTime) :
  ~ isWeekend ist -> ~ isHoliday ist ->
  statusOfReading marketType ist =
    let timings := MARKET_TIMINGS marketType in
    if is_equity marketType then
      if in_session (currentTime ist) (preMarket timings) then
        {| isOpen := true; session := "Pre-market"; reason := "Pre-market session";
           nextOpenTime := None; sessionEnd := option_map end_ (preMarket timings) |}
      else if isTimeInRange (currentTime ist) (start (normal timings)) (end_ (normal timings)) then
        {| isOpen := true; session := "Open"; reason := "Normal trading session";
           nextOpenTime := None; sessionEnd := Some (end_ (normal timings)) |}
      else if in_session (currentTime ist) (postMarket timings) then
        {| isOpen := true; session := "Post-market"; reason := "Post-market session";
           nextOpenTime := None; sessionEnd := option_map end_ (postMarket timings) |}
      else
        {| isOpen := false; session := "Closed"; reason := "Outside trading hours";
           nextOpenTime := Some (getNextEquitySession (currentTime ist)); sessionEnd := None |}
    else if isTimeInRange (currentTime ist) (start (normal timings)) (end_ (normal timings)) then
      {| isOpen := true; session := "Open"; reason := "Normal trading session";
         nextOpenTime := None; sessionEnd := Some (end_ (normal timings)) |}
    else
      {| isOpen := false; session := "Closed"; reason := "Outside trading hours";
         nextOpenTime := Some (getNextOpenTime marketType); sessionEnd := None |}.
Proof.
  intros Hw Hh. unfold statusOfReading.
  rewrite (not_weekend_test ist Hw), (not_holiday_test ist Hh). reflexivity.
Qed.

Lemma weekend_dec (ist : IstTime) : isWeekend ist \/ ~ isWeekend ist.
Proof.
  destruct ((dayOfWeek ist =? 0) || (dayOfWeek ist =? 6)) eqn:E.
  - left. apply weekend_test, E.
  - right. intros H. apply weekend_test in H. congruence.
Qed.

Lemma holiday_dec (ist : IstTime) : isHoliday ist \/ ~ isHoliday ist.
Proof.
  destruct (existsb (String.eqb (currentDate ist)) MARKET_HOLIDAYS_2024) eqn:E.
  - left. apply holiday_test, E.
  - right. intros H. apply holiday_test in H. congruence.
Qed.

(** The sessions of the equity market, boundaries included: the earlier
    session wins the minute that two sessions share. *)
Lemma equity_sessions (ist : IstTime) (m : Z) :
  ~ isWeekend ist -> ~ isHoliday ist ->
  timeToMinutes (currentTime ist) = Some m ->
  (540 <= m <= 555 ->
     isOpen (statusOfReading equity ist) = true /\
     session (statusOfReading equity ist) = "Pre-market" /\
     sessionEnd (statusOfReading equity ist) = Some "09:15") /\
  (555 < m <= 930 ->
     isOpen (statusOfReading equity ist) = true /\
     session (statusOfReading equity ist) = "Open" /\
     sessionEnd (statusOfReading equity ist) = Some "15:30") /\
  (930 < m <= 960 ->
     isOpen (statusOfReading equity ist) = true /\
     session (statusOfReading equity ist) = "Post-market" /\
     sessionEnd (statusOfReading equity ist) = Some "16:00") /\
  (m < 540 \/ 960 < m ->
     isOpen (statusOfReading equity ist) = false /\
     reason (statusOfReading equity ist) = "Outside trading hours").
Proof.
  intros Hw Hh Hm. rewrite (status_on_trading_day equity ist Hw Hh).
  cbn [MARKET_TIMINGS is_equity preMarket normal postMarket in_session start end_ option_map].
  rewrite (isTimeInRange_parsed _ "09:00" "09:15" m 540 555 Hm eq_refl eq_refl).
  rewrite (isTimeInRange_parsed _ "09:15" "15:30" m 555 930 Hm eq_refl eq_refl).
  rewrite (isTimeInRange_parsed _ "15:30" "16:00" m 930 960 Hm eq_refl eq_refl).
  cbn [Z.ltb Z.compare Pos.compare Pos.compare_cont].
  destruct (540 <=? m) eqn:E1, (m <=? 555) eqn:E2, (555 <=? m) eqn:E3, (m <=? 930) eqn:E4,
           (930 <=? m) eqn:E5, (m <=? 960) eqn:E6;
    rewrite ?Z.leb_le, ?Z.leb_gt in *; cbn [andb];
    repeat split; intros; try lia; reflexivity.
Qed.

(** [currentTime] parses back to the minute of the day, for every minute
    of the day. *)
Lemma timeToMinutes_timeOfDay (m : Z) :
  0 <= m < 1440 -> timeToMinutes (JsDate.timeOfDay m) = Some m.
Proof.
  intros Hm.
  assert (Hall : forallb (fun n => match timeToMinutes (JsDate.timeOfDay (Z.of_nat n)) with
                                   | Some x => x =? Z.of_nat n
                                   | None => false
                                   end) (seq 0 1440) = true)
    by (vm_compute; reflexivity).
  rewrite forallb_forall in Hall. specialize (Hall (Z.to_nat m)).
  rewrite Z2Nat.id in Hall by lia.
  destruct (timeToMinutes (JsDate.timeOfDay m)) as [x |].
  - f_equal. apply Z.eqb_eq, Hall, in_seq. lia.
  - discriminate Hall. apply in_seq. lia.
Qed.

Lemma minuteOfDay_range (d : HostDate) : 0 <= minuteOfDay d < 1440.
Proof. unfold minuteOfDay. apply Z.mod_pos_bound. lia. Qed.

Lemma currentTime_minuteOfDay (d : HostDate) :
  timeToMinutes (currentTime (istTime d)) = Some (minuteOfDay d).
Proof. apply (timeToMinutes_timeOfDay (minuteOfDay d)), minuteOfDay_range. Qed.

(** On a host whose shift to UTC stays within the day of the exchange, the
    reading is a trading day exactly when the day of the exchange is. *)
Lemma reading_trading_day (d : HostDate) :
  OracleScenarios.sameDay d ->
  (~ isWeekend (istTime d) /\ ~ isHoliday (istTime d) <->
   ~ OracleScenarios.fallsOnWeekend d /\ ~ OracleScenarios.fallsOnHoliday d).
Proof.
  intros Hsd. pose proof (reading_weekend d (proj1 Hsd)) as Hw.
  pose proof (reading_date d Hsd) as Hd. unfold isHoliday, OracleScenarios.fallsOnHoliday.
  rewrite Hd. tauto.
Qed.

(** X1: a market is open exactly when the reading of the oracle is neither
    a weekend day nor a listed holiday and the minute of the day lies
    between the start of the first session of the market and the end of its
    last one, both minutes included.  The day of the week is the one that
    the wall clock of the exchange shows; the date looked up in the holiday
    table is the one that [toISOString] gives, the date of the exchange
    only where the host's shift to UTC stays within the day, as on a host
    in UTC. *)
Theorem market_open_iff (marketType : MarketType) (d : HostDate) (a b : Z) :
  timeToMinutes (start (firstSession marketType)) = Some a ->
  timeToMinutes (end_ (lastSession marketType)) = Some b ->
  (isWithinTradingHours marketType d = true <->
   ~ isWeekend (istTime d) /\ ~ isHoliday (istTime d) /\ a <= minuteOfDay d <= b) /\
  (OracleScenarios.sameDay d ->
   (isWithinTradingHours marketType d = true <->
    ~ OracleScenarios.fallsOnWeekend d /\ ~ OracleScenarios.fallsOnHoliday d /\
    a <= minuteOfDay d <= b)).
Proof.
  intros Ha Hb.
  assert (Hmain : isWithinTradingHours marketType d = true <->
                  ~ isWeekend (istTime d) /\ ~ isHoliday (istTime d) /\ a <= minuteOfDay d <= b).
  { pose proof (currentTime_minuteOfDay d) as Hm.
    unfold isWithinTradingHours, getCurrentMarketStatus.
    set (ist := istTime d) in *. set (m := minuteOfDay d) in *.
    destruct (weekend_dec ist) as [Hw | Hw].
    { rewrite (status_on_weekend marketType ist Hw). cbn. split; [discriminate | tauto]. }
    destruct (holiday_dec ist) as [Hh | Hh].
    { rewrite (status_on_weekday_holiday marketType ist Hw Hh). cbn.
      split; [discriminate | tauto]. }
    rewrite (status_on_trading_day marketType ist Hw Hh).
    destruct marketType; vm_compute in Ha, Hb; injection Ha as <-; injection Hb as <-;
      cbn [MARKET_TIMINGS is_equity preMarket normal postMarket in_session start end_ option_map].
    - rewrite (isTimeInRange_parsed _ "09:00" "09:15" m 540 555 Hm eq_refl eq_refl).
      rewrite (isTimeInRange_parsed _ "09:15" "15:30" m 555 930 Hm eq_refl eq_refl).
      rewrite (isTimeInRange_parsed _ "15:30" "16:00" m 930 960 Hm eq_refl eq_refl).
      cbn [Z.ltb Z.compare Pos.compare Pos.compare_cont].
      destruct (540 <=? m) eqn:E1, (m <=? 555) eqn:E2, (555 <=? m) eqn:E3, (m <=? 930) eqn:E4,
               (930 <=? m) eqn:E5, (m <=? 960) eqn:E6;
        rewrite ?Z.leb_le, ?Z.leb_gt in *; cbn [andb isOpen];
        (split; [intros H; try discriminate H; repeat split; auto; lia
                | intros (_ & _ & H); try reflexivity; lia]).
    - rewrite (isTimeInRange_parsed _ "09:00" "17:00" m 540 1020 Hm eq_refl eq_refl).
      cbn [Z.ltb Z.compare Pos.compare Pos.compare_cont].
      destruct (540 <=? m) eqn:E1, (m <=? 1020) eqn:E2;
        rewrite ?Z.leb_le, ?Z.leb_gt in *; cbn [andb isOpen];
        (split; [intros H; try discriminate H; repeat split; auto; lia
                | intros (_ & _ & H); try reflexivity; lia]).
    - rewrite (isTimeInRange_parsed _ "09:00" "23:30" m 540 1410 Hm eq_refl eq_refl).
      cbn [Z.ltb Z.compare Pos.compare Pos.compare_cont].
      destruct (540 <=? m) eqn:E1, (m <=? 1410) eqn:E2;
        rewrite ?Z.leb_le, ?Z.leb_gt in *; cbn [andb isOpen];
        (split; [intros H; try discriminate H; repeat split; auto; lia
                | intros (_ & _ & H); try reflexivity; lia]).
    - rewrite (isTimeInRange_parsed _ "09:00" "17:00" m 540 1020 Hm eq_refl eq_refl).
      cbn [Z.ltb Z.compare Pos.compare Pos.compare_cont].
      destruct (540 <=? m) eqn:E1, (m <=? 1020) eqn:E2;
        rewrite ?Z.leb_le, ?Z.leb_gt in *; cbn [andb isOpen];
        (split; [intros H; try discriminate H; repeat split; auto; lia
                | intros (_ & _ & H); try reflexivity; lia]).
    - rewrite (isTimeInRange_parsed _ "09:00" "17:00" m 540 1020 Hm eq_refl eq_refl).
      cbn [Z.ltb Z.compare Pos.compare Pos.compare_cont].
      destruct (540 <=? m) eqn:E1, (m <=? 1020) eqn:E2;
        rewrite ?Z.leb_le, ?Z.leb_gt in *; cbn [andb isOpen];
        (split; [intros H; try discriminate H; repeat split; auto; lia
                | intros (_ & _ & H); try reflexivity; lia]). }
  split; [exact Hmain |].
  intros Hsd. pose proof (reading_trading_day d Hsd) as Hday. tauto.
Qed.

(** X3: the classification never answers [bonds]: a name that holds "CORP"
    and "BOND" holds "BOND" and is taken for a government security first.
    Every name is an equity, a currency, a commodity or a government
    security. *)
Theorem classification_never_bonds (instrumentName : string) :
  (getMarketTypeForInstrument instrumentName = equity \/
   getMarketTypeForInstrument instrumentName = currency \/
   getMarketTypeForInstrument instrumentName = commodity \/
   getMarketTypeForInstrument instrumentName = gsec) /\
  (includes (toUpperCase instrumentName) "CORP" && includes (toUpperCase instrumentName) "BOND"
     = true ->
   getMarketTypeForInstrument instrumentName = currency \/
   getMarketTypeForInstrument instrumentName = commodity \/
   getMarketTypeForInstrument instrumentName = gsec).
Proof.
  unfold getMarketTypeForInstrument.
  set (name := toUpperCase instrumentName).
  destruct (includes_any name _); [split; auto |].
  destruct (includes_any name _); [split; auto |].
  destruct (includes_any name ["GSEC"; "GOVT"; "BOND"]) eqn:E; [split; auto |].
  unfold includes_any in E. cbn [existsb] in E.
  apply orb_false_iff in E as [_ E]. apply orb_false_iff in E as [_ E].
  apply orb_false_iff in E as [E _]. rewrite E, andb_false_r.
  split; [auto | discriminate].
Qed.

(** *** Names built from a token number *)

Lemma append_nil_l (s : string) : ("" ++ s)%string = s.
Proof. reflexivity. Qed.

Lemma append_cons (c : ascii) (s t : string) : (String c s ++ t)%string = String c (s ++ t).
Proof. reflexivity. Qed.

Lemma prefix_cons (c : ascii) (k : string) (x : ascii) (d : string) :
  String.prefix (String c k) (String x d) = if ascii_dec c x then String.prefix k d else false.
Proof. reflexivity. Qed.

Lemma prefix_app_noUpper (k pre d : string) :
  allUpper k = true -> noUpper d = true ->
  String.prefix k (pre ++ d) = true -> String.prefix k pre = true.
Proof.
  revert pre. induction k as [| c k IH]; intros pre Hk Hd; [destruct pre; reflexivity |].
  cbn in Hk. apply andb_true_iff in Hk as [Hc Hk].
  destruct pre as [| p pre]; [rewrite append_nil_l | rewrite append_cons, !prefix_cons].
  - destruct d as [| x d]; [discriminate |]. cbn in Hd.
    apply andb_true_iff in Hd as [Hx _]. rewrite prefix_cons.
    destruct (ascii_dec c x) as [-> | Hne]; [| intros H; discriminate H].
    rewrite Hc in Hx. discriminate Hx.
  - destruct (ascii_dec c p); [apply IH; assumption | intros H; discriminate H].
Qed.

Lemma includes_noUpper (k d : string) :
  allUpper k = true -> k <> EmptyString -> noUpper d = true -> includes d k = false.
Proof.
  intros Hk Hne. induction d as [| x d IH]; intros Hd.
  - destruct k; [congruence | reflexivity].
  - cbn in Hd. apply andb_true_iff in Hd as [Hx Hd].
    cbn [includes]. rewrite (IH Hd), orb_false_r.
    destruct k as [| c k]; [congruence |]. rewrite prefix_cons.
    cbn in Hk. apply andb_true_iff in Hk as [Hc _].
    destruct (ascii_dec c x) as [-> | _]; [| reflexivity].
    rewrite Hc in Hx. discriminate Hx.
Qed.

(** A keyword made of capital letters is found in [pre ++ d], where [d]
    holds no capital letter, only if it is found in [pre]. *)
Lemma includes_app_noUpper (k pre d : string) :
  allUpper k = true -> k <> EmptyString -> noUpper d = true ->
  includes (pre ++ d) k = true -> includes pre k = true.
Proof.
  intros Hk Hne Hd. induction pre as [| p pre IH].
  - rewrite append_nil_l, (includes_noUpper k d Hk Hne Hd). discriminate.
  - rewrite append_cons. cbn [includes]. intros H. apply orb_true_iff in H as [H | H].
    + apply (prefix_app_noUpper k (String p pre) d Hk Hd) in H. rewrite H. reflexivity.
    + rewrite (IH H). apply orb_true_r.
Qed.

Lemma digit_char_not_upper (r : Z) : 0 <= r < 10 -> isUpper (digit_char r) = false.
Proof.
  intros H.
  assert (Hr : r = 0 \/ r = 1 \/ r = 2 \/ r = 3 \/ r = 4 \/ r = 5 \/ r = 6 \/ r = 7 \/
               r = 8 \/ r = 9) by lia.
  repeat (destruct Hr as [-> | Hr]; [reflexivity |]). subst r. reflexivity.
Qed.

Lemma digit_char_upper_ascii (r : Z) : 0 <= r < 10 -> upper_ascii (digit_char r) = digit_char r.
Proof.
  intros H.
  assert (Hr : r = 0 \/ r = 1 \/ r = 2 \/ r = 3 \/ r = 4 \/ r = 5 \/ r = 6 \/ r = 7 \/
               r = 8 \/ r = 9) by lia.
  repeat (destruct Hr as [-> | Hr]; [reflexivity |]). subst r. reflexivity.
Qed.

Lemma decimal_fuel_noUpper (fuel : nat) (n : Z) (acc : string) :
  noUpper (toUpperCase acc) = true -> noUpper (toUpperCase (decimal_fuel fuel n acc)) = true.
Proof.
  revert n acc. induction fuel as [| fuel IH]; intros n acc Hacc; cbn [decimal_fuel];
    [exact Hacc |].
  assert (Hstep : noUpper (toUpperCase (String (digit_char (n mod 10)) acc)) = true).
  { cbn [toUpperCase noUpper].
    rewrite digit_char_upper_ascii by (apply Z.mod_pos_bound; lia).
    rewrite digit_char_not_upper by (apply Z.mod_pos_bound; lia). exact Hacc. }
  destruct (n / 10 =? 0); [exact Hstep | apply IH, Hstep].
Qed.

(** The decimal rendering of a number holds no letter. *)
Lemma of_Z_noUpper (n : Z) : noUpper (toUpperCase (of_Z n)) = true.
Proof.
  unfold of_Z. destruct (n <? 0).
  - cbn [toUpperCase noUpper]. apply decimal_fuel_noUpper. reflexivity.
  - apply decimal_fuel_noUpper. reflexivity.
Qed.

Lemma toUpperCase_app (s t : string) : toUpperCase (s ++ t) = (toUpperCase s ++ toUpperCase t)%string.
Proof.
  induction s as [| c s IH]; [reflexivity |].
  rewrite append_cons. cbn [toUpperCase]. rewrite IH. reflexivity.
Qed.

Lemma token_name_excludes (n : Z) (k : string) :
  allUpper k = true -> k <> EmptyString -> includes "TOKEN_" k = false ->
  includes (toUpperCase ("TOKEN_" ++ of_Z n)) k = false.
Proof.
  intros Hk Hne Hpre. rewrite toUpperCase_app.
  destruct (includes (toUpperCase "TOKEN_" ++ toUpperCase (of_Z n)) k) eqn:E; [| reflexivity].
  apply includes_app_noUpper in E; [| assumption | assumption | apply of_Z_noUpper].
  change (toUpperCase "TOKEN_") with "TOKEN_" in E. congruence.
Qed.

(** X4: An instrument without trading symbol whose token is not in the table is
    named [TOKEN_<number>] and classified as equity, whatever the number. *)
Theorem unknown_token_is_equity (tick : Tick.TickData) :
  Tick.tradingsymbol tick = None \/ Tick.tradingsymbol tick = Some EmptyString ->
  Tick.tokenMap (Tick.instrument_token tick) = None ->
  Tick.getInstrumentName tick = ("TOKEN_" ++ of_Z (Tick.instrument_token tick))%string /\
  getMarketTypeForInstrument (Tick.getInstrumentName tick) = equity.
Proof.
  intros Hsym Htok.
  assert (Hname : Tick.getInstrumentName tick
                  = ("TOKEN_" ++ of_Z (Tick.instrument_token tick))%string).
  { unfold Tick.getInstrumentName. destruct Hsym as [-> | ->]; rewrite Htok; reflexivity. }
  split; [exact Hname |]. rewrite Hname.
  unfold getMarketTypeForInstrument, includes_any. cbn [existsb].
  rewrite !token_name_excludes by first [reflexivity | discriminate].
  reflexivity.
Qed.

(** *** Time left in the session *)

Lemma open_status_end (marketType : MarketType) (ist : IstTime) :
  isOpen (statusOfReading marketType ist) = true ->
  exists e c, sessionEnd (statusOfReading marketType ist) = Some e /\
              e <> EmptyString /\ timeToMinutes e = Some c.
Proof.
  unfold statusOfReading.
  destruct ((dayOfWeek ist =? 0) || (dayOfWeek ist =? 6)); [discriminate |].
  destruct (existsb _ _); [discriminate |].
  destruct marketType; cbn [is_equity MARKET_TIMINGS preMarket normal postMarket in_session
                            option_map start end_];
    repeat match goal with
           | |- context [if ?b then _ else _] => destruct b
           end;
    cbn [isOpen sessionEnd]; intros H; try discriminate H;
    (eexists; eexists; split; [reflexivity | split; [discriminate | vm_compute; reflexivity]]).
Qed.

(** X5: [getTimeUntilMarketClose] answers [null] exactly when the market is
    closed; otherwise the answer is a number, never NaN, and not negative. *)
Theorem time_until_close_null_iff_closed (marketType : MarketType) (d : HostDate)
    (w : WallClock) :
  match getTimeUntilMarketClose marketType d w with
  | None => isOpen (getCurrentMarketStatus marketType d) = false
  | Some None => False
  | Some (Some r) => isOpen (getCurrentMarketStatus marketType d) = true /\ 0 <= r
  end.
Proof.
  unfold getTimeUntilMarketClose.
  destruct (isOpen (getCurrentMarketStatus marketType d)) eqn:Hopen; cbn [negb];
    [| reflexivity].
  destruct (open_status_end marketType (istTime d) Hopen) as (e & c & He & Hne & Hc).
  unfold getCurrentMarketStatus. rewrite He.
  destruct e as [| x e]; [congruence |]. rewrite Hc. split; [reflexivity | lia].
Qed.

(** X6: when the reading of the oracle is neither a weekend day nor a
    listed holiday (the date being the one that [toISOString] gives), and
    the second clock reading shows the same minute, the answer for equities
    counts the minutes to the end of the session in progress, not to the
    close of the day: to 09:15 during pre-market, to 15:30 during normal
    trading, to 16:00 in post-market; it is [null] outside the sessions. *)
Theorem equity_time_until_session_end (d : HostDate) (w : WallClock) :
  ~ isWeekend (istTime d) -> ~ isHoliday (istTime d) ->
  getHours w * 60 + getMinutes w = minuteOfDay d ->
  getTimeUntilMarketClose equity d w =
    if (540 <=? minuteOfDay d) && (minuteOfDay d <=? 555)
    then Some (Some (555 - minuteOfDay d))
    else if (555 <? minuteOfDay d) && (minuteOfDay d <=? 930)
    then Some (Some (930 - minuteOfDay d))
    else if (930 <? minuteOfDay d) && (minuteOfDay d <=? 960)
    then Some (Some (960 - minuteOfDay d))
    else None.
Proof.
  intros Hw Hh Hwall. pose proof (currentTime_minuteOfDay d) as Hm.
  set (m := minuteOfDay d) in *.
  destruct (equity_sessions (istTime d) m Hw Hh Hm) as (Hpre & Hopen & Hpost & Hout).
  unfold getTimeUntilMarketClose, getCurrentMarketStatus. rewrite Hwall.
  destruct ((540 <=? m) && (m <=? 555)) eqn:E1.
  { apply andb_true_iff in E1 as [A B]. apply Z.leb_le in A, B.
    destruct (Hpre (conj A B)) as (Ho & _ & He). rewrite Ho, He. cbn [negb].
    change (timeToMinutes "09:15") with (Some 555). do 2 f_equal. lia. }
  destruct ((555 <? m) && (m <=? 930)) eqn:E2.
  { apply andb_true_iff in E2 as [A B]. apply Z.ltb_lt in A. apply Z.leb_le in B.
    destruct (Hopen (conj A B)) as (Ho & _ & He). rewrite Ho, He. cbn [negb].
    change (timeToMinutes "15:30") with (Some 930). do 2 f_equal. lia. }
  destruct ((930 <? m) && (m <=? 960)) eqn:E3.
  { apply andb_true_iff in E3 as [A B]. apply Z.ltb_lt in A. apply Z.leb_le in B.
    destruct (Hpost (conj A B)) as (Ho & _ & He). rewrite Ho, He. cbn [negb].
    change (timeToMinutes "16:00") with (Some 960). do 2 f_equal. lia. }
  assert (Hm' : m < 540 \/ 960 < m).
  { apply andb_false_iff in E1, E2, E3.
    rewrite Z.leb_gt in E1, E2, E3. rewrite Z.leb_gt, Z.ltb_ge in *. lia. }
  destruct (Hout Hm') as (Ho & _). rewrite Ho. reflexivity.
Qed.

(** X2: when the reading of the oracle is neither a weekend day nor a
    listed holiday (the date being the one that [toISOString] gives, which
    is the date of the exchange only where the host's shift to UTC stays
    within the day), the minute of the day decides the session of the equity
    market: 09:00 to 09:15 is pre-market, after 09:15 and up to 15:30 normal
    trading, after 15:30 and up to 16:00 post-market, and the market is
    closed before 09:00 and after 16:00.  A boundary minute belongs to the
    earlier session. *)
Theorem equity_session_by_minute (d : HostDate) :
  ~ isWeekend (istTime d) -> ~ isHoliday (istTime d) ->
  (540 <= minuteOfDay d <= 555 ->
     isOpen (getCurrentMarketStatus equity d) = true /\
     session (getCurrentMarketStatus equity d) = "Pre-market" /\
     sessionEnd (getCurrentMarketStatus equity d) = Some "09:15") /\
  (555 < minuteOfDay d <= 930 ->
     isOpen (getCurrentMarketStatus equity d) = true /\
     session (getCurrentMarketStatus equity d) = "Open" /\
     sessionEnd (getCurrentMarketStatus equity d) = Some "15:30") /\
  (930 < minuteOfDay d <= 960 ->
     isOpen (getCurrentMarketStatus equity d) = true /\
     session (getCurrentMarketStatus equity d) = "Post-market" /\
     sessionEnd (getCurrentMarketStatus equity d) = Some "16:00") /\
  (minuteOfDay d < 540 \/ 960 < minuteOfDay d ->
     isOpen (getCurrentMarketStatus equity d) = false /\
     reason (getCurrentMarketStatus equity d) = "Outside trading hours").
Proof.
  intros Hw Hh.
  exact (equity_sessions (istTime d) (minuteOfDay d) Hw Hh (currentTime_minuteOfDay d)).
Qed.

Lemma trading_day_utc (d : HostDate) :
  hostSkip d = 0 -> hostOffset d = 0 ->
  ~ OracleScenarios.fallsOnWeekend d -> ~ OracleScenarios.fallsOnHoliday d ->
  ~ isWeekend (istTime d) /\ ~ isHoliday (istTime d).
Proof.
  intros Hs Ho Hw Hh. apply reading_trading_day; [apply sameDay_utc; assumption | auto].
Qed.

Lemma not_in_holidays (date : string) :
  existsb (String.eqb date) MARKET_HOLIDAYS_2024 = false -> ~ In date MARKET_HOLIDAYS_2024.
Proof.
  intros H Hin. apply not_true_iff_false in H. apply H.
  apply existsb_exists. exists date. split; [exact Hin | apply String.eqb_refl].
Qed.

Lemma preOpen_trading_day (hour minute : Z) :
  0 <= hour < 24 -> 0 <= minute < 60 ->
  ~ isWeekend (istTime (preOpen hour minute)) /\ ~ isHoliday (istTime (preOpen hour minute)).
Proof.
  intros Hh Hm.
  assert (Hday : (epochMinutes (preOpen hour minute) + IST_OFFSET) / 1440
                 = JsDate.daysFromCivil 2024 1 25).
  { unfold preOpen, OracleScenarios.atIst. cbn [epochMinutes].
    symmetry. apply (Z.div_unique _ 1440 _ (hour * 60 + minute)); lia. }
  apply trading_day_utc; try reflexivity.
  - unfold OracleScenarios.fallsOnWeekend, OracleScenarios.istDay, OracleScenarios.istWall.
    rewrite Hday. intros [H | H]; vm_compute in H; discriminate H.
  - unfold OracleScenarios.fallsOnHoliday, OracleScenarios.dateOf, OracleScenarios.istDay,
      OracleScenarios.istWall.
    rewrite Hday. apply not_in_holidays. vm_compute. reflexivity.
Qed.

(** The date read is not always that of the exchange: in Sydney, on the
    morning of a trading day, the date read is that of the day before, a
    listed holiday, and the equity market is reported closed. *)
Lemma reading_in_sydney :
  ~ OracleScenarios.fallsOnWeekend inSydney /\ ~ OracleScenarios.fallsOnHoliday inSydney /\
  currentDate (istTime inSydney) = "2024-04-17" /\
  isHoliday (istTime inSydney) /\
  reason (getCurrentMarketStatus equity inSydney) = "Market Holiday".
Proof.
  split; [intros [H | H]; vm_compute in H; discriminate H |].
  split; [apply not_in_holidays; vm_compute; reflexivity |].
  split; [vm_compute; reflexivity |].
  split; [apply holiday_test; vm_compute; reflexivity | vm_compute; reflexivity].
Qed.

(** In New York, on the evening of Republic Day at the exchange, the date
    read is that of the day after and the commodity market is open. *)
Lemma market_open_iff_witness :
  OracleScenarios.fallsOnHoliday inNewYork /\
  currentDate (istTime inNewYork) = "2024-01-27" /\
  minuteOfDay inNewYork = 1200 /\
  isWithinTradingHours commodity inNewYork = true.
Proof.
  split; [left; reflexivity |]. split; [vm_compute; reflexivity |].
  split; [reflexivity |].
  apply (proj1 (market_open_iff commodity inNewYork 540 1410 eq_refl eq_refl)).
  split; [intros [H | H]; vm_compute in H; discriminate H |].
  split; [apply not_in_holidays; vm_compute; reflexivity |].
  vm_compute. split; discriminate.
Defined.

Lemma equity_session_by_minute_witness :
  minuteOfDay (preOpen 9 15) = 555 /\
  session (getCurrentMarketStatus equity (preOpen 9 15)) = "Pre-market".
Proof.
  split; [reflexivity |].
  destruct (preOpen_trading_day 9 15 ltac:(lia) ltac:(lia)) as [Hw Hh].
  destruct (equity_session_by_minute (preOpen 9 15) Hw Hh) as (H & _).
  destruct H as (_ & H & _); [vm_compute; split; discriminate | exact H].
Defined.

Lemma unknown_token_is_equity_witness :
  getMarketTypeForInstrument
    (Tick.getInstrumentName (EngineScenarios.priceTick 738561 100 0)) = equity.
Proof.
  destruct (unknown_token_is_equity (EngineScenarios.priceTick 738561 100 0)
              (or_introl eq_refl) eq_refl) as [_ H].
  exact H.
Defined.

Lemma equity_time_until_session_end_witness :
  getTimeUntilMarketClose equity (preOpen 9 10) {| getHours := 9; getMinutes := 10 |}
  = Some (Some 5).
Proof.
  destruct (preOpen_trading_day 9 10 ltac:(lia) ltac:(lia)) as [Hw Hh].
  exact (equity_time_until_session_end (preOpen 9 10) {| getHours := 9; getMinutes := 10 |}
           Hw Hh eq_refl).
Defined.

End MarketHoursFacts.

From Stdlib Require Import Qpower.

Section FeedLifecycleFacts.
Import JsString JsMath JsControl MarketTimings Tick TickFeed FeedScenarios FeedLifecycle.

(** ** The limits of the logs *)

















(** ** Refs, timers and sources *)

Lemma Tidy_sameWiring (f f' : Feed) : sameWiring f f' -> Tidy f -> Tidy f'.
Proof.
  intros (H1 & H2 & H3 & H4 & H5) [T1 T2 T3].
  constructor; rewrite ?H1, ?H2, ?H3, ?H4, ?H5; assumption.
Qed.

Lemma sameWiring_control (f f' : Feed) : control f' = control f -> sameWiring f f'.
Proof. unfold control. intros [= ? ? ? ? ? ? ? ? ?]. repeat split; assumption. Qed.

Lemma Tidy_init : Tidy init.
Proof.
  constructor; cbn; intros ? ? H; rewrite lookup_empty in H; discriminate H.
Qed.

Lemma Tidy_addDebugInfo m (f : Feed) : Tidy f -> Tidy (addDebugInfo m f).
Proof. apply Tidy_sameWiring. repeat split. Qed.

Lemma Tidy_addAlert t m s now (f : Feed) : Tidy f -> Tidy (addAlert t m s now f).
Proof. apply Tidy_sameWiring. repeat split. Qed.

Lemma Tidy_clearTimeout id (f : Feed) : Tidy f -> Tidy (clearTimeout id f).
Proof.
  intros [T1 T2 T3]. constructor; cbn.
  - intros i t Hi. apply lookup_delete_Some in Hi as [_ Hi]. eauto.
  - intros i t Hi. apply lookup_delete_Some in Hi as [_ Hi]. eauto.
  - exact T3.
Qed.

Lemma Tidy_clearRef r (f : Feed) : Tidy f -> Tidy (clearRef r f).
Proof. destruct r; [apply Tidy_clearTimeout | exact (fun T => T)]. Qed.

Lemma Tidy_setReadyState es r (f : Feed) :
  r = CLOSED \/ eventSourceRef f = Some es -> Tidy f -> Tidy (setReadyState es r f).
Proof.
  intros Hr [T1 T2 T3]. constructor; cbn; [exact T1 | exact T2 |].
  intros es' s' Hs Hne. destruct (decide (es' = es)) as [-> | Hd].
  - rewrite lookup_alter_eq in Hs. destruct (sources f !! es) as [s |]; [| discriminate Hs].
    cbn in Hs. injection Hs as <-. cbn in Hne. destruct Hr as [-> | Hr]; [congruence | exact Hr].
  - rewrite lookup_alter_ne in Hs by congruence. eauto.
Qed.

(** Once the current source is closed, every source is. *)
Lemma closed_after_close (f : Feed) :
  Tidy f ->
  forall es s,
    sources (match eventSourceRef f with Some c => closeSource c f | None => f end) !! es
      = Some s ->
    readyState s = CLOSED.
Proof.
  intros [T1 T2 T3] es s. destruct (eventSourceRef f) as [c |] eqn:Hc.
  - cbn. destruct (decide (es = c)) as [-> | Hd].
    + rewrite lookup_alter_eq. destruct (sources f !! c); [| discriminate].
      cbn. intros [= <-]. reflexivity.
    + rewrite lookup_alter_ne by congruence. intros Hs.
      destruct (readyState s) eqn:E; try reflexivity;
        (assert (Some c = Some es) by (apply (T3 es s Hs); congruence); congruence).
  - intros Hs. destruct (readyState s) eqn:E; try reflexivity;
      (assert (@None nat = Some es) by (apply (T3 es s Hs); congruence); discriminate).
Qed.

Lemma Tidy_connectToSSE (now : Z) (f : Feed) : Tidy f -> Tidy (connectToSSE now f).
Proof.
  intros T. pose proof (closed_after_close f T) as Hcl. destruct T as [T1 T2 T3].
  unfold connectToSSE.
  set (f1 := match eventSourceRef f with Some c => closeSource c f | None => f end) in *.
  assert (Ht : timers f1 = timers f) by (subst f1; destruct (eventSourceRef f); reflexivity).
  assert (Hf : freezeTimeoutRef f1 = freezeTimeoutRef f)
    by (subst f1; destruct (eventSourceRef f); reflexivity).
  assert (Hr : reconnectTimeoutRef f1 = reconnectTimeoutRef f)
    by (subst f1; destruct (eventSourceRef f); reflexivity).
  assert (Hn : next_source f1 = next_source f)
    by (subst f1; destruct (eventSourceRef f); reflexivity).
  constructor; cbn; rewrite ?Ht, ?Hf, ?Hr.
  - intros i t Hi Hk. apply lookup_insert_Some in Hi as [[_ <-] | [_ Hi]];
      [discriminate Hk | eauto].
  - intros i t Hi Hk. apply lookup_insert_Some in Hi as [[_ <-] | [_ Hi]];
      [discriminate Hk | eauto].
  - intros es s Hs Hne. apply lookup_insert_Some in Hs as [[<- _] | [_ Hs]];
      [reflexivity |].
    apply Hcl in Hs. congruence.
Qed.

(** Arming a watchdog in the way the listeners do: the timer the ref held
    is cleared first. *)
Lemma Tidy_rearm_freeze (d : Q) (now : Z) (f : Feed) :
  Tidy f ->
  Tidy (with_refs (eventSourceRef f) (Some (next_timer f)) (reconnectTimeoutRef f)
          (snd (setTimeout FreezeWatchdog d now (clearRef (freezeTimeoutRef f) f)))).
Proof.
  intros [T1 T2 T3].
  assert (Hold : forall i t, timers (clearRef (freezeTimeoutRef f) f) !! i = Some t ->
                             timers f !! i = Some t /\ freezeTimeoutRef f <> Some i).
  { intros i t. unfold clearRef. destruct (freezeTimeoutRef f) as [old |]; cbn.
    - intros Hi. apply lookup_delete_Some in Hi as [Hne Hi]. split; [exact Hi | congruence].
    - intros Hi. split; [exact Hi | discriminate]. }
  assert (Hn : next_timer (clearRef (freezeTimeoutRef f) f) = next_timer f)
    by (unfold clearRef; destruct (freezeTimeoutRef f); reflexivity).
  assert (Hs : sources (clearRef (freezeTimeoutRef f) f) = sources f)
    by (unfold clearRef; destruct (freezeTimeoutRef f); reflexivity).
  constructor; cbn; rewrite ?Hn, ?Hs.
  - intros i t Hi Hk. apply lookup_insert_Some in Hi as [[<- _] | [_ Hi]]; [reflexivity |].
    apply Hold in Hi as [Hi Hne]. exfalso. apply Hne. eauto.
  - intros i t Hi Hk. apply lookup_insert_Some in Hi as [[_ <-] | [_ Hi]];
      [discriminate Hk |].
    apply Hold in Hi as [Hi _]. eauto.
  - exact T3.
Qed.

Lemma Tidy_rearm_reconnect (d : Q) (now : Z) (f : Feed) :
  Tidy f ->
  Tidy (with_refs (eventSourceRef f) (freezeTimeoutRef f) (Some (next_timer f))
          (snd (setTimeout Reconnect d now (clearRef (reconnectTimeoutRef f) f)))).
Proof.
  intros [T1 T2 T3].
  assert (Hold : forall i t, timers (clearRef (reconnectTimeoutRef f) f) !! i = Some t ->
                             timers f !! i = Some t /\ reconnectTimeoutRef f <> Some i).
  { intros i t. unfold clearRef. destruct (reconnectTimeoutRef f) as [old |]; cbn.
    - intros Hi. apply lookup_delete_Some in Hi as [Hne Hi]. split; [exact Hi | congruence].
    - intros Hi. split; [exact Hi | discriminate]. }
  assert (Hn : next_timer (clearRef (reconnectTimeoutRef f) f) = next_timer f)
    by (unfold clearRef; destruct (reconnectTimeoutRef f); reflexivity).
  assert (Hs : sources (clearRef (reconnectTimeoutRef f) f) = sources f)
    by (unfold clearRef; destruct (reconnectTimeoutRef f); reflexivity).
  constructor; cbn; rewrite ?Hn, ?Hs.
  - intros i t Hi Hk. apply lookup_insert_Some in Hi as [[_ <-] | [_ Hi]];
      [discriminate Hk |].
    apply Hold in Hi as [Hi _]. eauto.
  - intros i t Hi Hk. apply lookup_insert_Some in Hi as [[<- _] | [_ Hi]]; [reflexivity |].
    apply Hold in Hi as [Hi Hne]. exfalso. apply Hne. eauto.
  - exact T3.
Qed.

Lemma onTick_shape (msg : Message) (now : Z) (f : Feed) :
  onTick msg now f = snd (processTickData msg "tick" now f) \/
  exists g, sameWiring f g /\
    onTick msg now f =
      with_refs (eventSourceRef g) (Some (next_timer g)) (reconnectTimeoutRef g)
        (snd (setTimeout FreezeWatchdog (inject_Z FREEZE_THRESHOLD) now
                (clearRef (freezeTimeoutRef g) g))).
Proof.
  unfold onTick. pose proof (processTickData_control msg "tick" now f) as Hc.
  destruct (processTickData msg "tick" now f) as [l f1]. cbn [snd] in *.
  destruct l as [| t0 l]; [left; reflexivity | right].
  set (l' := t0 :: l).
  set (f2 := with_data _ _ _ _ f1).
  set (f3 := if (0 <? highDelay l')%nat then _ else f2).
  exists f3. split.
  - apply sameWiring_control in Hc. destruct Hc as (H1 & H2 & H3 & H4 & H5).
    subst f3. destruct (0 <? highDelay l')%nat; repeat split; assumption.
  - assert (Hn : next_timer (clearRef (freezeTimeoutRef f3) f3) = next_timer f3)
      by (unfold clearRef; destruct (freezeTimeoutRef f3); reflexivity).
    unfold setTimeout. cbn [snd]. rewrite Hn.
    unfold clearRef. destruct (freezeTimeoutRef f3); reflexivity.
Qed.

Lemma Tidy_onTick (msg : Message) (now : Z) (f : Feed) : Tidy f -> Tidy (onTick msg now f).
Proof.
  intros T. destruct (onTick_shape msg now f) as [-> | (g & Hw & ->)].
  - eapply Tidy_sameWiring; [| exact T].
    apply sameWiring_control, processTickData_control.
  - apply Tidy_rearm_freeze. eapply Tidy_sameWiring; [exact Hw | exact T].
Qed.

Lemma Tidy_onopen es now (f : Feed) : Tidy f -> Tidy (onopen es now f).
Proof.
  intros T. unfold onopen. destruct (sources f !! es) as [src |]; [| exact T].
  apply Tidy_addAlert.
  eapply Tidy_sameWiring;
    [| exact (Tidy_addDebugInfo DbgOpened _ (Tidy_clearTimeout (connectionTimeout src) f T))].
  repeat split.
Qed.

Lemma Tidy_onerror es now (f : Feed) : Tidy f -> Tidy (onerror es now f).
Proof.
  intros T. unfold onerror. destruct (sources f !! es) as [src |]; [| exact T].
  set (f2 := addDebugInfo DbgError _).
  assert (T2 : Tidy f2) by (apply Tidy_addDebugInfo, Tidy_clearTimeout, T).
  destruct (readyState src); try exact T2.
  set (f4 := with_connection _ _ _ _).
  set (f5 := addAlert _ _ _ _ f4).
  assert (T5 : Tidy f5).
  { apply Tidy_addAlert. eapply Tidy_sameWiring; [| exact (Tidy_addDebugInfo DbgClosed f2 T2)].
    repeat split. }
  pose proof (Tidy_rearm_reconnect (reconnectDelay (connectionAttempts f4)) now f5 T5) as H.
  assert (Hn : next_timer (clearRef (reconnectTimeoutRef f5) f5) = next_timer f5)
    by (unfold clearRef; destruct (reconnectTimeoutRef f5); reflexivity).
  unfold setTimeout in *. cbn [snd] in H. rewrite Hn in *.
  unfold clearRef in *. destruct (reconnectTimeoutRef f5); exact H.
Qed.

Lemma Tidy_timerCallback k now (f : Feed) : Tidy f -> Tidy (timerCallback k now f).
Proof.
  intros T. destruct k as [es | |]; cbn [timerCallback].
  - destruct (sources f !! es) as [[[] tid] |]; try exact T.
    apply Tidy_addAlert, Tidy_setReadyState; [left; reflexivity |].
    apply Tidy_addDebugInfo, T.
  - apply Tidy_addAlert. eapply Tidy_sameWiring; [| exact T]. repeat split.
  - apply Tidy_connectToSSE, T.
Qed.

Lemma live_is_current (es : nat) (f : Feed) (r : ReadyState) :
  Tidy f -> sourceState es f = Some r -> r <> CLOSED -> eventSourceRef f = Some es.
Proof.
  intros [_ _ T3] Hs Hr. unfold sourceState in Hs.
  destruct (sources f !! es) as [s |] eqn:E; [| discriminate Hs].
  cbn in Hs. injection Hs as Hs. apply (T3 es s E). congruence.
Qed.

Lemma Tidy_step (f : Feed) (ev : Event) : Tidy f -> Tidy (step f ev).
Proof.
  intros T. destruct ev as [now | es now | es msg now | es closed now | id now]; cbn [step].
  - apply Tidy_connectToSSE, T.
  - destruct (sourceState es f) as [[] |] eqn:E; try exact T.
    apply Tidy_onopen, Tidy_setReadyState; [| exact T].
    right. apply (live_is_current es f CONNECTING T E). discriminate.
  - destruct (sourceState es f) as [[] |]; try exact T. apply Tidy_onTick, T.
  - destruct (sourceState es f) as [[] |] eqn:E; try exact T;
      (apply Tidy_onerror, Tidy_setReadyState; [| exact T]);
      right; eapply live_is_current; eauto; discriminate.
  - destruct (timers f !! id) as [t |]; [| exact T].
    destruct (due t now); [| exact T].
    apply Tidy_timerCallback, Tidy_clearTimeout, T.
Qed.

Lemma Tidy_run (evs : list Event) (f : Feed) : Tidy f -> Tidy (run evs f).
Proof. apply fold_left_preserves. intros a b. apply Tidy_step. Qed.

(** ** What holds of every feed the hook can reach *)


Lemma pending_In (k : TimerKind -> bool) (f : Feed) (id : nat) :
  In id (pending k f) <-> exists t, timers f !! id = Some t /\ k (kind t) = true.
Proof.
  unfold pending. rewrite in_map_iff. split.
  - intros ([id' t] & <- & Hin). apply filter_In in Hin as [Hin Hk].
    apply list_elem_of_In, elem_of_map_to_list in Hin. eauto.
  - intros (t & Ht & Hk). exists (id, t). split; [reflexivity |].
    apply filter_In. split; [| exact Hk].
    apply list_elem_of_In, elem_of_map_to_list, Ht.
Qed.

Lemma pending_at_most_one (k : TimerKind -> bool) (f : Feed) (r : option nat) :
  (forall id, In id (pending k f) -> r = Some id) -> (length (pending k f) <= 1)%nat.
Proof.
  intros Hall.
  assert (Hnd : NoDup (pending k f)) by apply NoDup_fst_filter, NoDup_fst_map_to_list.
  destruct (pending k f) as [| a [| b l]]; cbn; [lia | lia |].
  exfalso. assert (Some a = Some b) as [= ->].
  { rewrite <- (Hall a), <- (Hall b); cbn; auto. }
  apply NoDup_cons in Hnd as [Hnin _]. apply Hnin. left.
Qed.

(** X8: at any time at most one freeze watchdog and at most one reconnect
    are pending, each held by its ref, and a source that is not closed is
    the one [eventSourceRef] holds. *)
Theorem feed_timers_accounted (evs : list Event) :
  (length (pending isFreeze (run evs init)) <= 1)%nat /\
  (forall id, In id (pending isFreeze (run evs init)) ->
              freezeTimeoutRef (run evs init) = Some id) /\
  (length (pending isReconnect (run evs init)) <= 1)%nat /\
  (forall id, In id (pending isReconnect (run evs init)) ->
              reconnectTimeoutRef (run evs init) = Some id) /\
  (forall es r, sourceState es (run evs init) = Some r -> r <> CLOSED ->
                eventSourceRef (run evs init) = Some es).
Proof.
  pose proof (Tidy_run evs init Tidy_init) as T.
  assert (Hf : forall id, In id (pending isFreeze (run evs init)) ->
                          freezeTimeoutRef (run evs init) = Some id).
  { intros id Hin. apply pending_In in Hin as (t & Ht & Hk).
    apply (td_freeze _ T id t Ht). destruct (kind t); try discriminate Hk. reflexivity. }
  assert (Hr : forall id, In id (pending isReconnect (run evs init)) ->
                          reconnectTimeoutRef (run evs init) = Some id).
  { intros id Hin. apply pending_In in Hin as (t & Ht & Hk).
    apply (td_reconnect _ T id t Ht). destruct (kind t); try discriminate Hk. reflexivity. }
  split; [exact (pending_at_most_one _ _ _ Hf) |].
  split; [exact Hf |].
  split; [exact (pending_at_most_one _ _ _ Hr) |].
  split; [exact Hr |].
  intros es r. apply live_is_current, T.
Qed.

(** ** Unmounting *)

Lemma hookState_cleanup (f : Feed) : hookState (cleanup f) = hookState f.
Proof.
  unfold cleanup, clearRef.
  destruct (eventSourceRef f) as [es |]; cbn;
    destruct (freezeTimeoutRef f); cbn; destruct (reconnectTimeoutRef f); reflexivity.
Qed.

Lemma Quiet_cleanup (f : Feed) : Tidy f -> Quiet (cleanup f).
Proof.
  intros T. pose proof (closed_after_close f T) as Hcl. destruct T as [T1 T2 T3].
  unfold cleanup.
  set (f1 := match eventSourceRef f with Some c => closeSource c f | None => f end) in *.
  assert (Ht : timers f1 = timers f) by (subst f1; destruct (eventSourceRef f); reflexivity).
  assert (Hf : freezeTimeoutRef f1 = freezeTimeoutRef f)
    by (subst f1; destruct (eventSourceRef f); reflexivity).
  assert (Hr : reconnectTimeoutRef f1 = reconnectTimeoutRef f)
    by (subst f1; destruct (eventSourceRef f); reflexivity).
  set (f2 := clearRef (freezeTimeoutRef f1) f1).
  assert (Hr2 : reconnectTimeoutRef f2 = reconnectTimeoutRef f)
    by (subst f2; unfold clearRef; destruct (freezeTimeoutRef f1); exact Hr).
  assert (Hs2 : sources (clearRef (reconnectTimeoutRef f2) f2) = sources f1).
  { unfold clearRef. destruct (reconnectTimeoutRef f2); subst f2; unfold clearRef;
      destruct (freezeTimeoutRef f1); reflexivity. }
  assert (Ht2 : forall id t, timers (clearRef (reconnectTimeoutRef f2) f2) !! id = Some t ->
                  timers f !! id = Some t /\ freezeTimeoutRef f <> Some id /\
                  reconnectTimeoutRef f <> Some id).
  { intros id t. rewrite Hr2. subst f2. rewrite Hf. unfold clearRef.
    destruct (reconnectTimeoutRef f) as [rc |], (freezeTimeoutRef f) as [fz |]; cbn;
      rewrite ?Ht; intros Hi;
      repeat match goal with
             | H : delete _ _ !! _ = Some _ |- _ => apply lookup_delete_Some in H as [? H]
             end; repeat split; congruence. }
  constructor.
  - intros es s. rewrite Hs2. apply Hcl.
  - intros id t Hi. apply Ht2 in Hi as (Hi & Hnf & Hnr).
    destruct (kind t) as [es | |] eqn:Hk; [eauto | |].
    + exfalso. apply Hnf. eauto.
    + exfalso. apply Hnr. eauto.
Qed.

Lemma Quiet_step (f : Feed) (ev : Event) :
  Quiet f -> isMount ev = false ->
  Quiet (step f ev) /\ hookState (step f ev) = hookState f.
Proof.
  intros Q Hm.
  assert (Hcl : forall es r, sourceState es f = Some r -> r = CLOSED).
  { intros es r. unfold sourceState. destruct (sources f !! es) as [s |] eqn:E; [| discriminate].
    cbn. intros [= <-]. apply (qt_sources _ Q es s E). }
  destruct ev as [now | es now | es msg now | es closed now | id now]; cbn [step];
    [discriminate Hm | | | |].
  - destruct (sourceState es f) as [r |] eqn:E; [| auto].
    rewrite (Hcl es r E). auto.
  - destruct (sourceState es f) as [r |] eqn:E; [| auto].
    rewrite (Hcl es r E). auto.
  - destruct (sourceState es f) as [r |] eqn:E; [| auto].
    rewrite (Hcl es r E). auto.
  - destruct (timers f !! id) as [t |] eqn:Ht; [| auto].
    destruct (due t now); [| auto].
    destruct (qt_timers _ Q id t Ht) as [es ->]. cbn [timerCallback].
    assert (Hq : Quiet (clearTimeout id f)).
    { constructor; cbn.
      - apply (qt_sources _ Q).
      - intros i t' Hi. apply lookup_delete_Some in Hi as [_ Hi]. apply (qt_timers _ Q i t' Hi). }
    change (sources (clearTimeout id f)) with (sources f).
    destruct (sources f !! es) as [[r tid] |] eqn:E; [| auto].
    pose proof (qt_sources _ Q es _ E) as Hr. cbn in Hr. subst r. auto.
Qed.

Lemma Quiet_run (evs : list Event) (f : Feed) :
  Quiet f -> forallb (fun ev => negb (isMount ev)) evs = true ->
  hookState (run evs f) = hookState f.
Proof.
  revert f. induction evs as [| ev evs IH]; intros f Q Hm; [reflexivity |].
  cbn in Hm. apply andb_true_iff in Hm as [Hev Hm]. apply negb_true_iff in Hev.
  destruct (Quiet_step f ev Q Hev) as [Q' Hh].
  change (run (ev :: evs) f) with (run evs (step f ev)).
  rewrite (IH _ Q' Hm). exact Hh.
Qed.

(** X9: once the hook has unmounted, nothing the browser still delivers
    short of a new mount (late events of closed sources, the expiry of a
    connection timeout that the cleanup leaves pending) changes the state of
    the hook. *)
Theorem unmount_is_final (evs later : list Event) :
  forallb (fun ev => negb (isMount ev)) later = true ->
  hookState (run later (cleanup (run evs init))) = hookState (run evs init).
Proof.
  intros Hm. rewrite Quiet_run; [apply hookState_cleanup | | exact Hm].
  apply Quiet_cleanup, Tidy_run, Tidy_init.
Qed.

Lemma unmount_is_final_witness :
  hookState (run [TimerFired 1%nat 15000; TickEvent 0%nat firstTick 15010]
                 (cleanup (run [Mount 0] init)))
  = hookState (run [Mount 0] init).
Proof.
  exact (unmount_is_final [Mount 0] [TimerFired 1%nat 15000; TickEvent 0%nat firstTick 15010]
           eq_refl).
Defined.

(** ** The average delay *)






(** X11: the average is taken over the last fifty elements of the list.
    The hook stores ticks newest first, so ticks put in front of fifty or
    more others do not enter the average. *)
Theorem average_skips_newest (newer older : list TickData) :
  (50 <= length older)%nat ->
  calculateAverageDelay (newer ++ older) = calculateAverageDelay older.
Proof.
  intros Hlen.
  assert (Hlast : Inactivity.lastN 50 (newer ++ older) = Inactivity.lastN 50 older).
  { unfold Inactivity.lastN. rewrite length_app.
    replace (length newer + length older - 50)%nat
      with (length newer + (length older - 50))%nat by lia.
    apply drop_app_add. }
  unfold calculateAverageDelay. rewrite Hlast.
  destruct older as [| o older]; [cbn in Hlen; lia |].
  destruct newer; reflexivity.
Qed.

Lemma average_skips_newest_witness :
  delay lateTick = Some 5000 /\
  calculateAverageDelay (lateTick :: fiftyTicks) = calculateAverageDelay fiftyTicks.
Proof.
  split; [reflexivity |].
  apply (average_skips_newest [lateTick] fiftyTicks). cbn. lia.
Defined.

(** ** Reconnecting *)

Lemma qmin_le_r (a b : Q) : (qmin a b <= b)%Q.
Proof.
  unfold qmin. destruct (Qle_bool a b) eqn:E; [apply Qle_bool_iff, E | apply Qle_refl].
Qed.

Lemma qmin_mono (a a' b : Q) : (a <= a')%Q -> (qmin a b <= qmin a' b)%Q.
Proof.
  intros H. unfold qmin.
  destruct (Qle_bool a b) eqn:E, (Qle_bool a' b) eqn:E'.
  - exact H.
  - apply Qle_bool_iff, E.
  - exfalso. apply Qle_bool_iff in E'.
    assert (Qle_bool a b = true) by (apply Qle_bool_iff; eapply Qle_trans; eauto).
    congruence.
  - apply Qle_refl.
Qed.

(** X12: the delay before a reconnect grows with the number of attempts,
    never exceeds thirty seconds, and is thirty seconds from the fourth
    attempt on; right after a connection that had opened it is 2.5 s, the
    counter being back at zero. *)
Theorem reconnect_delay_schedule :
  (forall n m : Z, n <= m -> (reconnectDelay n <= reconnectDelay m)%Q) /\
  (forall n : Z, (reconnectDelay n <= 30000)%Q) /\
  (forall n : Z, 4 <= n -> reconnectDelay n = 30000%Q) /\
  (reconnectDelay 0 == 2500)%Q /\ (reconnectDelay 1 == 5000)%Q /\
  (reconnectDelay 2 == 10000)%Q.
Proof.
  split; [| split; [| split]].
  - intros n m Hnm. apply qmin_mono.
    apply Qmult_le_l; [reflexivity |].
    apply Qpower_le_compat_l; [lia | discriminate].
  - intros n. apply qmin_le_r.
  - intros n Hn. unfold reconnectDelay, qmin.
    destruct (Qle_bool (5000 * Qpower 2 (n - 1)) 30000) eqn:E; [| reflexivity].
    exfalso. apply Qle_bool_iff in E.
    assert (H8 : (Qpower 2 3 <= Qpower 2 (n - 1))%Q)
      by (apply Qpower_le_compat_l; [lia | discriminate]).
    assert (H : (5000 * Qpower 2 3 <= 5000 * Qpower 2 (n - 1))%Q)
      by (apply Qmult_le_l; [reflexivity | exact H8]).
    assert (Hc : (5000 * Qpower 2 3 <= 30000)%Q) by (eapply Qle_trans; eauto).
    revert Hc. vm_compute. intros Hc. apply Hc. reflexivity.
  - repeat split; reflexivity.
Qed.

Lemma reconnect_delay_schedule_witness :
  (reconnectDelay 3 <= reconnectDelay 7)%Q /\ reconnectDelay 7 = 30000%Q.
Proof.
  destruct reconnect_delay_schedule as (Hmono & _ & Hcap & _).
  split; [apply Hmono; lia | apply Hcap; lia].
Defined.

(** ** Messages *)




(** X14: a message that is not a JSON array or string (a syntax error,
    [null], a number, an object) adds no tick and raises one alert of type
    data and severity medium; the tick counters, the frozen flag and the
    freeze watchdog stay as they were. *)
Theorem malformed_message_only_alerts (msg : Message) (now : Z) (f : Feed) :
  parses msg = false ->
  ticks (onTick msg now f) = ticks f /\
  totalTicks (onTick msg now f) = totalTicks f /\
  lastTickTime (onTick msg now f) = lastTickTime f /\
  control (onTick msg now f) = control f /\
  lastTickTimestamps (onTick msg now f) = lastTickTimestamps f /\
  alerts (onTick msg now f)
    = take (MAX_ALERTS - 1)
        ({| type := dataAlert; message := MsgErrorProcessing; alertTime := now;
            severity := medium |} :: alerts f).
Proof.
  unfold parses, onTick, processTickData.
  destruct (parsed msg); intros Hp; try discriminate Hp; repeat split; reflexivity.
Qed.

Lemma malformed_message_only_alerts_witness :
  ticks (onTick garbled 30 streaming) = ticks streaming /\
  control (onTick garbled 30 streaming) = control streaming.
Proof.
  destruct (malformed_message_only_alerts garbled 30 streaming eq_refl)
    as (H1 & _ & _ & H2 & _).
  split; [exact H1 | exact H2].
Defined.

(** X15: when the connection timeout expires on a source that is still
    connecting, the source is closed and an alert is raised, and that is
    all: no reconnect is scheduled, and the connection status and the
    attempt counter stay as they were. *)
Theorem connection_timeout_schedules_nothing (f : Feed) (id es : nat) (t : Timer) (now : Z) :
  timers f !! id = Some t -> kind t = ConnectionTimeout es -> due t now = true ->
  sourceState es f = Some CONNECTING ->
  sourceState es (step f (TimerFired id now)) = Some CLOSED /\
  timers (step f (TimerFired id now)) = delete id (timers f) /\
  reconnectTimeoutRef (step f (TimerFired id now)) = reconnectTimeoutRef f /\
  connectionStatus (step f (TimerFired id now)) = connectionStatus f /\
  connectionAttempts (step f (TimerFired id now)) = connectionAttempts f /\
  alerts (step f (TimerFired id now))
    = take (MAX_ALERTS - 1)
        ({| type := connection; message := MsgConnectionTimeout; alertTime := now;
            severity := high |} :: alerts f).
Proof.
  intros Ht Hk Hdue Hs. cbn [step]. rewrite Ht, Hdue, Hk. cbn [timerCallback].
  unfold sourceState in *.
  change (sources (clearTimeout id f)) with (sources f).
  destruct (sources f !! es) as [[r tid] |] eqn:E; [| discriminate Hs].
  cbn in Hs. injection Hs as ->.
  repeat split. cbn. rewrite lookup_alter_eq, E. reflexivity.
Qed.

Lemma connection_timeout_schedules_nothing_witness :
  sourceState 0%nat (step mounted (TimerFired 1%nat 15000)) = Some CLOSED /\
  timers (step mounted (TimerFired 1%nat 15000)) = delete 1%nat (timers mounted).
Proof.
  destruct (connection_timeout_schedules_nothing mounted 1%nat 0%nat
              {| kind := ConnectionTimeout 0; armedAt := 0; delayMs := 15000 |} 15000
              eq_refl eq_refl eq_refl eq_refl) as (H1 & H2 & _).
  split; [exact H1 | exact H2].
Defined.

(** X16: the feed hook and the alert engine ask the same question: on the
    token and the trading symbol of a tick, the hook's [getInstrumentName],
    with its own copy of the token table, gives the name that the grid gives
    the tick, and its [isMarketOpen] answers as [shouldAlertsBeActive] does
    on that name. *)
Theorem market_check_agrees (t : TickData) (d : HostDate) :
  TickFeed.getInstrumentName (instrument_token t) (symbolOf (tradingsymbol t))
    = Some (Tick.getInstrumentName t) /\
  isMarketOpen (instrument_token t) (symbolOf (tradingsymbol t)) d
    = Some (shouldAlertsBeActive (Tick.getInstrumentName t) d).
Proof.
  assert (H : TickFeed.getInstrumentName (instrument_token t) (symbolOf (tradingsymbol t))
              = Some (Tick.getInstrumentName t)).
  { unfold TickFeed.getInstrumentName, Tick.getInstrumentName, symbolOf.
    destruct (tradingsymbol t) as [[| c r] |]; try reflexivity;
      unfold TickFeed.tokenMap, Tick.tokenMap;
      repeat (destruct (_ =? _); [reflexivity |]); reflexivity. }
  split; [exact H |]. unfold isMarketOpen, shouldAlertsBeActive. rewrite H. reflexivity.
Qed.

End FeedLifecycleFacts.


Section UpstoxLifecycleFacts.
Import JsMath JsControl UpstoxFeed UpstoxScenarios UpstoxLifecycle.

Lemma forOf_app {A B} (body : A -> B -> Outcome A) (l1 l2 : list B) (a : A) :
  forOf body (l1 ++ l2) a =
    match forOf body l1 a with
    | Normal a' => forOf body l2 a'
    | Thrown a' => Thrown a'
    end.
Proof.
  revert a. induction l1 as [| x l1 IH]; intros a; cbn [forOf app]; [reflexivity |].
  destruct (body a x); [apply IH | reflexivity].
Qed.

Lemma entryThrows_keyed (e : string * Item) : entryKey e = None -> entryThrows e = false.
Proof. unfold entryThrows. intros ->. reflexivity. Qed.

(** The loop over the entries: it ends normally exactly when no entry
    throws, and then with a tick for each entry that has a price. *)
Lemma upstox_processFeeds_keys (now : Z) (feeds : list (string * Item))
    (acc : list UpstoxTickData) (f : Feed) :
  match forOf (processFeed now) feeds (acc, f) with
  | Normal r =>
      existsb entryThrows feeds = false /\
      map instrument_token (fst r) = (map instrument_token acc ++ omap entryKey feeds)%list /\
      (forall t, In t (fst r) -> In t acc \/ receivedAt t = now)
  | Thrown r => existsb entryThrows feeds = true
  end.
Proof.
  revert acc f. induction feeds as [| e feeds IH]; intros acc f.
  - cbn. rewrite app_nil_r. auto.
  - change (omap entryKey (e :: feeds))
      with (match entryKey e with
            | Some y => y :: omap entryKey feeds
            | None => omap entryKey feeds
            end).
    cbn [forOf existsb].
    destruct (processFeed_spec now acc f e)
      as [[Hk ->] | (l & ts & f' & _ & Hk & _ & _ & _ & _ & _
                     & [[Hth ->] | (Hth & t & -> & Htok & _ & Hrec & _)])].
    + rewrite (entryThrows_keyed e Hk), Hk. cbn [orb]. apply IH.
    + rewrite Hth. reflexivity.
    + rewrite Hth, Hk. cbn [orb]. specialize (IH (acc ++ [t])%list f').
      destruct (forOf (processFeed now) feeds ((acc ++ [t])%list, f')) as [r | r];
        [| exact IH].
      destruct IH as (H0 & H1 & H2). split; [exact H0 |]. split.
      * rewrite H1, map_app, <- app_assoc. cbn. rewrite Htok. reflexivity.
      * intros u Hu. apply H2 in Hu as [Hu | Hu]; [| auto].
        apply in_app_or in Hu as [Hu | [<- | []]]; auto.
Qed.

(** X17: a live feed none of whose entries throws yields one tick for each
    entry whose last traded price is present and not zero, keyed by the
    entry, in the order of the payload and stamped with the time of
    reception; the ticks go in front of the stored ones, of which a thousand
    are kept, and no alert is raised.  An entry throws when it has a price
    and its candles are a value without the method [at]: then the message
    stores no tick at all, the frozen flag stays as it was, one alert of
    type data is raised, and the table of last timestamps has been written
    for that entry. *)
Theorem live_feed_yields_keys (feeds : list (string * Item)) (now : Z) (f : Feed) :
  (existsb entryThrows feeds = false ->
     map instrument_token (newTicks (LiveFeed feeds) now f) = omap entryKey feeds /\
     (forall t, In t (newTicks (LiveFeed feeds) now f) -> receivedAt t = now) /\
     ticks (onmessage (LiveFeed feeds) now f)
       = match newTicks (LiveFeed feeds) now f with
         | [] => ticks f
         | l => take MAX_TICKS (l ++ ticks f)
         end /\
     alerts (onmessage (LiveFeed feeds) now f) = alerts f) /\
  (existsb entryThrows feeds = true ->
     newTicks (LiveFeed feeds) now f = [] /\
     ticks (onmessage (LiveFeed feeds) now f) = ticks f /\
     isFrozen (onmessage (LiveFeed feeds) now f) = isFrozen f /\
     alerts (onmessage (LiveFeed feeds) now f)
       = {| type := dataAlert; message := MsgParseError; severity := medium;
            alertTime := now |} :: take (MAX_ALERTS - 1) (alerts f)) /\
  (forall pre e post l,
     feeds = (pre ++ e :: post)%list -> existsb entryThrows pre = false ->
     entryThrows e = true -> ltpc (snd e) = Some l ->
     lastTickForInstrument (onmessage (LiveFeed feeds) now f) !! fst e
       = Some (match ltt l with Some converted => converted | None => Some now end)).
Proof.
  assert (Hs : ticks (scheduleFreeze now f) = ticks f /\
               alerts (scheduleFreeze now f) = alerts f /\
               isFrozen (scheduleFreeze now f) = isFrozen f)
    by (unfold scheduleFreeze; destruct (freezeTimer f); auto).
  destruct Hs as (Hst & Hsa & Hsf).
  split; [| split].
  - intros Hno. unfold newTicks, onmessage.
    pose proof (upstox_processFeeds_keys now feeds [] (scheduleFreeze now f)) as Hk.
    pose proof (processFeeds_control now feeds (scheduleFreeze now f)) as Hc.
    destruct (forOf (processFeed now) feeds ([], scheduleFreeze now f)) as [[l g] | [l g]];
      [| congruence].
    destruct Hk as (_ & H1 & H2). destruct Hc as (_ & Ha & Ht).
    cbn [fst snd map app] in *. split; [exact H1 |]. split.
    + intros t Hin. destruct (H2 t Hin) as [[] | H]. exact H.
    + destruct l; cbn; rewrite ?Ht, ?Ha, ?Hst, ?Hsa; auto.
  - intros Hyes. unfold newTicks, onmessage.
    pose proof (upstox_processFeeds_keys now feeds [] (scheduleFreeze now f)) as Hk.
    pose proof (processFeeds_control now feeds (scheduleFreeze now f)) as Hc.
    destruct (forOf (processFeed now) feeds ([], scheduleFreeze now f)) as [[l g] | [l g]].
    { destruct Hk as (Hk & _). congruence. }
    destruct Hc as (Hctl & Ha & Ht). cbn [snd] in *.
    split; [reflexivity |]. split; [cbn; rewrite Ht; exact Hst |].
    split.
    + unfold control in Hctl. injection Hctl as Hfr _ _ _ _ _. cbn. rewrite Hfr. exact Hsf.
    + cbn. rewrite Ha, Hsa. reflexivity.
  - intros pre e post l -> Hpre He Hl. unfold onmessage. rewrite forOf_app.
    pose proof (upstox_processFeeds_keys now pre [] (scheduleFreeze now f)) as Hk.
    destruct (forOf (processFeed now) pre ([], scheduleFreeze now f)) as [[pt g] | [pt g]];
      [| congruence].
    cbn [forOf].
    destruct (processFeed_spec now pt g e)
      as [[Hnone _] | (l' & ts & g' & Hl' & _ & Hts & Htab & _ & _ & _
                       & [[_ ->] | (Hth & _)])].
    + rewrite (entryThrows_keyed e Hnone) in He. discriminate He.
    + rewrite Hl in Hl'. injection Hl' as <-. cbn.
      change (lastTickForInstrument g' !! fst e = Some
                match ltt l with Some converted => converted | None => Some now end).
      rewrite Htab, lookup_insert_eq, Hts. reflexivity.
    + congruence.
Qed.

Lemma live_feed_yields_keys_witness :
  newTicks brokenFeed 1000 (step init Mount) = [] /\
  ticks (onmessage brokenFeed 1000 (step init Mount)) = [] /\
  lastTickForInstrument (onmessage brokenFeed 1000 (step init Mount)) !! "NSE_EQ|Y"
    = Some (Some 1000).
Proof.
  destruct (live_feed_yields_keys
              [("NSE_EQ|X", quote 100 1000); ("NSE_EQ|Y", quoteWithoutCandles 200 1000)]
              1000 (step init Mount)) as (_ & Hthrow & Htab).
  destruct (Hthrow eq_refl) as (H1 & H2 & _).
  split; [exact H1 |]. split; [exact H2 |].
  exact (Htab [("NSE_EQ|X", quote 100 1000)] ("NSE_EQ|Y", quoteWithoutCandles 200 1000) []
              _ eq_refl eq_refl eq_refl eq_refl).
Defined.

(** ** The limits of the lists *)

Lemma upstox_addAlert_alerts t m s now (f : Feed) :
  (length (alerts (addAlert t m s now f)) <= MAX_ALERTS)%nat /\
  ticks (addAlert t m s now f) = ticks f.
Proof.
  split; [| reflexivity].
  change (alerts (addAlert t m s now f))
    with ({| type := t; message := m; severity := s; alertTime := now |}
            :: take (MAX_ALERTS - 1) (alerts f)).
  cbn [length]. pose proof (firstn_le_length (MAX_ALERTS - 1) (alerts f)) as H.
  unfold MAX_ALERTS in *. lia.
Qed.

Lemma upstox_scheduleFreeze_lists now (f : Feed) :
  ticks (scheduleFreeze now f) = ticks f /\ alerts (scheduleFreeze now f) = alerts f.
Proof. unfold scheduleFreeze. destruct (freezeTimer f); auto. Qed.

Lemma upstox_step_bounded (f : Feed) (ev : Event) :
  (length (ticks f) <= MAX_TICKS)%nat /\ (length (alerts f) <= MAX_ALERTS)%nat ->
  (length (ticks (step f ev)) <= MAX_TICKS)%nat /\
  (length (alerts (step f ev)) <= MAX_ALERTS)%nat.
Proof.
  intros [Ht Ha]. destruct ev as [| now | payload now | now | id now]; cbn [step].
  - auto.
  - destruct (listening f); [| auto]. unfold onopen.
    destruct (upstox_scheduleFreeze_lists now
                (addAlert connection MsgConnected low now
                   (with_ui (ticks f) (alerts f) connected (isFrozen f) f))) as [-> ->].
    split; [exact Ht | apply upstox_addAlert_alerts].
  - destruct (listening f); [| auto]. unfold onmessage.
    destruct (upstox_scheduleFreeze_lists now f) as [Hst Hsa].
    destruct payload as [| | feeds].
    + split; [| apply upstox_addAlert_alerts].
      change (ticks (addAlert dataAlert MsgParseError medium now (scheduleFreeze now f)))
        with (ticks (scheduleFreeze now f)).
      rewrite Hst. exact Ht.
    + rewrite Hst, Hsa. auto.
    + pose proof (processFeeds_control now feeds (scheduleFreeze now f)) as Hc.
      destruct (forOf (processFeed now) feeds ([], scheduleFreeze now f)) as [[l g] | [l g]];
        destruct Hc as (_ & Ha' & Ht'); cbn [snd] in *.
      * destruct l; cbn [ticks alerts with_ui]; rewrite ?Ha', ?Ht', ?Hst, ?Hsa.
        -- auto.
        -- split; [apply firstn_le_length | exact Ha].
      * split; [| apply upstox_addAlert_alerts].
        change (ticks (addAlert dataAlert MsgParseError medium now g)) with (ticks g).
        rewrite Ht', Hst. exact Ht.
  - destruct (listening f); [| auto]. unfold onerror, setTimeout. cbn [snd].
    split; [exact Ht |].
    apply (upstox_addAlert_alerts connection MsgReconnecting medium now
             (with_ui (ticks f) (alerts f) error (isFrozen f) f)).
  - destruct (timers f !! id) as [t |]; [| auto].
    destruct (armedAt t + delayMs t <=? now); [| auto].
    destruct (kind t); cbn [timerCallback].
    + split; [exact Ht |].
      apply (upstox_addAlert_alerts freeze MsgNoData high now
               (with_ui (ticks (clearTimeout id f)) (alerts (clearTimeout id f))
                        (connectionStatus (clearTimeout id f)) true (clearTimeout id f))).
    + auto.
Qed.

(** X18: whatever arrives, the hook keeps at most 1000 ticks and 50 alerts. *)
Theorem upstox_lists_bounded (evs : list Event) :
  (length (ticks (run evs init)) <= 1000)%nat /\
  (length (alerts (run evs init)) <= 50)%nat.
Proof.
  apply (fold_left_preserves
           (fun f => (length (ticks f) <= MAX_TICKS)%nat /\
                     (length (alerts f) <= MAX_ALERTS)%nat)).
  - intros f ev. apply upstox_step_bounded.
  - cbn. unfold MAX_TICKS, MAX_ALERTS. lia.
Qed.

(** ** The freeze watchdog *)

Lemma Watched_scheduleFreeze now (f : Feed) : Watched f -> Watched (scheduleFreeze now f).
Proof.
  intros W id t. unfold scheduleFreeze. destruct (freezeTimer f) as [old |] eqn:E; cbn.
  - intros Hi Hk. apply lookup_insert_Some in Hi as [[<- _] | [_ Hi]]; [reflexivity |].
    apply lookup_delete_Some in Hi as [Hne Hi].
    pose proof (W id t Hi Hk) as H. congruence.
  - intros Hi Hk. apply lookup_insert_Some in Hi as [[<- _] | [_ Hi]]; [reflexivity |].
    pose proof (W id t Hi Hk) as H. congruence.
Qed.

Lemma Watched_control (f f' : Feed) : control f' = control f -> Watched f -> Watched f'.
Proof.
  unfold control. intros [= _ Hf Ht _ _ _] W id t. rewrite Hf, Ht. apply W.
Qed.

Lemma Watched_step (f : Feed) (ev : Event) : Watched f -> Watched (step f ev).
Proof.
  intros W. destruct ev as [| now | payload now | now | id now]; cbn [step].
  - exact W.
  - destruct (listening f); [| exact W]. unfold onopen. apply Watched_scheduleFreeze. exact W.
  - destruct (listening f); [| exact W]. unfold onmessage.
    pose proof (Watched_scheduleFreeze now f W) as W1.
    destruct payload as [| | feeds]; [exact W1 | exact W1 |].
    pose proof (processFeeds_control now feeds (scheduleFreeze now f)) as H.
    destruct (forOf (processFeed now) feeds ([], scheduleFreeze now f)) as [[l g] | [l g]];
      destruct H as (Hc & _ & _); cbn [snd] in *;
      pose proof (Watched_control _ g Hc W1) as Wg.
    + destruct l; exact Wg.
    + exact Wg.
  - destruct (listening f); [| exact W]. unfold onerror, setTimeout. cbn [snd].
    intros id t. cbn. intros Hi Hk.
    apply lookup_insert_Some in Hi as [[_ <-] | [_ Hi]]; [discriminate Hk |].
    exact (W id t Hi Hk).
  - destruct (timers f !! id) as [t |]; [| exact W].
    destruct (armedAt t + delayMs t <=? now); [| exact W].
    assert (Wc : Watched (clearTimeout id f)).
    { intros i t' Hi Hk. cbn in Hi. apply lookup_delete_Some in Hi as [_ Hi].
      exact (W i t' Hi Hk). }
    destruct (kind t); exact Wc.
Qed.

(** X19: at most one freeze watchdog is pending at any time, and it is the
    one [freezeTimer] holds. *)
Theorem upstox_single_watchdog (evs : list Event) :
  (length (pendingFreeze (run evs init)) <= 1)%nat /\
  (forall id, In id (pendingFreeze (run evs init)) -> freezeTimer (run evs init) = Some id).
Proof.
  assert (W : Watched (run evs init)).
  { apply (fold_left_preserves Watched); [intros f ev; apply Watched_step |].
    intros id t Hi. cbn in Hi. rewrite lookup_empty in Hi. discriminate Hi. }
  assert (Hall : forall id, In id (pendingFreeze (run evs init)) ->
                            freezeTimer (run evs init) = Some id).
  { intros id Hin. unfold pendingFreeze in Hin. apply in_map_iff in Hin as ([id' t] & <- & Hin).
    apply filter_In in Hin as [Hin Hk].
    apply list_elem_of_In, elem_of_map_to_list in Hin.
    apply (W id' t Hin). cbn in Hk. destruct (kind t); [reflexivity | discriminate Hk]. }
  split; [| exact Hall].
  assert (Hnd : NoDup (pendingFreeze (run evs init)))
    by apply NoDup_fst_filter, NoDup_fst_map_to_list.
  destruct (pendingFreeze (run evs init)) as [| a [| b l]]; cbn; [lia | lia |].
  exfalso. assert (Some a = Some b) as [= ->].
  { rewrite <- (Hall a), <- (Hall b); cbn; auto. }
  apply NoDup_cons in Hnd as [Hnin _]. apply Hnin. left.
Qed.

(** ** After an error *)

Lemma deaf_step (f : Feed) (ev : Event) :
  listening f = false -> connectionStatus f <> connected -> isMount ev = false ->
  listening (step f ev) = false /\ connectionStatus (step f ev) <> connected /\
  ticks (step f ev) = ticks f /\
  lastTickForInstrument (step f ev) = lastTickForInstrument f.
Proof.
  intros Hl Hc Hm.
  destruct ev as [| now | payload now | now | id now]; cbn [step]; rewrite ?Hl.
  - discriminate Hm.
  - auto.
  - auto.
  - auto.
  - destruct (timers f !! id) as [t |]; [| auto].
    destruct (armedAt t + delayMs t <=? now); [| auto].
    destruct (kind t); cbn; repeat split; auto; discriminate.
Qed.

(** X20: the error handler closes the source that carries the handlers, and
    the source created five seconds later carries none: after an error the
    hook never takes in another tick and never shows "connected" again,
    whatever the new source delivers. *)
Theorem upstox_error_is_final (f : Feed) (now : Z) (later : list Event) :
  forallb (fun ev => negb (isMount ev)) later = true ->
  listening (run later (onerror now f)) = false /\
  connectionStatus (run later (onerror now f)) <> connected /\
  ticks (run later (onerror now f)) = ticks f /\
  lastTickForInstrument (run later (onerror now f)) = lastTickForInstrument f.
Proof.
  intros Hm.
  assert (H0 : listening (onerror now f) = false /\
               connectionStatus (onerror now f) <> connected /\
               ticks (onerror now f) = ticks f /\
               lastTickForInstrument (onerror now f) = lastTickForInstrument f).
  { unfold onerror, setTimeout. cbn. repeat split. discriminate. }
  revert H0. generalize (onerror now f). induction later as [| ev later IH]; intros g Hg;
    [exact Hg |].
  cbn in Hm. apply andb_true_iff in Hm as [Hev Hm]. apply negb_true_iff in Hev.
  destruct Hg as (G1 & G2 & G3 & G4).
  destruct (deaf_step g ev G1 G2 Hev) as (S1 & S2 & S3 & S4).
  change (run (ev :: later) g) with (run later (step g ev)).
  apply (IH Hm). repeat split; congruence.
Qed.

Lemma upstox_error_is_final_witness :
  length (ticks (run afterFailure failedFeed)) = 1%nat /\
  connectionStatus (run afterFailure failedFeed) <> connected.
Proof.
  unfold failedFeed.
  destruct (upstox_error_is_final quoted 2000 afterFailure eq_refl) as (_ & H2 & H3 & _).
  split; [rewrite H3; vm_compute; reflexivity | exact H2].
Defined.

End UpstoxLifecycleFacts.


Section EngineFurtherFacts.
Import JsMath MarketTimings Tick Inactivity EngineInvariant EngineScenarios EngineFurther.

(** ** One tick per instrument *)

(** X21: the effect looks at one tick per instrument, the one received last;
    every instrument of the list is looked at. *)
Theorem effect_sees_each_instrument_once (ticks : list TickData) :
  NoDup (map fst (latestTicks ticks)) /\
  (forall k v, In (k, v) (latestTicks ticks) -> instrument_token v = k) /\
  (forall t, In t ticks ->
     exists v, map_get (instrument_token t) (latestTicks ticks) = Some v /\
               In v ticks /\ receivedAt t <= receivedAt v).
Proof.
  destruct (latestTicks_spec ticks) as (Hnd & Hget & Hall).
  split; [exact Hnd |]. split; [intros k v; apply latestTicks_keys |].
  intros t Ht. destruct (map_get (instrument_token t) (latestTicks ticks)) as [v |] eqn:E.
  - exists v. destruct (Hget _ _ E) as (_ & Hin & Hmax). auto.
  - exfalso. exact (Hall t Ht E).
Qed.

(** ** The alert log *)

Lemma effect_alerts ticks clk e : alerts (effect ticks clk e) = alerts e.
Proof.
  unfold effect. generalize (inactiveSymbols e) as snap. intros snap.
  apply (fold_left_preserves (fun x : Engine => alerts x = alerts e)); [| reflexivity].
  intros a b Ha. rewrite (proj2 (processTick_quiet snap clk a b)). exact Ha.
Qed.

Lemma clearSymbolState_alerts k e : alerts (clearSymbolState k e) = alerts e.
Proof. apply (clearSymbolState_result k e). Qed.

Lemma fireTimer_alerts id clk e :
  alerts (fireTimer id clk e) = alerts e \/
  exists a, alerts (fireTimer id clk e) = take 100 (a :: alerts e).
Proof.
  unfold fireTimer. destruct (timers e !! id) as [t |]; [| auto].
  destruct (fireAt t <=? now clk); [| auto].
  unfold timerCallback. destruct (if respectMarketHours (tmConfig t) then _ else true).
  - destruct (heap (clearTimeout id e) !! tmState t) as [s |] eqn:Hs.
    + right. eexists.
      apply (triggerAlert_result (tmTick t) (tmConfig t) (tmState t) clk (clearTimeout id e) s Hs).
    + left. unfold triggerAlert. rewrite Hs. reflexivity.
  - left. rewrite clearSymbolState_alerts.
    apply (stopAlertSound_frame (instrument_token (tmTick t)) (clearTimeout id e)).
Qed.

Lemma step_alerts (e : Engine) (ev : Event) :
  alerts (step e ev) = alerts e \/ alerts (step e ev) = [] \/
  exists a, alerts (step e ev) = take 100 (a :: alerts e).
Proof.
  destruct ev as [ticks clk | id clk | token config | |]; cbn [step].
  - left. apply effect_alerts.
  - destruct (fireTimer_alerts id clk e) as [H | H]; auto.
  - left. unfold updateConfiguration. rewrite clearSymbolState_alerts. reflexivity.
  - right. left. unfold clearAllAlerts. cbn [alerts with_inactiveSymbols].
    rewrite (proj1 (proj2 (stopAll_frame _ _))). reflexivity.
  - left. reflexivity.
Qed.

(** X22: the alert log never holds more than a hundred alerts. *)
Theorem engine_alert_log_bounded (evs : list Event) :
  (length (alerts (run evs init)) <= 100)%nat.
Proof.
  apply (fold_left_preserves (fun e : Engine => (length (alerts e) <= 100)%nat)).
  - intros e ev He. destruct (step_alerts e ev) as [-> | [-> | [a ->]]];
      [exact He | cbn; lia | apply firstn_le_length].
  - cbn. lia.
Qed.

(** ** Timers that expired *)

Lemma timerCallback_timers t clk e id' t' :
  timers (timerCallback t clk e) !! id' = Some t' -> timers e !! id' = Some t'.
Proof.
  unfold timerCallback. destruct (if respectMarketHours (tmConfig t) then _ else true).
  - rewrite (proj1 (triggerAlert_timers _ _ _ _ _)). auto.
  - intros H. apply clearSymbolState_result in H.
    rewrite (proj1 (proj2 (proj2 (proj2 (proj2 (stopAlertSound_frame _ _)))))) in H.
    exact H.
Qed.

Lemma fireTimer_consumes id clk e t :
  timers e !! id = Some t -> fireAt t <= now clk -> timers (fireTimer id clk e) !! id = None.
Proof.
  intros Ht Hdue. unfold fireTimer. rewrite Ht.
  apply Z.leb_le in Hdue. rewrite Hdue.
  destruct (timers (timerCallback t clk (clearTimeout id e)) !! id) as [t' |] eqn:E;
    [| reflexivity].
  apply timerCallback_timers in E. cbn in E. rewrite lookup_delete_eq in E. discriminate E.
Qed.

(** X23: a timer fires at most once: after its expiry the handle is never
    armed again, so a later expiry of the same handle does nothing. *)
Theorem expired_timer_is_spent (e : Engine) (id : nat) (t : Timer) (clk : Clock)
    (later : list Event) :
  reachable e -> timers e !! id = Some t -> fireAt t <= now clk ->
  timers (run later (step e (TimerFired id clk))) !! id = None /\
  forall clk', step (run later (step e (TimerFired id clk))) (TimerFired id clk')
               = run later (step e (TimerFired id clk)).
Proof.
  intros Hr Ht Hdue. pose proof (Inv_reachable e Hr) as HI.
  assert (Hlt : (id < next_timer e)%nat).
  { destruct (le_lt_dec (next_timer e) id) as [Hle | Hlt]; [| exact Hlt].
    rewrite (inv_fresh_timer e HI id Hle) in Ht. discriminate Ht. }
  assert (Hnone : timers (run later (step e (TimerFired id clk))) !! id = None).
  { apply stale_forever.
    - cbn [step]. rewrite fireTimer_next_timer. exact Hlt.
    - cbn [step]. eapply fireTimer_consumes; eauto. }
  split; [exact Hnone |]. intros clk'. cbn [step]. apply fireTimer_not_armed, Hnone.
Qed.

Lemma expired_timer_is_spent_witness :
  timers (run [Render secondTicks (thursday 40000)]
              (step monitored (TimerFired 1%nat (thursday 30000)))) !! 1%nat = None.
Proof.
  assert (Ht : timers monitored !! 1%nat
               = Some (armedTimer (priceTick 265 100 0) alwaysOn 0 (thursday 0)))
    by (vm_compute; reflexivity).
  assert (Hdue : fireAt (armedTimer (priceTick 265 100 0) alwaysOn 0 (thursday 0))
                 <= now (thursday 30000)) by (vm_compute; discriminate).
  exact (proj1 (expired_timer_is_spent monitored 1%nat _ (thursday 30000)
                  [Render secondTicks (thursday 40000)] monitored_reachable Ht Hdue)).
Defined.

(** X24: when a timer expires while alerts must not be active (the market of
    the instrument is closed and the configuration respects market hours),
    no alert is raised; the monitor of the instrument is destroyed, its
    inactive flag cleared, and no timer of the instrument is left. *)
Theorem closed_market_expiry_is_silent (e : Engine) (id : nat) (t : Timer) (clk : Clock) :
  reachable e -> timers e !! id = Some t -> fireAt t <= now clk ->
  shouldAlertFor (tmTick t) (tmConfig t) clk = false ->
  alerts (step e (TimerFired id clk)) = alerts e /\
  symbolStates (step e (TimerFired id clk)) !! instrument_token (tmTick t) = None /\
  (instrument_token (tmTick t) ∉ inactiveSymbols (step e (TimerFired id clk))) /\
  armedFor (instrument_token (tmTick t)) (step e (TimerFired id clk)) = [].
Proof.
  intros Hr Ht Hdue Hsa. pose proof (Inv_reachable e Hr) as HI. cbn [step].
  destruct (expiry_closed id t clk e Ht Hdue Hsa) as (Ha & Hm & Hi).
  split; [exact Ha |]. split; [exact Hm |]. split; [exact Hi |].
  apply no_monitor_no_timer; [apply Inv_fireTimer, HI | exact Hm].
Qed.

Lemma closed_market_expiry_is_silent_witness :
  alerts (step monitoredInHours (TimerFired 1%nat (sunday 30000))) = [] /\
  symbolStates (step monitoredInHours (TimerFired 1%nat (sunday 30000))) !! 265 = None.
Proof.
  assert (Hr : reachable monitoredInHours) by (eexists; reflexivity).
  assert (Ht : timers monitoredInHours !! 1%nat
               = Some (armedTimer (priceTick 265 100 0) duringMarketHours 0 (thursday 0)))
    by (vm_compute; reflexivity).
  assert (Hdue : fireAt (armedTimer (priceTick 265 100 0) duringMarketHours 0 (thursday 0))
                 <= now (sunday 30000)) by (vm_compute; discriminate).
  destruct (closed_market_expiry_is_silent monitoredInHours 1%nat _ (sunday 30000) Hr Ht Hdue)
    as (Ha & Hm & _); [vm_compute; reflexivity |].
  split; [rewrite Ha; vm_compute; reflexivity | exact Hm].
Defined.

(** ** What a tick does to a monitored instrument *)

(** X25: a tick whose price stays within the deviation of the baseline,
    while alerts are active and the market was open at the last check,
    leaves the armed timer, its due time and the baseline as they are; the
    price is added to the history, which keeps the entries of the last five
    minutes, a hundred at most. *)
Theorem quiet_tick_keeps_timer (e : Engine) snapshot clk tick config l st :
  configurations e !! instrument_token tick = Some config -> enabled config = true ->
  getState (instrument_token tick) e = Some (l, st) ->
  shouldAlertFor tick config clk = true -> wasMarketOpen st = true ->
  priceMoved (last_price tick) (stBaselinePrice st) (deviation config) = false ->
  timers (processTick snapshot clk e tick) = timers e /\
  next_timer (processTick snapshot clk e tick) = next_timer e /\
  alerts (processTick snapshot clk e tick) = alerts e /\
  exists s',
    getState (instrument_token tick) (processTick snapshot clk e tick) = Some (l, s') /\
    timerId s' = timerId st /\
    stBaselinePrice s' = stBaselinePrice st /\
    priceHistory s' = retained (priceHistory st) tick clk.
Proof.
  intros Hc Hen Hg Hsa Hwas Hmv.
  destruct (processTick_existing snapshot clk e tick config l st Hc Hen Hg)
    as (s' & Hg' & [(_ & [Hmv' | [_ Hwas']] & _) | [(Hsa' & _) |
                                                   (_ & _ & Hid & Hb & Hh & Ht & Hn)]]);
    try congruence.
  split; [exact Ht |]. split; [exact Hn |]. split; [apply processTick_quiet |].
  exists s'. auto.
Qed.

Lemma quiet_tick_keeps_timer_witness :
  timers (processTick ∅ (thursday 10000) monitored (priceTick 265 (10005 # 100) 10000))
  = timers monitored.
Proof.
  assert (Hg : getState 265 monitored = Some (0%nat, firstMonitor))
    by (vm_compute; reflexivity).
  assert (Hc : configurations monitored !! 265 = Some alwaysOn) by (vm_compute; reflexivity).
  exact (proj1 (quiet_tick_keeps_timer monitored ∅ (thursday 10000)
                  (priceTick 265 (10005 # 100) 10000) alwaysOn 0%nat firstMonitor
                  Hc eq_refl Hg eq_refl eq_refl eq_refl)).
Defined.

(** X26: a tick that arrives while alerts must not be active (market closed,
    market hours respected) raises no alert and suspends the monitor: the
    timer is cancelled, the handle cleared, and the baseline and the price
    history are kept as they were. *)
Theorem closed_market_tick_suspends (e : Engine) snapshot clk tick config l st :
  configurations e !! instrument_token tick = Some config -> enabled config = true ->
  getState (instrument_token tick) e = Some (l, st) ->
  shouldAlertFor tick config clk = false ->
  alerts (processTick snapshot clk e tick) = alerts e /\
  next_timer (processTick snapshot clk e tick) = next_timer e /\
  (forall id t, timers (processTick snapshot clk e tick) !! id = Some t <->
                timers e !! id = Some t /\ timerId st <> Some id) /\
  exists s',
    getState (instrument_token tick) (processTick snapshot clk e tick) = Some (l, s') /\
    suspended st s'.
Proof.
  intros Hc Hen Hg Hsa.
  destruct (processTick_existing snapshot clk e tick config l st Hc Hen Hg)
    as (s' & Hg' & [(Hsa' & _) | [(_ & Hid & Hb & Hh & Ht & Hn) | (Hsa' & _)]]);
    try congruence.
  split; [apply processTick_quiet |]. split; [exact Hn |]. split.
  - intros id t. rewrite Ht. apply clearTimerOf_timers.
  - exists s'. split; [exact Hg' |]. repeat split; assumption.
Qed.

Lemma closed_market_tick_suspends_witness :
  exists s',
    getState 265 (processTick ∅ (sunday 10000) monitoredInHours (priceTick 265 120 10000))
      = Some (0%nat, s') /\
    suspended firstMonitor s'.
Proof.
  assert (Hg : getState 265 monitoredInHours = Some (0%nat, firstMonitor))
    by (vm_compute; reflexivity).
  assert (Hc : configurations monitoredInHours !! 265 = Some duringMarketHours)
    by (vm_compute; reflexivity).
  destruct (closed_market_tick_suspends monitoredInHours ∅ (sunday 10000)
              (priceTick 265 120 10000) duringMarketHours 0%nat firstMonitor
              Hc eq_refl Hg) as (_ & _ & _ & H); [vm_compute; reflexivity | exact H].
Defined.

(** X27: a tick of an instrument that has no configuration, or a disabled
    one, destroys what the hook holds for the instrument: monitor, timer,
    inactive flag; the alerts and the other instruments are left alone. *)
Theorem unconfigured_tick_forgets (e : Engine) snapshot clk tick :
  reachable e ->
  (forall config, configurations e !! instrument_token tick = Some config ->
                  enabled config = false) ->
  symbolStates (processTick snapshot clk e tick) !! instrument_token tick = None /\
  armedFor (instrument_token tick) (processTick snapshot clk e tick) = [] /\
  (instrument_token tick ∉ inactiveSymbols (processTick snapshot clk e tick)) /\
  alerts (processTick snapshot clk e tick) = alerts e /\
  (forall k, k <> instrument_token tick ->
     symbolStates (processTick snapshot clk e tick) !! k = symbolStates e !! k /\
     (k ∈ inactiveSymbols (processTick snapshot clk e tick) <-> k ∈ inactiveSymbols e)).
Proof.
  intros Hr Hdis. pose proof (Inv_reachable e Hr) as HI.
  pose proof (Inv_processTick snapshot clk e tick HI) as HI'.
  rewrite (processTick_disabled snapshot clk e tick Hdis) in *.
  destruct (clearSymbolState_result (instrument_token tick) e)
    as (Hm & _ & Ha & Hi & _).
  assert (Hnone : symbolStates (clearSymbolState (instrument_token tick) e)
                    !! instrument_token tick = None)
    by (rewrite Hm; apply lookup_delete_eq).
  split; [exact Hnone |]. split; [apply no_monitor_no_timer; assumption |].
  split.
  { rewrite Hi. intros H. apply elem_of_difference in H as [_ H]. apply H.
    apply elem_of_singleton. reflexivity. }
  split; [exact Ha |].
  intros k Hk. split; [rewrite Hm; apply lookup_delete_ne; congruence |].
  rewrite Hi, elem_of_difference, elem_of_singleton. tauto.
Qed.

Lemma unconfigured_tick_forgets_witness :
  symbolStates (processTick ∅ (thursday 10000)
                  (step monitored (UpdateConfiguration 265 switchedOff))
                  (priceTick 265 100 10000)) !! 265 = None.
Proof.
  assert (Hr : reachable (step monitored (UpdateConfiguration 265 switchedOff))).
  { apply (reachable_run [UpdateConfiguration 265 switchedOff]), monitored_reachable. }
  refine (proj1 (unconfigured_tick_forgets _ ∅ (thursday 10000) (priceTick 265 100 10000)
                   Hr _)).
  intros config Hc. vm_compute in Hc. injection Hc as <-. reflexivity.
Defined.

(** X28: the first tick of a configured instrument creates its monitor: the
    baseline is the price of the tick and the history holds that price
    alone; a timer is armed, due a full duration later, exactly when alerts
    are active at that time. *)
Theorem first_tick_creates_monitor (e : Engine) snapshot clk tick config :
  reachable e ->
  configurations e !! instrument_token tick = Some config -> enabled config = true ->
  symbolStates e !! instrument_token tick = None ->
  (exists s',
     getState (instrument_token tick) (processTick snapshot clk e tick)
       = Some (next_loc e, s') /\
     stBaselinePrice s' = last_price tick /\
     priceHistory s' = [(last_price tick, now clk)] /\
     timerId s' = (if shouldAlertFor tick config clk then Some (next_timer e) else None)) /\
  armedFor (instrument_token tick) (processTick snapshot clk e tick)
    = (if shouldAlertFor tick config clk then [next_timer e] else []) /\
  (shouldAlertFor tick config clk = true ->
   timers (processTick snapshot clk e tick) !! next_timer e
     = Some (armedTimer tick config (next_loc e) clk)).
Proof.
  intros Hr Hc Hen Hnone. pose proof (Inv_reachable e Hr) as HI.
  pose proof (Inv_processTick snapshot clk e tick HI) as HI'.
  destruct (processTick_new snapshot clk e tick config Hc Hen Hnone)
    as (s' & Hg & Hb & Hh & Hid & Ht & _).
  split; [exists s'; auto |].
  destruct (shouldAlertFor tick config clk) eqn:Hsa.
  - assert (Hnew : timers (processTick snapshot clk e tick) !! next_timer e
                   = Some (armedTimer tick config (next_loc e) clk))
      by (rewrite Ht; apply lookup_insert_eq).
    split; [| intros _; exact Hnew].
    apply armedFor_singleton; [exact HI' |].
    eexists. split; [exact Hnew | reflexivity].
  - split; [| discriminate].
    eapply no_handle_no_timer; [exact HI' | exact Hg | exact Hid].
Qed.

Lemma first_tick_creates_monitor_witness :
  armedFor 265 (processTick ∅ (thursday 0) configured (priceTick 265 100 0)) = [1%nat].
Proof.
  assert (Hr : reachable configured) by (eexists; reflexivity).
  assert (Hc : configurations configured !! 265 = Some alwaysOn) by (vm_compute; reflexivity).
  assert (Hn : symbolStates configured !! 265 = None) by (vm_compute; reflexivity).
  destruct (first_tick_creates_monitor configured ∅ (thursday 0) (priceTick 265 100 0)
              alwaysOn Hr Hc eq_refl Hn) as (_ & H & _).
  exact H.
Defined.

End EngineFurtherFacts.


Section EngineInvariants.
Import JsMath MarketTimings Tick Inactivity EngineInvariant EngineScenarios EngineFurther.

(** ** The price history *)

Lemma HistoryBounded_kept e e' : monitorsKept e e' -> HistoryBounded e -> HistoryBounded e'.
Proof.
  intros K H l s' Hs'. specialize (K l). destruct (heap e !! l) as [s |] eqn:E.
  - destruct K as (s'' & Hs'' & (_ & _ & Hh & _)). rewrite Hs' in Hs''. injection Hs'' as <-.
    rewrite Hh. apply (H l s E).
  - rewrite K in Hs'. discriminate Hs'.
Qed.

Lemma retained_length (h : list (Q * Z)) (tick : TickData) (clk : Clock) :
  (1 <= length (retained h tick clk) <= 100)%nat.
Proof.
  pose proof (retained_history_nonempty h (last_price tick) (now clk)) as Hne.
  fold (retained h tick clk) in Hne. split.
  - destruct (retained h tick clk); [congruence | cbn; lia].
  - unfold retained, lastN. rewrite length_drop. lia.
Qed.

Lemma HistoryBounded_processTick snapshot clk e tick :
  Inv e -> HistoryBounded e -> HistoryBounded (processTick snapshot clk e tick).
Proof.
  intros HI H.
  destruct (configurations e !! instrument_token tick) as [config |] eqn:Hc.
  2:{ rewrite processTick_disabled by (intros c Hc'; congruence).
      eapply HistoryBounded_kept; [apply clearSymbolState_result | exact H]. }
  destruct (enabled config) eqn:Hen.
  2:{ rewrite processTick_disabled by (intros c Hc'; congruence).
      eapply HistoryBounded_kept; [apply clearSymbolState_result | exact H]. }
  destruct (symbolStates e !! instrument_token tick) as [l0 |] eqn:Hk.
  - destruct (inv_state e HI _ _ Hk) as [st Hst].
    assert (Hg : getState (instrument_token tick) e = Some (l0, st))
      by (apply getState_Some; auto).
    destruct (processTick_onlyAt snapshot clk e tick config l0 Hc Hen Hk)
      as (_ & _ & _ & _ & Hother).
    destruct (processTick_existing snapshot clk e tick config l0 st Hc Hen Hg)
      as (s' & Hg' & Hcases).
    apply getState_Some in Hg' as [_ Hs'].
    intros l s Hs. destruct (decide (l = l0)) as [-> | Hne].
    + rewrite Hs' in Hs. injection Hs as <-.
      destruct Hcases as [(_ & _ & _ & _ & Hh & _) | [(_ & _ & _ & Hh & _) |
                                                      (_ & _ & _ & _ & Hh & _)]];
        rewrite Hh.
      * cbn. lia.
      * apply (H l0 st Hst).
      * apply retained_length.
    + rewrite (Hother l Hne) in Hs. apply (H l s Hs).
  - destruct (processTick_new snapshot clk e tick config Hc Hen Hk)
      as (s' & Hg' & _ & Hh & _ & _ & _ & _ & Hother & _).
    apply getState_Some in Hg' as [_ Hs'].
    intros l s Hs. destruct (decide (l = next_loc e)) as [-> | Hne].
    + rewrite Hs' in Hs. injection Hs as <-. rewrite Hh. cbn. lia.
    + rewrite (Hother l Hne) in Hs. apply (H l s Hs).
Qed.

Lemma HistoryBounded_step e ev : Inv e -> HistoryBounded e -> HistoryBounded (step e ev).
Proof.
  intros HI H. destruct ev as [ticks clk | id clk | token config | |]; cbn [step].
  - unfold effect. generalize (inactiveSymbols e) as snap. intros snap.
    apply (fold_left_preserves (fun a : Engine => Inv a /\ HistoryBounded a)); [| auto].
    intros a b [Ia Ha]. split; [apply Inv_processTick, Ia | apply HistoryBounded_processTick; auto].
  - eapply HistoryBounded_kept; [apply fireTimer_monitorsKept | exact H].
  - unfold updateConfiguration.
    eapply HistoryBounded_kept; [apply clearSymbolState_result |].
    eapply HistoryBounded_kept; [| exact H]. apply monitorsKept_heap. reflexivity.
  - eapply HistoryBounded_kept; [apply clearAllAlerts_frame | exact H].
  - eapply HistoryBounded_kept; [| exact H]. apply monitorsKept_heap. reflexivity.
Qed.

Lemma HistoryBounded_run evs e :
  Inv e -> HistoryBounded e -> Inv (run evs e) /\ HistoryBounded (run evs e).
Proof.
  intros HI H.
  apply (fold_left_preserves (fun a : Engine => Inv a /\ HistoryBounded a)); [| auto].
  intros a ev [Ia Ha]. split; [apply Inv_step, Ia | apply HistoryBounded_step; auto].
Qed.

(** X29: the price history of a monitor is never empty and never longer than
    a hundred entries, so that the price range of an alert is always
    defined. *)
Theorem price_history_bounded (evs : list Event) (k : Z) (l : nat) (s : SymbolState) :
  getState k (run evs init) = Some (l, s) ->
  (1 <= length (priceHistory s) <= 100)%nat /\
  (exists lo hi, Math_min (map fst (priceHistory s)) = Some lo /\
                 Math_max (map fst (priceHistory s)) = Some hi).
Proof.
  intros Hg. apply getState_Some in Hg as [_ Hs].
  assert (H0 : HistoryBounded init).
  { intros l' s' H. cbn in H. rewrite lookup_empty in H. discriminate H. }
  destruct (HistoryBounded_run evs init Inv_init H0) as [_ H].
  pose proof (H l s Hs) as Hlen. split; [exact Hlen |].
  destruct (priceHistory s) as [| [p ts] h]; [cbn in Hlen; lia |].
  cbn [map fst Math_min Math_max].
  destruct (Math_min (map fst h)), (Math_max (map fst h)); eauto.
Qed.

Lemma price_history_bounded_witness :
  (1 <= length (priceHistory firstMonitor) <= 100)%nat.
Proof.
  assert (Hg : getState 265
                 (run [UpdateConfiguration 265 alwaysOn; Render [priceTick 265 100 0] (thursday 0)]
                      init) = Some (0%nat, firstMonitor)) by (vm_compute; reflexivity).
  exact (proj1 (price_history_bounded _ 265 0%nat firstMonitor Hg)).
Defined.

(** ** The inactive flag *)

Lemma resetInactivityTimer_inactive tick config l clk e :
  inactiveSymbols (resetInactivityTimer tick config l clk e) = inactiveSymbols e.
Proof.
  unfold resetInactivityTimer. destruct (heap e !! l) as [st |]; [| reflexivity].
  unfold clearTimerOf. destruct (timerId st); reflexivity.
Qed.

Lemma cancelTimer_inactive l e : inactiveSymbols (cancelTimer l e) = inactiveSymbols e.
Proof.
  unfold cancelTimer. destruct (heap e !! l) as [st |]; [| reflexivity].
  destruct (timerId st); reflexivity.
Qed.

Lemma cancelTimer_timers l e id t :
  timers (cancelTimer l e) !! id = Some t -> timers e !! id = Some t.
Proof.
  unfold cancelTimer. destruct (heap e !! l) as [st |]; [| auto].
  destruct (timerId st); [| auto]. cbn. intros H. apply lookup_delete_Some in H. tauto.
Qed.

Lemma stopAlertSound_inactive k e : inactiveSymbols (stopAlertSound k e) = inactiveSymbols e.
Proof. apply (stopAlertSound_frame k e). Qed.

Lemma stopAlertSound_timers k e : timers (stopAlertSound k e) = timers e.
Proof. apply (stopAlertSound_frame k e). Qed.

Lemma stopAlertSound_symbolStates k e : symbolStates (stopAlertSound k e) = symbolStates e.
Proof. apply (stopAlertSound_frame k e). Qed.

(** Cancelling: nothing is flagged and no timer is armed. *)
Lemma tickOutcome_cancel snapshot k l e0 e :
  inactiveSymbols e = inactiveSymbols e0 -> timers e = timers e0 ->
  tickOutcome snapshot k e0 (cancelTimer l (stopAlertSound k e)).
Proof.
  intros Hi Ht. split.
  - intros k'. rewrite cancelTimer_inactive, stopAlertSound_inactive, Hi. auto.
  - left. intros id t H. apply cancelTimer_timers in H.
    rewrite stopAlertSound_timers, Ht in H. exact H.
Qed.

(** Restarting: the flag of the instrument is cleared if it was rendered. *)
Lemma tickOutcome_restart snapshot tick config l clk e0 e :
  inactiveSymbols e = inactiveSymbols e0 ->
  tickOutcome snapshot (instrument_token tick) e0
    (stopAlertSound (instrument_token tick)
       (removeInactive snapshot (instrument_token tick)
          (resetInactivityTimer tick config l clk e))).
Proof.
  intros Hi.
  assert (H : inactiveSymbols
                (stopAlertSound (instrument_token tick)
                   (removeInactive snapshot (instrument_token tick)
                      (resetInactivityTimer tick config l clk e)))
              = if decide (instrument_token tick ∈ snapshot)
                then inactiveSymbols e0 ∖ {[instrument_token tick]}
                else inactiveSymbols e0).
  { rewrite stopAlertSound_inactive. unfold removeInactive.
    destruct (decide (instrument_token tick ∈ snapshot)); cbn;
      rewrite resetInactivityTimer_inactive, Hi; reflexivity. }
  split.
  - intros k'. rewrite H. destruct (decide (instrument_token tick ∈ snapshot)); [| auto].
    intros Hin. apply elem_of_difference in Hin. tauto.
  - right. left. intros Hs. rewrite H. rewrite decide_True by exact Hs.
    intros Hin. apply elem_of_difference in Hin as [_ Hin]. apply Hin.
    apply elem_of_singleton. reflexivity.
Qed.

Lemma tickOutcome_same snapshot k e0 e :
  inactiveSymbols e = inactiveSymbols e0 -> timers e = timers e0 -> tickOutcome snapshot k e0 e.
Proof.
  intros Hi Ht. split; [intros k'; rewrite Hi; auto |]. left. intros id t. rewrite Ht. auto.
Qed.

Lemma tickOutcome_monitor snapshot tick config l sa clk e0 e :
  inactiveSymbols e = inactiveSymbols e0 -> timers e = timers e0 ->
  tickOutcome snapshot (instrument_token tick) e0 (monitor snapshot tick config l sa clk e).
Proof.
  intros Hi Ht. unfold monitor.
  destruct (negb sa && respectMarketHours config); [apply tickOutcome_cancel; assumption |].
  set (e2 := update l _ (update l _ e)).
  destruct (heap e2 !! l) as [state |]; [| apply tickOutcome_same; assumption].
  destruct (priceMoved (last_price tick) (stBaselinePrice state) (deviation config));
    [| apply tickOutcome_same; assumption].
  apply tickOutcome_restart. exact Hi.
Qed.

Lemma tickOutcome_clear snapshot k e :
  tickOutcome snapshot k e (clearSymbolState k e).
Proof.
  destruct (clearSymbolState_result k e) as (_ & _ & _ & Hi & _ & _ & Ht & _).
  split.
  - intros k'. rewrite Hi. intros H. apply elem_of_difference in H. tauto.
  - left. exact Ht.
Qed.

Lemma processTick_outcome snapshot clk e tick :
  tickOutcome snapshot (instrument_token tick) e (processTick snapshot clk e tick).
Proof.
  unfold processTick.
  destruct (configurations e !! instrument_token tick) as [config |];
    [| apply tickOutcome_clear].
  destruct (negb (enabled config)); [apply tickOutcome_clear |].
  destruct (symbolStates e !! instrument_token tick) as [l |] eqn:Hk.
  2:{ split; [| right; right; exact Hk].
      intros k'. destruct (if respectMarketHours config then _ else true); cbn [inactiveSymbols];
        rewrite ?resetInactivityTimer_inactive; auto. }
  destruct (heap e !! l) as [state |]; [| apply tickOutcome_same; reflexivity].
  destruct (now clk - lastMarketStatusCheck state >? 60000);
    [| apply tickOutcome_monitor; reflexivity].
  destruct (negb (eqb (wasMarketOpen state) _));
    [| apply tickOutcome_monitor; reflexivity].
  destruct (if respectMarketHours config then _ else true).
  - apply tickOutcome_restart. reflexivity.
  - apply tickOutcome_cancel; reflexivity.
Qed.

Lemma Flagged_processTick snapshot clk e tick :
  Inv e -> Flagged e -> inactiveSymbols e ⊆ snapshot ->
  Flagged (processTick snapshot clk e tick) /\
  inactiveSymbols (processTick snapshot clk e tick) ⊆ snapshot.
Proof.
  intros HI HF Hsub.
  destruct (processTick_outcome snapshot clk e tick) as [Hnew Hcases].
  split; [| intros k' Hk'; apply Hsub, Hnew, Hk'].
  intros k' Hk'. pose proof (Hnew k' Hk') as Hold. destruct (HF k' Hold) as [Hmon Hnot].
  split.
  - destruct (decide (k' = instrument_token tick)) as [-> | Hne].
    + destruct (configurations e !! instrument_token tick) as [config |] eqn:Hc.
      2:{ exfalso. rewrite processTick_disabled in Hk' by (intros c Hc'; congruence).
          rewrite (proj1 (proj2 (proj2 (proj2 (clearSymbolState_result _ _))))) in Hk'.
          apply elem_of_difference in Hk' as [_ Hk']. apply Hk', elem_of_singleton.
          reflexivity. }
      destruct (enabled config) eqn:Hen.
      2:{ exfalso. rewrite processTick_disabled in Hk' by (intros c Hc'; congruence).
          rewrite (proj1 (proj2 (proj2 (proj2 (clearSymbolState_result _ _))))) in Hk'.
          apply elem_of_difference in Hk' as [_ Hk']. apply Hk', elem_of_singleton.
          reflexivity. }
      destruct Hmon as [l Hl]. destruct (inv_state e HI _ _ Hl) as [st Hst].
      assert (Hg : getState (instrument_token tick) e = Some (l, st))
        by (apply getState_Some; auto).
      destruct (processTick_existing snapshot clk e tick config l st Hc Hen Hg)
        as (s' & Hg' & _).
      apply getState_Some in Hg' as [Hl' _]. rewrite Hl'. eauto.
    + rewrite (proj1 (processTick_other snapshot clk e tick k' 0%nat HI Hne)). exact Hmon.
  - intros id t Ht Htok.
    destruct (processTick_timers snapshot clk e tick id t Ht) as [Hwas | (_ & Htick & _)];
      [exact (Hnot id t Hwas Htok) |].
    rewrite Htick in Htok. subst k'.
    destruct Hcases as [Hsame | [Hclr | Hnone]].
    + exact (Hnot id t (Hsame id t Ht) (f_equal instrument_token Htick)).
    + exact (Hclr (Hsub _ Hold) Hk').
    + rewrite Hnone in Hmon. destruct Hmon as [? Hmon]. discriminate Hmon.
Qed.

Lemma Flagged_effect ticks clk e : Inv e -> Flagged e -> Flagged (effect ticks clk e).
Proof.
  intros HI HF. unfold effect.
  assert (H : Inv (fold_left (processTick (inactiveSymbols e) clk)
                     (map snd (latestTicks ticks)) e) /\
              Flagged (fold_left (processTick (inactiveSymbols e) clk)
                         (map snd (latestTicks ticks)) e) /\
              inactiveSymbols (fold_left (processTick (inactiveSymbols e) clk)
                                 (map snd (latestTicks ticks)) e) ⊆ inactiveSymbols e).
  { apply (fold_left_preserves
             (fun a : Engine => Inv a /\ Flagged a /\ inactiveSymbols a ⊆ inactiveSymbols e)).
    - intros a b (Ia & Fa & Sa). split; [apply Inv_processTick, Ia |].
      apply Flagged_processTick; assumption.
    - split; [exact HI |]. split; [exact HF |]. intros k Hk. exact Hk. }
  apply H.
Qed.

Lemma Flagged_clearSymbolState k e e0 :
  (forall k', symbolStates e0 !! k' = symbolStates e !! k') ->
  inactiveSymbols e0 = inactiveSymbols e ->
  (forall id t, timers e0 !! id = Some t -> timers e !! id = Some t) ->
  Flagged e -> Flagged (clearSymbolState k e0).
Proof.
  intros Hm Hi Ht HF k' Hk'.
  destruct (clearSymbolState_result k e0) as (Hm' & _ & _ & Hi' & _ & _ & Ht' & _).
  rewrite Hi', Hi in Hk'. apply elem_of_difference in Hk' as [Hk' Hne].
  rewrite elem_of_singleton in Hne. destruct (HF k' Hk') as [Hmon Hnot].
  split.
  - rewrite Hm', lookup_delete_ne by congruence. rewrite Hm. exact Hmon.
  - intros id t H. apply (Hnot id t). apply Ht, Ht', H.
Qed.

Lemma Flagged_fireTimer id clk e : Inv e -> Flagged e -> Flagged (fireTimer id clk e).
Proof.
  intros HI HF. unfold fireTimer. destruct (timers e !! id) as [t |] eqn:Ht; [| exact HF].
  destruct (fireAt t <=? now clk); [| exact HF].
  unfold timerCallback. destruct (if respectMarketHours (tmConfig t) then _ else true).
  - destruct (inv_timer e HI id t Ht) as (Hm & s & Hs & Hid).
    destruct (triggerAlert_result (tmTick t) (tmConfig t) (tmState t) clk (clearTimeout id e) s Hs)
      as (_ & Hi & _ & Hsym & Htm & _).
    intros k' Hk'. rewrite Hi in Hk'. rewrite Hsym, Htm. cbn [symbolStates timers clearTimeout
      with_timers].
    apply elem_of_union in Hk' as [Hk' | Hk'].
    + apply elem_of_singleton in Hk'. subst k'. split; [rewrite Hm; eauto |].
      intros id' t' Ht' Htok. apply lookup_delete_Some in Ht' as [Hne Ht'].
      apply Hne. apply (armed_unique (instrument_token (tmTick t)) id id' e HI).
      * exists t. auto.
      * exists t'. auto.
    + destruct (HF k' Hk') as [Hmon Hnot]. split; [exact Hmon |].
      intros id' t' Ht'. apply lookup_delete_Some in Ht' as [_ Ht']. eauto.
  - apply (Flagged_clearSymbolState _ e); [| | | exact HF].
    + intros k'. rewrite stopAlertSound_symbolStates. reflexivity.
    + rewrite stopAlertSound_inactive. reflexivity.
    + intros id' t'. rewrite stopAlertSound_timers. cbn. intros H.
      apply lookup_delete_Some in H. tauto.
Qed.

Lemma Flagged_step e ev : Inv e -> Flagged e -> Flagged (step e ev).
Proof.
  intros HI HF. destruct ev as [ticks clk | id clk | token config | |]; cbn [step].
  - apply Flagged_effect; assumption.
  - apply Flagged_fireTimer; assumption.
  - unfold updateConfiguration. apply (Flagged_clearSymbolState _ e); auto.
  - intros k Hk. unfold clearAllAlerts in Hk. cbn in Hk. apply elem_of_empty in Hk.
    destruct Hk.
  - exact HF.
Qed.

Lemma Flagged_run evs e : Inv e -> Flagged e -> Inv (run evs e) /\ Flagged (run evs e).
Proof.
  intros HI HF.
  apply (fold_left_preserves (fun a : Engine => Inv a /\ Flagged a)); [| auto].
  intros a ev [Ia Fa]. split; [apply Inv_step, Ia | apply Flagged_step; auto].
Qed.

(** X30: an instrument that is flagged inactive has a monitor and no armed
    timer, in every state the hook can reach. *)
Theorem inactive_instrument_has_no_timer (evs : list Event) (k : Z) :
  k ∈ inactiveSymbols (run evs init) ->
  (exists l s, getState k (run evs init) = Some (l, s)) /\
  armedFor k (run evs init) = [].
Proof.
  intros Hk.
  assert (F0 : Flagged init) by (intros k' Hk'; cbn in Hk'; apply elem_of_empty in Hk'; tauto).
  destruct (Flagged_run evs init Inv_init F0) as [HI HF].
  destruct (HF k Hk) as [[l Hl] Hnot]. split.
  - destruct (inv_state _ HI _ _ Hl) as [s Hs]. exists l, s. apply getState_Some. auto.
  - apply armedFor_nil. intros id (t & Ht & Htok). exact (Hnot id t Ht Htok).
Qed.

Lemma inactive_instrument_has_no_timer_witness :
  armedFor 265
    (run [UpdateConfiguration 265 alwaysOn; Render [priceTick 265 100 0] (thursday 0);
          Render secondTicks (thursday 10000); TimerFired 1%nat (thursday 30000)] init) = [].
Proof.
  refine (proj2 (inactive_instrument_has_no_timer _ 265 _)).
  vm_compute. reflexivity.
Defined.

End EngineInvariants.
